(** * QuizWebSocket: the room coordinator of [index.js]

    A shallow embedding of the WebSocket quiz server: the room table, the
    per-connection tags, the live interval timers, and the handlers of the
    [connection], [message], [close] and [error] events together with the
    one-second timer callback.  Handlers are written in a small monad that
    threads the server state, collects what [ws.send] transmits, and can
    stop with an uncaught exception or fail to return. *)

From Stdlib Require Import PrimFloat Ascii DecimalString.
From Stdlib Require FloatAxioms Uint63.
From stdpp Require Import base option strings list gmap.

Open Scope string_scope.
Open Scope list_scope.

(** ** JavaScript values *)

(** Numbers are IEEE 754 binary64 values, as in the language. *)
Abbreviation number := PrimFloat.float.

(** A value as [JSON.parse] (or the handler itself) can produce it.  An object
    or array is kept by its text: the server stores and relays such values
    and never looks inside. *)
Inductive JsVal : Type :=
| JUndefined
| JNull
| JBool (b : bool)
| JNum (x : number)
| JStr (s : string)
| JObj (text : string).

(** [typeof v === "number"] *)
Definition is_number (v : JsVal) : bool :=
  match v with JNum _ => true | _ => false end.

(** Truthiness of a number: [0], [-0] and [NaN] are falsy. *)
Definition num_truthy (x : number) : bool :=
  negb (PrimFloat.is_nan x || PrimFloat.eqb x 0%float).

(** Truthiness of a string: only the empty string is falsy. *)
Definition str_truthy (s : string) : bool := negb (String.eqb s "").

Definition truthy (v : JsVal) : bool :=
  match v with
  | JUndefined | JNull => false
  | JBool b => b
  | JNum x => num_truthy x
  | JStr s => str_truthy s
  | JObj _ => true
  end.

(** The property key a field converts to: [undefined] reads the key
    ["undefined"]. *)
Definition key_of (f : option string) : string := default "undefined" f.

(** [v || null] *)
Definition or_null (v : JsVal) : JsVal := if truthy v then v else JNull.

(** [Math.floor]: a value of magnitude at least 2^52 is an integer already;
    below that, adding and subtracting 2^52 rounds to the nearest integer,
    which is one too high when it exceeds the argument. *)
Definition two52 : number := 0x1p52%float.

Definition math_floor (x : number) : number :=
  if PrimFloat.is_nan x then x
  else if PrimFloat.leb two52 (PrimFloat.abs x) then x
  else
    let r := PrimFloat.sub (PrimFloat.add (PrimFloat.abs x) two52) two52 in
    let t := if PrimFloat.ltb x 0%float then PrimFloat.opp r else r in
    if PrimFloat.ltb x t then PrimFloat.sub t 1%float else t.

(** [Math.max(a, b)]: [NaN] when either argument is. *)
Definition math_max (a b : number) : number :=
  if PrimFloat.is_nan a || PrimFloat.is_nan b then PrimFloat.nan
  else if PrimFloat.ltb a b then b else a.

(** [n.toString()] for a non-negative integer. *)
Definition toString (n : N) : string := NilZero.string_of_uint (N.to_uint n).

(** The names every plain object inherits from [Object.prototype]; reading
    one of them from an object that has no such property of its own yields a
    function or object, never [undefined]. *)
Definition object_prototype_names : list string :=
  [ "constructor"; "__proto__"; "hasOwnProperty"; "isPrototypeOf";
    "propertyIsEnumerable"; "toLocaleString"; "toString"; "valueOf";
    "__defineGetter__"; "__defineSetter__"; "__lookupGetter__";
    "__lookupSetter__" ].

Definition inherited (key : string) : bool :=
  bool_decide (key ∈ object_prototype_names).

(** [obj[key] = v] on a plain object used as a table: the key ["__proto__"]
    is the prototype accessor, whose setter ignores a number. *)
Definition obj_set (key : string) (v : number) (obj : gmap string number)
  : gmap string number :=
  if String.eqb key "__proto__" then obj else <[key := v]> obj.

(** ** The data model *)

Inductive RoomState : Type := waiting | started | ended.

#[global] Instance RoomState_eq_dec : EqDecision RoomState.
Proof. solve_decision. Defined.

(** [{ ws, email }]: a connection handle and the identity bound to it. *)
Record Participant : Type := { ws : nat; email : string }.

#[global] Instance Participant_eq_dec : EqDecision Participant.
Proof. solve_decision. Defined.

(** [{ timeRemaining, interval }] *)
Record Timer : Type := { timeRemaining : number; interval : nat }.

Record Room : Type := {
  owner : Participant;
  clients : list Participant;
  quiz : JsVal;
  state : RoomState;
  timer : option Timer;
  finished : option (gmap string number)
}.

(** The tags the server keeps on a connection object, and whether the
    transport reports it open ([ws.readyState === ws.OPEN]). *)
Record Conn : Type := {
  room : option string;
  userEmail : option string;
  readyOpen : bool
}.

(** The body of an inbound message, by the fields the handlers read
    ([body || {}] leaves every field [undefined] when there is no body).
    [roomCode] and [userEmail] are strings when present, as the protocol
    has them; [None] is [undefined]. *)
Record Body : Type := {
  b_roomCode : option string;
  b_userEmail : option string;
  b_quizData : JsVal;
  b_username : JsVal;
  b_timerSeconds : JsVal;
  b_score : JsVal
}.

Inductive Role : Type := role_owner | role_client.

(** Outbound notifications, one constructor per [action]. *)
Inductive Msg : Type :=
| error (body : string)
| roomClosed
| created (roomCode : string) (quizOut : JsVal)
| joined (roomCode : string) (quizData : JsVal)
| userJoined (who : string) (username : JsVal)
| sessionStarted (is_owner : bool) (quizData : JsVal) (remaining : number)
| timerTick (remaining : number)
| sessionEnded
| reconnected (quizData : JsVal) (role : Role) (st : RoomState) (remaining : JsVal)
| roomDeleted (roomCode : string) (is_owner : bool)
| userLeft (members : list Participant)
| leftRoom (roomCode : string)
| userFinished (who : string) (score : number) (remaining : number)
| message (body : Body).

(** One call of [ws.send]: the connection and what it was sent. *)
Definition Sent : Type := nat * Msg.

(** The server: the [rooms] table, the connection objects, the live
    intervals (each with the room code its callback closed over) and the
    next interval handle. *)
Record Server : Type := {
  rooms : gmap string Room;
  conns : gmap nat Conn;
  intervals : gmap nat string;
  next_interval : nat
}.

Definition initial : Server :=
  {| rooms := ∅; conns := ∅; intervals := ∅; next_interval := 0 |}.

(** ** The handler monad *)

(** A handler runs to completion ([Ok]), stops with an uncaught exception
    ([Thrown]; the process does not survive it), or never returns ([Hung]).
    [out] lists what was transmitted, in order. *)
Inductive Res (A : Type) : Type :=
| Ok (a : A) (s : Server) (out : list Sent)
| Thrown (out : list Sent)
| Hung (out : list Sent).

Arguments Ok {A} a s out.
Arguments Thrown {A} out.
Arguments Hung {A} out.

Definition M (A : Type) : Type := Server → Res A.

Definition ret {A : Type} (a : A) : M A := λ s, Ok a s [].

Definition bind {A B : Type} (m : M A) (k : A → M B) : M B := λ s,
  match m s with
  | Ok a s1 o1 =>
      match k a s1 with
      | Ok b s2 o2 => Ok b s2 (o1 ++ o2)
      | Thrown o2 => Thrown (o1 ++ o2)
      | Hung o2 => Hung (o1 ++ o2)
      end
  | Thrown o1 => Thrown o1
  | Hung o1 => Hung o1
  end.

Notation "x ⇐ m ; k" := (bind m (λ x, k))
  (at level 20, m at level 100, k at level 200, only parsing).
Notation "m ;;; k" := (bind m (λ _, k))
  (at level 100, k at level 200, only parsing, right associativity).

Definition gets {A : Type} (f : Server → A) : M A := λ s, Ok (f s) s [].
Definition modify (f : Server → Server) : M unit := λ s, Ok tt (f s) [].
Definition throw {A : Type} : M A := λ _, Thrown [].
Definition hang {A : Type} : M A := λ _, Hung [].
Definition transmit (w : nat) (m : Msg) : M unit := λ s, Ok tt s [(w, m)].

(** [list.forEach(f)] *)
Fixpoint forEach {A : Type} (l : list A) (f : A → M unit) : M unit :=
  match l with
  | [] => ret tt
  | x :: l' => f x ;;; forEach l' f
  end.

(** ** State access *)

(** A connection object the table does not hold yet has no tags and is not
    open. *)
Definition no_conn : Conn :=
  {| room := None; userEmail := None; readyOpen := false |}.

Definition conn (w : nat) (s : Server) : Conn := default no_conn (conns s !! w).

Definition with_conns (f : gmap nat Conn → gmap nat Conn) (s : Server) : Server :=
  {| rooms := rooms s; conns := f (conns s); intervals := intervals s;
     next_interval := next_interval s |}.

Definition with_rooms (f : gmap string Room → gmap string Room) (s : Server) : Server :=
  {| rooms := f (rooms s); conns := conns s; intervals := intervals s;
     next_interval := next_interval s |}.

(** [ws.room = v] *)
Definition tag_room (w : nat) (v : option string) (s : Server) : Server :=
  with_conns (insert w
    {| room := v; userEmail := userEmail (conn w s);
       readyOpen := readyOpen (conn w s) |}) s.

Definition set_ws_room (w : nat) (v : option string) : M unit :=
  modify (tag_room w v).

(** [ws.userEmail = v] *)
Definition tag_userEmail (w : nat) (v : option string) (s : Server) : Server :=
  with_conns (insert w
    {| room := room (conn w s); userEmail := v;
       readyOpen := readyOpen (conn w s) |}) s.

Definition set_ws_userEmail (w : nat) (v : option string) : M unit :=
  modify (tag_userEmail w v).

(** The transport's own update of [ws.readyState]. *)
Definition tag_ready (w : nat) (b : bool) (s : Server) : Server :=
  with_conns (insert w
    {| room := room (conn w s); userEmail := userEmail (conn w s);
       readyOpen := b |}) s.

Definition set_ws_ready (w : nat) (b : bool) : M unit :=
  modify (tag_ready w b).

(** What [rooms[key]] yields: a room stored under the key, something
    inherited from [Object.prototype] (truthy, with none of a room's
    fields), or [undefined]. *)
Inductive Slot : Type := Own (r : Room) | Inherited | Missing.

Definition rooms_get (key : string) (s : Server) : Slot :=
  match rooms s !! key with
  | Some r => Own r
  | None => if inherited key then Inherited else Missing
  end.

(** [rooms[key] = r], also standing for an in-place update of the room
    stored under [key]. *)
Definition store_room (key : string) (r : Room) (s : Server) : Server :=
  with_rooms (insert key r) s.

Definition put_room (key : string) (r : Room) : M unit :=
  modify (store_room key r).

(** [delete rooms[key]] *)
Definition drop_room (key : string) (s : Server) : Server :=
  with_rooms (delete key) s.

Definition delete_room_entry (key : string) : M unit :=
  modify (drop_room key).

Definition set_owner (p : Participant) (r : Room) : Room :=
  {| owner := p; clients := clients r; quiz := quiz r; state := state r;
     timer := timer r; finished := finished r |}.
Definition set_clients (cs : list Participant) (r : Room) : Room :=
  {| owner := owner r; clients := cs; quiz := quiz r; state := state r;
     timer := timer r; finished := finished r |}.
Definition set_state (st : RoomState) (r : Room) : Room :=
  {| owner := owner r; clients := clients r; quiz := quiz r; state := st;
     timer := timer r; finished := finished r |}.
Definition set_timer (t : option Timer) (r : Room) : Room :=
  {| owner := owner r; clients := clients r; quiz := quiz r; state := state r;
     timer := t; finished := finished r |}.
Definition set_finished (f : option (gmap string number)) (r : Room) : Room :=
  {| owner := owner r; clients := clients r; quiz := quiz r; state := state r;
     timer := timer r; finished := f |}.

(** [setInterval(callback, 1000)] with a callback closed over [key]: a new
    handle, registered as live. *)
Definition add_interval (key : string) (s : Server) : Server :=
  {| rooms := rooms s; conns := conns s;
     intervals := <[next_interval s := key]> (intervals s);
     next_interval := S (next_interval s) |}.

Definition setInterval (key : string) : M nat := λ s,
  Ok (next_interval s) (add_interval key s) [].

(** [clearInterval(handle)] *)
Definition drop_interval (i : nat) (s : Server) : Server :=
  {| rooms := rooms s; conns := conns s;
     intervals := delete i (intervals s);
     next_interval := next_interval s |}.

Definition clearInterval (i : nat) : M unit :=
  modify (drop_interval i).

(** ** Helpers of [index.js] *)

(** [safeSend(ws, obj)]: transmits only on an open connection and never
    throws. *)
Definition safeSend (w : nat) (obj : Msg) : M unit :=
  c ⇐ gets (conn w);
  if readyOpen c then transmit w obj else ret tt.

(** [broadcast(clients, obj)] *)
Definition broadcast (cs : list Participant) (obj : Msg) : M unit :=
  forEach cs (λ client, safeSend (ws client) obj).

(** [if (room.timer && room.timer.interval) { clearInterval(...); room.timer = null; }]
    (an interval handle is an object, hence truthy). *)
Definition stop_timer (roomCode : string) (r : Room) : M unit :=
  match timer r with
  | Some t => clearInterval (interval t) ;;; put_room roomCode (set_timer None r)
  | None => ret tt
  end.

(** [deleteRoom(roomCode)] *)
Definition deleteRoom (roomCode : string) : M unit :=
  slot ⇐ gets (rooms_get roomCode);
  match slot with
  | Missing => ret tt
  | Inherited => ret tt
  | Own r => stop_timer roomCode r ;;; delete_room_entry roomCode
  end.

(** A string field that passed a [!field] check: present and not empty. *)
Definition required (f : option string) : option string :=
  match f with
  | Some v => if str_truthy v then Some v else None
  | None => None
  end.

(** [leaveRoom(ws)] *)
Definition leaveRoom (w : nat) : M unit :=
  c ⇐ gets (conn w);
  match required (room c) with
  | None => ret tt
  | Some roomCode =>
      slot ⇐ gets (rooms_get roomCode);
      match slot with
      | Missing => set_ws_room w None
      | Inherited => throw
      | Own r =>
          (if bool_decide (ws (owner r) = w) then
             forEach (clients r) (λ client,
               safeSend (ws client) roomClosed ;;;
               set_ws_room (ws client) None) ;;;
             stop_timer roomCode r ;;;
             delete_room_entry roomCode
           else
             put_room roomCode
               (set_clients (filter (λ c, ws c ≠ w) (clients r)) r)) ;;;
          set_ws_room w None ;;;
          set_ws_userEmail w None
      end
  end.

(** ** The actions of the [message] handler *)

(** [do { roomCode = Math.floor(1000 + Math.random() * 9000).toString(); }
     while (rooms[roomCode]);]
    Each element of [rnd] is one value of
    [Math.floor(1000 + Math.random() * 9000)]; the loop does not return when
    no draw is free. *)
Fixpoint gen_roomCode (rnd : list N) : M string :=
  match rnd with
  | [] => hang
  | n :: rnd' =>
      slot ⇐ gets (rooms_get (toString n));
      match slot with
      | Missing => ret (toString n)
      | _ => gen_roomCode rnd'
      end
  end.

(** [Math.random()] lies in [0, 1), so a draw is an integer from 1000 to
    9999. *)
Definition valid_draw (n : N) : Prop := (1000 ≤ n ≤ 9999)%N.

(** The [create] branch after its first statement, [leaveRoom(ws)]. *)
Definition create_body (w : nat) (body : Body) (rnd : list N) : M unit :=
  match required (b_userEmail body) with
  | None => safeSend w (error "userEmail required to create room")
  | Some userEmail =>
      set_ws_userEmail w (Some userEmail) ;;;
      roomCode ⇐ gen_roomCode rnd;
      set_ws_room w (Some roomCode) ;;;
      put_room roomCode
        {| owner := {| ws := w; email := userEmail |}; clients := [];
           quiz := or_null (b_quizData body); state := waiting;
           timer := None; finished := None |} ;;;
      safeSend w (created roomCode (or_null (b_quizData body)))
  end.

Definition on_create (w : nat) (body : Body) (rnd : list N) : M unit :=
  leaveRoom w ;;; create_body w body rnd.

(** The roster after [find]/[findIndex] by email: the first participant with
    that email gets the new connection, in place; otherwise a new participant
    is pushed. *)
Definition rebind_or_push (w : nat) (userEmail : string)
    (cs : list Participant) : list Participant :=
  match list_find (λ c, email c = userEmail) cs with
  | Some (i, c) => <[i := {| ws := w; email := email c |}]> cs
  | None => cs ++ [{| ws := w; email := userEmail |}]
  end.

(** The [join] branch after its first statement, [leaveRoom(ws)]. *)
Definition join_body (w : nat) (body : Body) : M unit :=
  match required (b_roomCode body), required (b_userEmail body) with
  | Some roomCode, Some userEmail =>
      slot ⇐ gets (rooms_get roomCode);
      match slot with
      | Missing => safeSend w (error "Room does not exist")
      | Inherited =>
          set_ws_userEmail w (Some userEmail) ;;;
          set_ws_room w (Some roomCode) ;;;
          throw
      | Own r =>
          if bool_decide (state r = started) then
            safeSend w (error "Session already started, cannot join")
          else
            set_ws_userEmail w (Some userEmail) ;;;
            set_ws_room w (Some roomCode) ;;;
            let cs := rebind_or_push w userEmail (clients r) in
            put_room roomCode (set_clients cs r) ;;;
            safeSend w (joined roomCode (quiz r)) ;;;
            forEach (owner r :: cs) (λ client,
              if bool_decide (ws client ≠ w)
              then safeSend (ws client) (userJoined userEmail (b_username body))
              else ret tt)
      end
  | _, _ => safeSend w (error "roomCode and userEmail required to join")
  end.

Definition on_join (w : nat) (body : Body) : M unit :=
  leaveRoom w ;;; join_body w body.

(** [(typeof timerSeconds === "number") ? Math.max(1, Math.floor(timerSeconds)) : 60] *)
Definition duration (timerSeconds : JsVal) : number :=
  match timerSeconds with
  | JNum x => math_max 1%float (math_floor x)
  | _ => 60%float
  end.

Definition on_startSession (w : nat) (body : Body) : M unit :=
  let roomCode := key_of (b_roomCode body) in
  slot ⇐ gets (rooms_get roomCode);
  match slot with
  | Missing => safeSend w (error "Room does not exist")
  | Inherited => safeSend w (error "Only the owner can start the session")
  | Own r =>
      if bool_decide (ws (owner r) ≠ w) then
        safeSend w (error "Only the owner can start the session")
      else
        let d := duration (b_timerSeconds body) in
        put_room roomCode (set_state started r) ;;;
        forEach (owner r :: clients r) (λ client,
          safeSend (ws client)
            (sessionStarted (String.eqb (email client) (email (owner r)))
                            (quiz r) d)) ;;;
        match timer r with
        | Some t => clearInterval (interval t)
        | None => ret tt
        end ;;;
        i ⇐ setInterval roomCode;
        put_room roomCode
          (set_timer (Some {| timeRemaining := d; interval := i |})
                     (set_state started r))
  end.

(** The callback given to [setInterval], closed over [roomCode]. *)
Definition interval_callback (roomCode : string) : M unit :=
  slot ⇐ gets (rooms_get roomCode);
  match slot with
  | Missing => ret tt
  | Inherited => throw
  | Own r =>
      match timer r with
      | None => throw
      | Some t =>
          let left := PrimFloat.sub (timeRemaining t) 1%float in
          put_room roomCode
            (set_timer (Some {| timeRemaining := left; interval := interval t |}) r) ;;;
          let everyone := owner r :: clients r in
          broadcast everyone (timerTick left) ;;;
          if PrimFloat.leb left 0%float then
            clearInterval (interval t) ;;;
            put_room roomCode (set_state ended (set_timer None r)) ;;;
            broadcast everyone sessionEnded
          else ret tt
      end
  end.

(** [room.timer?.timeRemaining || null] *)
Definition remaining_or_null (r : Room) : JsVal :=
  match timer r with
  | Some t => or_null (JNum (timeRemaining t))
  | None => JNull
  end.

Definition on_reconnect (w : nat) (body : Body) : M unit :=
  match required (b_roomCode body), required (b_userEmail body) with
  | Some roomCode, Some userEmail =>
      slot ⇐ gets (rooms_get roomCode);
      match slot with
      | Missing => safeSend w (error "Room does not exist")
      | Inherited =>
          set_ws_userEmail w (Some userEmail) ;;;
          set_ws_room w (Some roomCode) ;;;
          throw
      | Own r =>
          if bool_decide (state r = ended) then
            safeSend w (error "Room already ended")
          else
            set_ws_userEmail w (Some userEmail) ;;;
            set_ws_room w (Some roomCode) ;;;
            if String.eqb (email (owner r)) userEmail then
              put_room roomCode
                (set_owner {| ws := w; email := email (owner r) |} r) ;;;
              safeSend w
                (reconnected (quiz r) role_owner (state r) (remaining_or_null r))
            else
              put_room roomCode
                (set_clients (rebind_or_push w userEmail (clients r)) r) ;;;
              safeSend w
                (reconnected (quiz r) role_client (state r) (remaining_or_null r))
      end
  | _, _ => safeSend w (error "roomCode and userEmail required to reconnect")
  end.

Definition on_deleteRoom (w : nat) (body : Body) : M unit :=
  match required (b_roomCode body) with
  | None => safeSend w (error "roomCode required to delete room")
  | Some roomCode =>
      slot ⇐ gets (rooms_get roomCode);
      match slot with
      | Missing => safeSend w (error "Room does not exist")
      | Inherited => throw
      | Own r =>
          if bool_decide (ws (owner r) ≠ w) then
            safeSend w (error "Only the owner can delete the room")
          else
            forEach (owner r :: clients r) (λ client,
              safeSend (ws client)
                (roomDeleted roomCode (bool_decide (ws client = ws (owner r))))) ;;;
            deleteRoom roomCode
      end
  end.

Definition on_leaveRoom (w : nat) : M unit :=
  c ⇐ gets (conn w);
  match required (room c) with
  | None => safeSend w (error "You are not in a room")
  | Some roomCode =>
      slot ⇐ gets (rooms_get roomCode);
      match slot with
      | Missing =>
          set_ws_room w None ;;;
          safeSend w (error "Room no longer exists")
      | Inherited => throw
      | Own r =>
          if bool_decide (ws (owner r) = w) then
            safeSend w (error "Owner cannot leave. Use deleteRoom instead.")
          else
            let cs := filter (λ c, ws c ≠ w) (clients r) in
            put_room roomCode (set_clients cs r) ;;;
            broadcast (owner r :: cs) (userLeft cs) ;;;
            safeSend w (leftRoom roomCode) ;;;
            set_ws_room w None ;;;
            set_ws_userEmail w None
      end
  end.

(** [let timeRemaining = room?.timer?.timeRemaining; if (!timeRemaining) timeRemaining = 0;] *)
Definition remaining_or_zero (r : Room) : number :=
  match timer r with
  | Some t => if num_truthy (timeRemaining t) then timeRemaining t else 0%float
  | None => 0%float
  end.

Definition on_finishQuiz (w : nat) (body : Body) : M unit :=
  match required (b_roomCode body), required (b_userEmail body), b_score body with
  | Some roomCode, Some userEmail, JNum score =>
      slot ⇐ gets (rooms_get roomCode);
      match slot with
      | Missing => safeSend w (error "Room does not exist")
      | Inherited => throw
      | Own r =>
          put_room roomCode
            (set_finished
               (Some (obj_set userEmail score (default ∅ (finished r)))) r) ;;;
          safeSend (ws (owner r))
            (userFinished userEmail score (remaining_or_zero r))
      end
  | _, _, _ =>
      safeSend w (error "roomCode, userEmail, and numeric score required")
  end.

Definition on_message (w : nat) (body : Body) : M unit :=
  c ⇐ gets (conn w);
  match required (room c) with
  | None => safeSend w (error "You are not in a room")
  | Some roomCode =>
      slot ⇐ gets (rooms_get roomCode);
      match slot with
      | Missing => safeSend w (error "You are not in a room")
      | Inherited => throw
      | Own r => broadcast (owner r :: clients r) (message body)
      end
  end.

(** The chain of [if (action === ...)] tests. *)
Definition dispatch (w : nat) (action : string) (body : Body)
    (rnd : list N) : M unit :=
  if String.eqb action "create" then on_create w body rnd
  else if String.eqb action "join" then on_join w body
  else if String.eqb action "startSession" then on_startSession w body
  else if String.eqb action "reconnect" then on_reconnect w body
  else if String.eqb action "deleteRoom" then on_deleteRoom w body
  else if String.eqb action "leaveRoom" then on_leaveRoom w
  else if String.eqb action "finishQuiz" then on_finishQuiz w body
  else if String.eqb action "message" then on_message w body
  else safeSend w (error ("Unknown action: " +:+ action)).

(** ** Events *)

(** What [JSON.parse] made of an inbound text: nothing (it threw, and the
    handler logs and returns), the value [null] (destructuring it throws),
    or an object read by its [action] and [body].  The action is taken as
    a string: a missing action reads "undefined", and an action of another
    type, which equals none of the literals either, is not modelled. *)
Inductive Data : Type :=
| unparsable
| parsed_null
| parsed (action : string) (body : Body).

(** What the process reacts to: a new connection, an inbound text ([rnd]
    feeds [Math.random]), the close or error of a connection (the
    transport has left the open state when either handler runs), and the
    firing of an interval. *)
Inductive Event : Type :=
| connection (w : nat)
| inbound (w : nat) (data : Data) (rnd : list N)
| close (w : nat)
| socket_error (w : nat)
| tick (i : nat).

Definition handle (ev : Event) : M unit :=
  match ev with
  | connection w =>
      modify (with_conns (insert w
        {| room := None; userEmail := None; readyOpen := true |}))
  | inbound w unparsable _ => ret tt
  | inbound w parsed_null _ => throw
  | inbound w (parsed action body) rnd => dispatch w action body rnd
  | close w => set_ws_ready w false ;;; leaveRoom w
  | socket_error w => set_ws_ready w false ;;; leaveRoom w
  | tick i =>
      live ⇐ gets (λ s, intervals s !! i);
      match live with
      | Some roomCode => interval_callback roomCode
      | None => ret tt
      end
  end.

(** Events the environment can really deliver in state [s]. *)
Definition deliverable (s : Server) (ev : Event) : Prop :=
  match ev with
  | connection w => conns s !! w = None
  | inbound w _ rnd => is_Some (conns s !! w) ∧ Forall valid_draw rnd
  | close w | socket_error w => is_Some (conns s !! w)
  | tick i => is_Some (intervals s !! i)
  end.

(** States the server reaches from its start; a thrown exception or a hung
    loop ends the run. *)
Inductive reachable : Server → Prop :=
| reachable_initial : reachable initial
| reachable_step s ev s' out :
    reachable s → deliverable s ev → handle ev s = Ok tt s' out → reachable s'.

(** * Vocabulary of the statements *)

(** ** Transmissions *)

(** What one [safeSend] transmits. *)
Definition reply (s : Server) (w : nat) (m : Msg) : list Sent :=
  if readyOpen (conn w s) then [(w, m)] else [].

(** What a loop of [safeSend] over a roster transmits: one message per
    roster entry whose connection is open, in roster order. *)
Definition delivered_by (s : Server) (cs : list Participant)
    (f : Participant → Msg) : list Sent :=
  (λ c, (ws c, f c)) <$> filter (λ c, readyOpen (conn (ws c) s) = true) cs.

Definition delivered (s : Server) (cs : list Participant) (m : Msg) : list Sent :=
  delivered_by s cs (λ _, m).

Definition transmitted {A : Type} (r : Res A) : list Sent :=
  match r with Ok _ _ out | Thrown out | Hung out => out end.

(** The [timeRemaining] a [sessionStarted] notification carries. *)
Definition started_remaining (m : Msg) : option number :=
  match m with sessionStarted _ _ d => Some d | _ => None end.

(** A transmitted [sessionEnded]. *)
Definition is_sessionEnded (x : Sent) : bool :=
  match x.2 with sessionEnded => true | _ => false end.

Definition sessionStarted_for (r : Room) (d : number) (c : Participant) : Msg :=
  sessionStarted (String.eqb (email c) (email (owner r))) (quiz r) d.

(** The [roomDeleted] notification a participant gets. *)
Definition roomDeleted_for (key : string) (r : Room) (c : Participant) : Msg :=
  roomDeleted key (bool_decide (ws c = ws (owner r))).

(** ** State after an action *)

(** The members' room tags cleared one after the other, as the owner's
    [leaveRoom] does. *)
Definition clear_tags (cs : list Participant) (s : Server) : Server :=
  foldl (λ s c, tag_room (ws c) None s) s cs.

(** A room removed from the table, its interval (if any) cleared. *)
Definition close_room (key : string) (r : Room) (s : Server) : Server :=
  drop_room key
    (match timer r with
     | Some t => store_room key (set_timer None r) (drop_interval (interval t) s)
     | None => s
     end).

(** The roster without the entries bound to connection [w]. *)
Definition without (w : nat) (cs : list Participant) : list Participant :=
  filter (λ c, ws c ≠ w) cs.

(** Both tags of a connection cleared. *)
Definition untag (w : nat) (s : Server) : Server :=
  tag_userEmail w None (tag_room w None s).

(** The room [create] stores. *)
Definition new_room (w : nat) (userEmail : string) (quizData : JsVal) : Room :=
  {| owner := {| ws := w; email := userEmail |}; clients := [];
     quiz := or_null quizData; state := waiting; timer := None;
     finished := None |}.

(** The state after a successful [create], from the state its implicit
    [leaveRoom] left. *)
Definition after_create (w : nat) (userEmail roomCode : string) (quizData : JsVal)
    (s1 : Server) : Server :=
  store_room roomCode (new_room w userEmail quizData)
    (tag_room w (Some roomCode) (tag_userEmail w (Some userEmail) s1)).

(** The state after a successful [join], or after a [reconnect] as a
    member, from the state in which the room was looked up. *)
Definition after_join (w : nat) (userEmail key : string) (r : Room)
    (s : Server) : Server :=
  store_room key (set_clients (rebind_or_push w userEmail (clients r)) r)
    (tag_room w (Some key) (tag_userEmail w (Some userEmail) s)).

(** The state after a [reconnect] with the owner's email. *)
Definition after_reconnect_owner (w : nat) (userEmail key : string) (r : Room)
    (s : Server) : Server :=
  store_room key (set_owner {| ws := w; email := email (owner r) |} r)
    (tag_room w (Some key) (tag_userEmail w (Some userEmail) s)).

(** The state after a member's [leaveRoom] request. *)
Definition after_leave (w : nat) (key : string) (r : Room) (s : Server) : Server :=
  untag w (store_room key (set_clients (without w (clients r)) r) s).

(** The state after a [finishQuiz]. *)
Definition after_finish (key userEmail : string) (score : number) (r : Room)
    (s : Server) : Server :=
  store_room key
    (set_finished (Some (obj_set userEmail score (default ∅ (finished r)))) r) s.

Definition after_start (key : string) (r : Room) (d : number) (s : Server) : Server :=
  {| rooms :=
       <[key := set_timer (Some {| timeRemaining := d; interval := next_interval s |})
                          (set_state started r)]> (rooms s);
     conns := conns s;
     intervals :=
       <[next_interval s := key]>
         (match timer r with
          | Some t => delete (interval t) (intervals s)
          | None => intervals s
          end);
     next_interval := S (next_interval s) |}.

(** The state after the interval of room [key] fired: the countdown, and at
    zero the end of the session. *)
Definition after_tick (key : string) (r : Room) (t : Timer) (s : Server) : Server :=
  let left := PrimFloat.sub (timeRemaining t) 1%float in
  if PrimFloat.leb left 0%float then
    drop_interval (interval t)
      (store_room key (set_state ended (set_timer None r)) s)
  else
    store_room key
      (set_timer (Some {| timeRemaining := left; interval := interval t |}) r) s.

Definition with_timerSeconds (v : JsVal) (body : Body) : Body :=
  {| b_roomCode := b_roomCode body; b_userEmail := b_userEmail body;
     b_quizData := b_quizData body; b_username := b_username body;
     b_timerSeconds := v; b_score := b_score body |}.

(** ** Room codes *)

(** A string of exactly four decimal digits. *)
Definition is_digit (a : ascii) : bool :=
  (48 <=? nat_of_ascii a)%nat && (nat_of_ascii a <=? 57)%nat.

Definition four_digits (c : string) : bool :=
  Nat.eqb (String.length c) 4 && forallb is_digit (String.list_ascii_of_string c).

(** What every generated code satisfies: four digits, hence a truthy string
    that is no inherited property name and not the key ["undefined"]. *)
Definition code_ok (c : string) : bool :=
  four_digits c && negb (inherited c) && str_truthy c
  && negb (String.eqb c "undefined").

(** ** Invariants and the shape of a step *)

Definition emails (cs : list Participant) : list string := email <$> cs.

(** Identities are non-empty and the members' emails are pairwise
    distinct. *)
Record roster_ok (r : Room) : Prop := {
  owner_named : str_truthy (email (owner r)) = true;
  members_named : Forall (λ c, str_truthy (email c) = true) (clients r);
  members_distinct : NoDup (emails (clients r))
}.

(** What holds of every room of a reachable server. *)
Record room_ok (s : Server) (key : string) (r : Room) : Prop := {
  room_code : code_ok key = true;
  room_roster : roster_ok r;
  room_timer : is_Some (timer r) ↔ state r = started;
  room_interval : ∀ t, timer r = Some t → intervals s !! interval t = Some key
}.

(** The invariant: every room is [room_ok], every live interval is the one
    of the timer of the room its callback closed over, and interval handles
    are never reused. *)
Record Inv (s : Server) : Prop := {
  inv_rooms : ∀ key r, rooms s !! key = Some r → room_ok s key r;
  inv_live : ∀ i key, intervals s !! i = Some key →
    ∃ r t, rooms s !! key = Some r ∧ timer r = Some t ∧ interval t = i;
  inv_fresh : ∀ i key, intervals s !! i = Some key → i < next_interval s
}.

(** Room tags of connections: a handler only clears a tag or sets it to the
    code of a room that is in the table when it returns. *)
Definition tags_cleared (s s' : Server) : Prop :=
  ∀ w key, room (conn w s') = Some key → room (conn w s) = Some key.

Definition tags_from (s s' : Server) : Prop :=
  ∀ w key, room (conn w s') = Some key →
    room (conn w s) = Some key ∨ is_Some (rooms s' !! key).

(** Every room tag is a generated code. *)
Definition tags_ok (s : Server) : Prop :=
  ∀ w key, room (conn w s) = Some key → code_ok key = true.

(** States that differ in connection tags only. *)
Definition same_core (s s' : Server) : Prop :=
  rooms s' = rooms s ∧ intervals s' = intervals s ∧
  next_interval s' = next_interval s.

(** An in-place change of a room that leaves state, timer and the owner's
    identity alone and keeps the roster well-formed. *)
Record static (r r' : Room) : Prop := {
  same_state : state r' = state r;
  same_timer : timer r' = timer r;
  same_owner_email : email (owner r') = email (owner r);
  keeps_roster : roster_ok r → roster_ok r'
}.

(** The kinds of change one handler makes to rooms and intervals. *)
Inductive Label : Type :=
| quiet
| roster (key : string)
| closed (key : string) (w : nat)
| opened (key : string) (w : nat) (userEmail : string) (quizData : JsVal)
| begun (key : string) (w : nat)
| ticked (key : string) (i : nat)
| expired (key : string) (i : nat).

Inductive core_step : Label → Server → Server → Prop :=
| cs_quiet s s' :
    same_core s s' → core_step quiet s s'
| cs_roster s s' key r r' :
    rooms s !! key = Some r → static r r' →
    same_core (store_room key r' s) s' →
    core_step (roster key) s s'
| cs_closed s s' key r :
    rooms s !! key = Some r →
    same_core (close_room key r s) s' →
    core_step (closed key (ws (owner r))) s s'
| cs_opened s s' key w userEmail quizData :
    rooms s !! key = None → code_ok key = true →
    str_truthy userEmail = true →
    same_core (store_room key (new_room w userEmail quizData) s) s' →
    core_step (opened key w userEmail quizData) s s'
| cs_begun s s' key r d :
    rooms s !! key = Some r →
    same_core (after_start key r d s) s' →
    core_step (begun key (ws (owner r))) s s'
| cs_ticked s s' key i r t :
    intervals s !! i = Some key → rooms s !! key = Some r → timer r = Some t →
    PrimFloat.leb (PrimFloat.sub (timeRemaining t) 1%float) 0%float = false →
    same_core (after_tick key r t s) s' →
    core_step (ticked key i) s s'
| cs_expired s s' key i r t :
    intervals s !! i = Some key → rooms s !! key = Some r → timer r = Some t →
    PrimFloat.leb (PrimFloat.sub (timeRemaining t) 1%float) 0%float = true →
    same_core (after_tick key r t s) s' →
    core_step (expired key i) s s'.

(** Which event a change can come from. *)
Definition explains (ev : Event) (l : Label) : Prop :=
  match l with
  | quiet | roster _ => True
  | closed _ w =>
      ev = close w ∨ ev = socket_error w ∨ ∃ data rnd, ev = inbound w data rnd
  | opened _ w userEmail quizData =>
      ∃ body rnd, ev = inbound w (parsed "create" body) rnd ∧
        required (b_userEmail body) = Some userEmail ∧
        b_quizData body = quizData
  | begun key w =>
      ∃ body rnd, ev = inbound w (parsed "startSession" body) rnd ∧
        key_of (b_roomCode body) = key
  | ticked _ i | expired _ i => ev = tick i
  end.

(** What the implicit leave of [create] and [join] can do, and what can
    follow it. *)
Definition leave_like (l : Label) : Prop :=
  match l with quiet | roster _ | closed _ _ => True | _ => False end.

Definition entry_like (l : Label) : Prop :=
  match l with quiet | roster _ | opened _ _ _ _ => True | _ => False end.

(** Changes that any request may make: tags, rosters, owner connection,
    scores. *)
Definition plain (l : Label) : Prop :=
  match l with quiet | roster _ => True | _ => False end.

(** ** Concrete runs *)

#[global] Instance valid_draw_dec n : Decision (valid_draw n).
Proof. unfold valid_draw. apply _. Defined.

#[global] Instance deliverable_dec s ev : Decision (deliverable s ev).
Proof. destruct ev; cbn [deliverable]; apply _. Defined.

(** Feeding a list of events to the server, each checked to be deliverable;
    [None] when one is not, or when a handler throws or hangs. *)
Fixpoint trace (evs : list Event) (s : Server) : option (Server * list Sent) :=
  match evs with
  | [] => Some (s, [])
  | ev :: evs' =>
      if decide (deliverable s ev) then
        match handle ev s with
        | Ok _ s' o =>
            match trace evs' s' with
            | Some (s'', o') => Some (s'', o ++ o')
            | None => None
            end
        | _ => None
        end
      else None
  end.

(** A request body with the four fields the examples use. *)
Definition request (roomCode userEmail : option string) (timerSeconds score : JsVal) : Body :=
  {| b_roomCode := roomCode; b_userEmail := userEmail;
     b_quizData := JUndefined; b_username := JUndefined;
     b_timerSeconds := timerSeconds; b_score := score |}.

Definition msg (w : nat) (action : string) (body : Body) : Event :=
  inbound w (parsed action body) [].

(** Connection 1 creates room "1000" as "owner@x". *)
Definition ex_create : list Event :=
  [ connection 1;
    inbound 1 (parsed "create" (request None (Some "owner@x") JUndefined JUndefined)) [1000%N] ].

(** Connection 1 owns the waiting room "1000" as "owner@x": the state
    [ex_create] leads to. *)
Definition ex_room : Room :=
  {| owner := {| ws := 1; email := "owner@x" |}; clients := [];
     quiz := JNull; state := waiting; timer := None; finished := None |}.

Definition ex_created : Server :=
  {| rooms := {[ "1000" := ex_room ]};
     conns := {[ 1 := {| room := Some "1000"; userEmail := Some "owner@x";
                         readyOpen := true |} ]};
     intervals := ∅; next_interval := 0 |}.

(** Connection 2 has connected while connection 1 owns room "1000". *)
Definition ex_connect2 : list Event := ex_create ++ [ connection 2 ].

Definition ex_connected2 : Server :=
  {| rooms := {[ "1000" := ex_room ]};
     conns := {[ 1 := {| room := Some "1000"; userEmail := Some "owner@x";
                         readyOpen := true |};
                 2 := {| room := None; userEmail := None; readyOpen := true |} ]};
     intervals := ∅; next_interval := 0 |}.

(** Connection 2 has joined room "1000" as "member@x". *)
Definition ex_join : list Event :=
  ex_create ++
  [ connection 2;
    inbound 2 (parsed "join" (request (Some "1000") (Some "member@x") JUndefined JUndefined)) [] ].

Definition ex_room2 : Room :=
  {| owner := {| ws := 1; email := "owner@x" |};
     clients := [{| ws := 2; email := "member@x" |}];
     quiz := JNull; state := waiting; timer := None; finished := None |}.

Definition ex_joined : Server :=
  {| rooms := {[ "1000" := ex_room2 ]};
     conns := {[ 1 := {| room := Some "1000"; userEmail := Some "owner@x";
                         readyOpen := true |};
                 2 := {| room := Some "1000"; userEmail := Some "member@x";
                         readyOpen := true |} ]};
     intervals := ∅; next_interval := 0 |}.

(** The owner has started a one-second session in room "1000". *)
Definition ex_start : list Event :=
  ex_join ++ [ msg 1 "startSession" (request (Some "1000") None (JNum 1%float) JUndefined) ].

Definition ex_started : Server := after_start "1000" ex_room2 1%float ex_joined.

Definition ex_timer : Timer := {| timeRemaining := 1%float; interval := 0 |}.

Definition ex_room3 : Room := set_timer (Some ex_timer) (set_state started ex_room2).

(** That session has run out. *)
Definition ex_end : list Event := ex_start ++ [ tick 0 ].

Definition ex_ended : Server := after_tick "1000" ex_room3 ex_timer ex_started.

(** ** Requests *)

(** The actions the [message] handler knows. *)
Definition known_actions : list string :=
  [ "create"; "join"; "startSession"; "reconnect"; "deleteRoom"; "leaveRoom";
    "finishQuiz"; "message" ].


(** The requests that act on the room the body names, without leaving the
    caller's previous room first. *)
Definition room_naming_actions : list string :=
  [ "startSession"; "reconnect"; "deleteRoom"; "finishQuiz" ].

(** ** More concrete runs *)

(** The session of room "1000" has run out and a third connection has
    arrived. *)
Definition ex_room4 : Room := set_state ended (set_timer None ex_room3).

Definition ex_end_3 : list Event := ex_end ++ [ connection 3 ].

Definition ex_ended_3 : Server :=
  with_conns (insert 3 {| room := None; userEmail := None; readyOpen := true |})
    ex_ended.

(** ** Countdown *)

(** The remaining time after [k] firings of the callback, which subtracts
    1 each time. *)
Definition count_down (k : nat) (d : number) : number :=
  Nat.iter k (λ x, PrimFloat.sub x 1%float) d.

(** The firing at which a countdown from [d] is over: the first at which
    the decremented remaining time is at most 0, found as the callback
    finds it; [None] when that takes more than [fuel] firings. *)
Fixpoint expiry (fuel : nat) (d : number) : option nat :=
  match fuel with
  | 0 => None
  | S fuel' =>
      let left := PrimFloat.sub d 1%float in
      if PrimFloat.leb left 0%float then Some 1 else S <$> expiry fuel' left
  end.

(** The number [n], for a whole number of seconds. *)
Definition seconds (n : nat) : number :=
  PrimFloat.of_uint63 (Uint63.of_Z (Z.of_nat n)).

(** One day, in seconds. *)
Definition one_day : nat := N.to_nat 86400.

(** What the countdown of a whole number of seconds relies on, checked for
    one value: subtracting 1 from [z + 1] gives [z], [z + 1] is positive,
    and the duration computed from [z + 1], and from [z + 1] and a half, is
    [z + 1]. *)
Definition whole_second_ok (z : Z) : bool :=
  let this := PrimFloat.of_uint63 (Uint63.of_Z z) in
  let next := PrimFloat.of_uint63 (Uint63.of_Z (z + 1)) in
  PrimFloat.Leibniz.eqb (PrimFloat.sub next 1%float) this
  && negb (PrimFloat.leb next 0%float)
  && PrimFloat.Leibniz.eqb (duration (JNum next)) next
  && PrimFloat.Leibniz.eqb (duration (JNum (PrimFloat.add next 0.5%float))) next.

(** The same for [fuel] consecutive values from [z]. *)
Fixpoint whole_seconds_ok (fuel : nat) (z : Z) : bool :=
  match fuel with
  | 0 => true
  | S fuel' => whole_second_ok z && whole_seconds_ok fuel' (z + 1)
  end.

(** ** Transmissions and open connections *)


(** ** What a room keeps *)

(** The scores recorded in a room; none before the first [finishQuiz]. *)
Definition scores (r : Room) : gmap string number := default ∅ (finished r).

(** Two versions of a room with the same quiz, the same owner identity and
    the same scores. *)
Definition same_identity (r r' : Room) : Prop :=
  quiz r' = quiz r ∧ email (owner r') = email (owner r) ∧
  finished r' = finished r.

(** * Properties *)

(** ** Running the monad *)

Lemma bind_Ok {A B : Type} (m : M A) (k : A → M B) s a s1 o1 :
  m s = Ok a s1 o1 →
  bind m k s =
    match k a s1 with
    | Ok b s2 o2 => Ok b s2 (o1 ++ o2)
    | Thrown o2 => Thrown (o1 ++ o2)
    | Hung o2 => Hung (o1 ++ o2)
    end.
Proof. intros H. unfold bind. now rewrite H. Qed.

Lemma bind_gets {A B : Type} (f : Server → A) (k : A → M B) s :
  bind (gets f) k s = k (f s) s.
Proof. unfold bind, gets. now destruct (k (f s) s). Qed.

Lemma bind_modify {B : Type} (f : Server → Server) (k : unit → M B) s :
  bind (modify f) k s = k tt (f s).
Proof. unfold bind, modify. now destruct (k tt (f s)). Qed.

Lemma safeSend_eq w m s : safeSend w m s = Ok tt s (reply s w m).
Proof.
  unfold safeSend, reply. rewrite bind_gets. now destruct (readyOpen (conn w s)).
Qed.

Lemma forEach_safeSend cs (f : Participant → Msg) s :
  forEach cs (λ c, safeSend (ws c) (f c)) s = Ok tt s (delivered_by s cs f).
Proof.
  unfold delivered_by. induction cs as [|c cs IH]; [reflexivity|].
  cbn [forEach]. rewrite (bind_Ok _ _ _ _ _ _ (safeSend_eq _ _ _)), IH.
  unfold reply. rewrite filter_cons. destruct (readyOpen (conn (ws c) s)) eqn:E.
  - rewrite decide_True by done. reflexivity.
  - rewrite decide_False by (intros ?; congruence). reflexivity.
Qed.

Lemma broadcast_eq cs m s : broadcast cs m s = Ok tt s (delivered s cs m).
Proof. apply forEach_safeSend. Qed.

Lemma bind_assoc {A B C : Type} (m : M A) (k : A → M B) (k' : B → M C) s :
  bind (bind m k) k' s = bind m (λ a, bind (k a) k') s.
Proof.
  unfold bind. destruct (m s) as [a s1 o1|o1|o1]; [|reflexivity..].
  destruct (k a s1) as [b s2 o2|o2|o2]; [|reflexivity..].
  destruct (k' b s2); now rewrite app_assoc.
Qed.

Lemma bind_ret_l {A B : Type} (a : A) (k : A → M B) s :
  bind (ret a) k s = k a s.
Proof. unfold bind, ret. now destruct (k a s). Qed.

Lemma bind_throw {A B : Type} (k : A → M B) s : bind throw k s = Thrown [].
Proof. reflexivity. Qed.

(** A loop whose body only transmits leaves the state alone and transmits
    the bodies' messages in order. *)
Lemma bind_setInterval {B : Type} key (k : nat → M B) s :
  bind (setInterval key) k s = k (next_interval s) (add_interval key s).
Proof. unfold bind, setInterval. now destruct (k _ _). Qed.

Lemma modify_eq f s : modify f s = Ok tt (f s) [].
Proof. reflexivity. Qed.

Lemma ret_eq {A : Type} (a : A) s : ret a s = Ok a s [].
Proof. reflexivity. Qed.

(** Symbolic execution of straight-line monadic code. *)
Ltac mstep :=
  first
    [ rewrite bind_assoc
    | rewrite bind_ret_l
    | rewrite bind_gets
    | rewrite bind_modify
    | rewrite bind_setInterval
    | rewrite bind_throw
    | rewrite (bind_Ok _ _ _ _ _ _ (safeSend_eq _ _ _))
    | rewrite (bind_Ok _ _ _ _ _ _ (forEach_safeSend _ _ _))
    | rewrite (bind_Ok _ _ _ _ _ _ (broadcast_eq _ _ _))
    | rewrite safeSend_eq
    | rewrite forEach_safeSend
    | rewrite broadcast_eq
    | rewrite modify_eq
    | rewrite ret_eq ].

Ltac mrun :=
  unfold put_room, delete_room_entry, clearInterval, set_ws_room,
    set_ws_userEmail, set_ws_ready;
  repeat first [mstep | progress cbv beta iota].

Ltac fields :=
  unfold store_room, drop_room, add_interval, drop_interval, tag_room,
    tag_userEmail, tag_ready, with_rooms, with_conns;
  cbn [rooms conns intervals next_interval].

(** ** Session duration (C2, C9) *)

Lemma duration_zero : duration (JNum 0%float) = 1%float.
Proof. reflexivity. Qed.

Lemma duration_minus_five : duration (JNum (-5)%float) = 1%float.
Proof. reflexivity. Qed.

Lemma duration_omitted : duration JUndefined = 60%float.
Proof. reflexivity. Qed.

Lemma duration_NaN : duration (JNum PrimFloat.nan) = PrimFloat.nan.
Proof. reflexivity. Qed.

(** The duration is the only thing [startSession] reads from
    [timerSeconds]. *)
Lemma on_startSession_duration w body v v' s :
  duration v = duration v' →
  on_startSession w (with_timerSeconds v body) s =
  on_startSession w (with_timerSeconds v' body) s.
Proof.
  intros Hd. unfold on_startSession. cbn [with_timerSeconds b_roomCode b_timerSeconds].
  now rewrite Hd.
Qed.

Lemma dispatch_startSession w body rnd :
  dispatch w "startSession" body rnd = on_startSession w body.
Proof. reflexivity. Qed.

(** C2 (as amended): with [timerSeconds] 0 or -5 the session runs for one
    second, exactly as with [timerSeconds] 1, while with [timerSeconds]
    omitted it runs for sixty, exactly as with [timerSeconds] 60; state,
    broadcasts and timer are otherwise the same function of the request. *)
Theorem C2_floor_one_default_sixty (w : nat) (body : Body) (rnd : list N) (s : Server) :
  let start v := handle (inbound w (parsed "startSession" (with_timerSeconds v body)) rnd) s in
  duration (JNum 0%float) = 1%float ∧
  duration (JNum (-5)%float) = 1%float ∧
  duration JUndefined = 60%float ∧
  start (JNum 0%float) = start (JNum 1%float) ∧
  start (JNum (-5)%float) = start (JNum 1%float) ∧
  start JUndefined = start (JNum 60%float).
Proof.
  cbn zeta. cbn [handle]. rewrite !dispatch_startSession.
  repeat split; try reflexivity; now apply on_startSession_duration.
Qed.

(** ** Concrete runs *)

Lemma trace_reachable evs : ∀ s s' out,
  reachable s → trace evs s = Some (s', out) → reachable s'.
Proof.
  induction evs as [|ev evs IH]; intros s s' out Hs Ht; cbn [trace] in Ht.
  - now inversion Ht; subst.
  - destruct (decide (deliverable s ev)) as [Hd|]; [|discriminate].
    destruct (handle ev s) as [[] s1 o1| |] eqn:Hh; [|discriminate..].
    destruct (trace evs s1) as [[s2 o2]|] eqn:Ht1; [|discriminate].
    inversion Ht; subst. eapply IH; [|exact Ht1].
    eapply reachable_step; eauto.
Qed.

Lemma float_neq (x y : number) :
  PrimFloat.eqb x x = true → PrimFloat.eqb x y = false → x ≠ y.
Proof. intros Hx Hxy ->. congruence. Qed.

(** C2 (counterexample): in the room that connection 1 has just created,
    its owner's [startSession] with [timerSeconds = 0] announces one second
    where the same request without [timerSeconds] announces sixty. *)
Lemma C2_zero_is_not_omitted :
  let start v :=
    handle (msg 1 "startSession" (request (Some "1000") None v JUndefined)) ex_created in
  transmitted (start (JNum 0%float)) = [(1, sessionStarted true JNull 1%float)] ∧
  transmitted (start JUndefined) = [(1, sessionStarted true JNull 60%float)] ∧
  start (JNum 0%float) ≠ start JUndefined.
Proof.
  cbn zeta. split; [vm_compute; reflexivity|]. split; [vm_compute; reflexivity|].
  intros H.
  apply (f_equal (λ r, (started_remaining ∘ snd) <$> transmitted r)) in H.
  vm_compute in H.
  assert (Hne : (1%float : number) ≠ 60%float) by (now apply float_neq).
  apply Hne. congruence.
Qed.

(** ** The timer callback *)

Lemma with_rooms_id s : with_rooms (λ m, m) s = s.
Proof. now destruct s. Qed.

Lemma set_timer_id r t : timer r = Some t → set_timer (Some t) r = r.
Proof. destruct r; cbn. now intros ->. Qed.

(** One firing of a live interval whose room has a timer: the decrement,
    the [timerTick] broadcast, and on expiry the end of the session. *)
Lemma tick_eq s i key r t :
  intervals s !! i = Some key →
  rooms s !! key = Some r →
  timer r = Some t →
  let left := PrimFloat.sub (timeRemaining t) 1%float in
  let everyone := owner r :: clients r in
  handle (tick i) s =
    if PrimFloat.leb left 0%float then
      Ok tt
        {| rooms := <[key := set_state ended (set_timer None r)]> (rooms s);
           conns := conns s;
           intervals := delete (interval t) (intervals s);
           next_interval := next_interval s |}
        (delivered s everyone (timerTick left) ++ delivered s everyone sessionEnded)
    else
      Ok tt
        (with_rooms (insert key
           (set_timer (Some {| timeRemaining := left; interval := interval t |}) r)) s)
        (delivered s everyone (timerTick left)).
Proof.
  intros Hi Hr Ht left everyone. cbn [handle]. rewrite bind_gets, Hi.
  unfold interval_callback. rewrite bind_gets. unfold rooms_get. rewrite Hr, Ht.
  fold left. unfold put_room at 1. rewrite bind_modify.
  rewrite (bind_Ok _ _ _ _ _ _ (broadcast_eq _ _ _)).
  destruct (PrimFloat.leb left 0%float).
  - mrun. fields. now rewrite insert_insert_eq.
  - mrun. now rewrite app_nil_r.
Qed.

(** A timer whose remaining time is [NaN] ticks without end: the state is
    left as it was and only [timerTick] goes out. *)
Lemma tick_NaN s i key r t :
  intervals s !! i = Some key →
  rooms s !! key = Some r →
  timer r = Some t →
  timeRemaining t = PrimFloat.nan →
  handle (tick i) s =
    Ok tt s (delivered s (owner r :: clients r) (timerTick PrimFloat.nan)).
Proof.
  intros Hi Hr Ht Hnan. rewrite (tick_eq s i key r t Hi Hr Ht). cbn zeta.
  rewrite Hnan.
  change (PrimFloat.sub PrimFloat.nan 1%float) with PrimFloat.nan.
  change (PrimFloat.leb PrimFloat.nan 0%float) with false. cbn match.
  f_equal. rewrite <- (with_rooms_id s) at 2. unfold with_rooms. f_equal.
  fields. apply insert_id. rewrite Hr. f_equal. symmetry.
  rewrite <- Hnan. destruct t; cbn. now apply set_timer_id.
Qed.

(** ** [startSession] by the owner's connection *)

Lemma on_startSession_owner s w body r :
  rooms s !! key_of (b_roomCode body) = Some r →
  ws (owner r) = w →
  on_startSession w body s =
    Ok tt (after_start (key_of (b_roomCode body)) r (duration (b_timerSeconds body)) s)
       (delivered_by s (owner r :: clients r)
          (sessionStarted_for r (duration (b_timerSeconds body)))).
Proof.
  intros Hr Hw. unfold on_startSession. rewrite bind_gets. unfold rooms_get.
  rewrite Hr. rewrite bool_decide_false by (intros ?; congruence).
  unfold after_start. destruct (timer r); mrun; fields;
    rewrite insert_insert_eq, ?app_nil_r; reflexivity.
Qed.

Lemma ex_created_trace :
  trace ex_create initial = Some (ex_created, [(1, created "1000" JNull)]).
Proof. vm_compute. reflexivity. Qed.

Lemma ex_created_reachable : reachable ex_created.
Proof. eapply trace_reachable; [apply reachable_initial|apply ex_created_trace]. Qed.

Lemma ex_joined_trace :
  trace ex_join initial =
    Some (ex_joined,
          [(1, created "1000" JNull); (2, joined "1000" JNull);
           (1, userJoined "member@x" JUndefined)]).
Proof. vm_compute. reflexivity. Qed.

Lemma ex_joined_reachable : reachable ex_joined.
Proof. eapply trace_reachable; [apply reachable_initial|apply ex_joined_trace]. Qed.

(** C9: when the owner's connection starts a session with
    [timerSeconds = NaN], the duration is [NaN]: every open participant is
    sent [sessionStarted] carrying [NaN], the room is [started] with a timer
    whose remaining time is [NaN], and however often the new interval fires,
    the server stays in that very state (so the room never becomes [ended])
    and transmits nothing but [timerTick] carrying [NaN] (so no
    [sessionEnded]). *)
Theorem C9_NaN_timer_never_expires (s : Server) (w : nat) (body : Body)
    (rnd : list N) (r : Room) :
  rooms s !! key_of (b_roomCode body) = Some r →
  ws (owner r) = w →
  b_timerSeconds body = JNum PrimFloat.nan →
  let key := key_of (b_roomCode body) in
  let i := next_interval s in
  let everyone := owner r :: clients r in
  let s' := after_start key r PrimFloat.nan s in
  duration (b_timerSeconds body) = PrimFloat.nan ∧
  handle (inbound w (parsed "startSession" body) rnd) s =
    Ok tt s' (delivered_by s everyone (sessionStarted_for r PrimFloat.nan)) ∧
  rooms s' !! key =
    Some (set_timer (Some {| timeRemaining := PrimFloat.nan; interval := i |})
                    (set_state started r)) ∧
  intervals s' !! i = Some key ∧
  ∀ n, trace (replicate n (tick i)) s' =
         Some (s', mjoin (replicate n (delivered s everyone (timerTick PrimFloat.nan)))).
Proof.
  intros Hr Hw Hts key i everyone s'.
  assert (Hroom : rooms s' !! key =
    Some (set_timer (Some {| timeRemaining := PrimFloat.nan; interval := i |})
                    (set_state started r))) by apply lookup_insert_eq.
  assert (Hlive : intervals s' !! i = Some key) by apply lookup_insert_eq.
  split; [now rewrite Hts|].
  split; [|split; [exact Hroom|split; [exact Hlive|]]].
  - cbn [handle]. rewrite dispatch_startSession.
    rewrite (on_startSession_owner s w body r Hr Hw), Hts. reflexivity.
  - induction n as [|n IH]; [reflexivity|].
    cbn [replicate trace]. rewrite decide_True by (cbn; eauto).
    rewrite (tick_NaN _ i key _ _ Hlive Hroom eq_refl eq_refl), IH.
    reflexivity.
Qed.

Lemma C9_NaN_timer_never_expires_witness :
  let body := request (Some "1000") None (JNum PrimFloat.nan) JUndefined in
  let s' := after_start "1000" ex_room PrimFloat.nan ex_created in
  handle (msg 1 "startSession" body) ex_created =
    Ok tt s' [(1, sessionStarted true JNull PrimFloat.nan)] ∧
  ∀ n, trace (replicate n (tick 0)) s' =
         Some (s', mjoin (replicate n [(1, timerTick PrimFloat.nan)])).
Proof.
  intros body s'.
  destruct (C9_NaN_timer_never_expires ex_created 1 body [] ex_room)
    as (_ & H1 & _ & _ & H2); [vm_compute; reflexivity|reflexivity..|].
  split; [exact H1|exact H2].
Defined.

(** ** [leaveRoom] *)

Lemma conn_tag_room w w' v s :
  conn w (tag_room w' v s) =
    if decide (w' = w)
    then {| room := v; userEmail := userEmail (conn w s);
            readyOpen := readyOpen (conn w s) |}
    else conn w s.
Proof.
  unfold conn, tag_room, with_conns; cbn [conns].
  rewrite lookup_insert. destruct (decide (w' = w)); subst; reflexivity.
Qed.

Lemma conn_tag_userEmail w w' v s :
  conn w (tag_userEmail w' v s) =
    if decide (w' = w)
    then {| room := room (conn w s); userEmail := v;
            readyOpen := readyOpen (conn w s) |}
    else conn w s.
Proof.
  unfold conn, tag_userEmail, with_conns; cbn [conns].
  rewrite lookup_insert. destruct (decide (w' = w)); subst; reflexivity.
Qed.

Lemma ready_tag_room w w' v s :
  readyOpen (conn w (tag_room w' v s)) = readyOpen (conn w s).
Proof. rewrite conn_tag_room. now destruct (decide (w' = w)). Qed.

Lemma ready_tag_userEmail w w' v s :
  readyOpen (conn w (tag_userEmail w' v s)) = readyOpen (conn w s).
Proof. rewrite conn_tag_userEmail. now destruct (decide (w' = w)). Qed.

Lemma ready_store_room w key r s :
  readyOpen (conn w (store_room key r s)) = readyOpen (conn w s).
Proof. reflexivity. Qed.

Lemma ready_drop_room w key s :
  readyOpen (conn w (drop_room key s)) = readyOpen (conn w s).
Proof. reflexivity. Qed.

Lemma ready_drop_interval w i s :
  readyOpen (conn w (drop_interval i s)) = readyOpen (conn w s).
Proof. reflexivity. Qed.

Lemma ready_add_interval w key s :
  readyOpen (conn w (add_interval key s)) = readyOpen (conn w s).
Proof. reflexivity. Qed.

Lemma rooms_get_tag_room key w v s :
  rooms_get key (tag_room w v s) = rooms_get key s.
Proof. reflexivity. Qed.

Lemma rooms_get_tag_userEmail key w v s :
  rooms_get key (tag_userEmail w v s) = rooms_get key s.
Proof. reflexivity. Qed.

Lemma reply_tag_room w w' v s m : reply (tag_room w' v s) w m = reply s w m.
Proof. unfold reply. now rewrite ready_tag_room. Qed.

Lemma reply_tag_userEmail w w' v s m :
  reply (tag_userEmail w' v s) w m = reply s w m.
Proof. unfold reply. now rewrite ready_tag_userEmail. Qed.

Lemma reply_store_room w key r s m : reply (store_room key r s) w m = reply s w m.
Proof. reflexivity. Qed.

Lemma reply_drop_room w key s m : reply (drop_room key s) w m = reply s w m.
Proof. reflexivity. Qed.

Lemma reply_drop_interval w i s m : reply (drop_interval i s) w m = reply s w m.
Proof. reflexivity. Qed.

Lemma delivered_by_tag_userEmail w v s cs f :
  delivered_by (tag_userEmail w v s) cs f = delivered_by s cs f.
Proof.
  unfold delivered_by. f_equal. apply list_filter_iff. intros c.
  now rewrite ready_tag_userEmail.
Qed.

Lemma delivered_by_store_room key r s cs f :
  delivered_by (store_room key r s) cs f = delivered_by s cs f.
Proof. reflexivity. Qed.

Lemma delivered_by_tag_room w v s cs f :
  delivered_by (tag_room w v s) cs f = delivered_by s cs f.
Proof.
  unfold delivered_by. f_equal. apply list_filter_iff. intros c.
  now rewrite ready_tag_room.
Qed.

Create Rewrite HintDb ready.
#[global] Hint Rewrite ready_tag_room ready_tag_userEmail ready_store_room
  ready_drop_room ready_drop_interval ready_add_interval
  rooms_get_tag_room rooms_get_tag_userEmail
  reply_tag_room reply_tag_userEmail reply_store_room reply_drop_room
  reply_drop_interval delivered_by_tag_room delivered_by_tag_userEmail
  delivered_by_store_room : ready.

(** Readiness and room lookups do not depend on tags and table updates. *)
Ltac ready := autorewrite with ready in *.

Lemma leave_loop cs : ∀ s,
  forEach cs (λ client,
    safeSend (ws client) roomClosed ;;; set_ws_room (ws client) None) s =
  Ok tt (clear_tags cs s) (delivered s cs roomClosed).
Proof.
  induction cs as [|c cs IH]; intros s; [reflexivity|].
  cbn [forEach clear_tags foldl]. rewrite bind_assoc.
  rewrite (bind_Ok _ _ _ _ _ _ (safeSend_eq _ _ _)).
  unfold set_ws_room at 1. rewrite bind_modify. fold (clear_tags cs (tag_room (ws c) None s)).
  rewrite IH. unfold delivered. rewrite delivered_by_tag_room.
  unfold delivered_by, reply. rewrite filter_cons.
  destruct (readyOpen (conn (ws c) s)) eqn:E.
  - rewrite decide_True by done. reflexivity.
  - rewrite decide_False by (intros ?; congruence). reflexivity.
Qed.

Lemma stop_timer_eq {B : Type} key r (k : unit → M B) s :
  bind (stop_timer key r) k s =
    k tt (match timer r with
          | Some t => store_room key (set_timer None r) (drop_interval (interval t) s)
          | None => s
          end).
Proof. unfold stop_timer. destruct (timer r); mrun; reflexivity. Qed.

Lemma leaveRoom_none w s :
  required (room (conn w s)) = None → leaveRoom w s = Ok tt s [].
Proof. intros H. unfold leaveRoom. rewrite bind_gets, H. reflexivity. Qed.

Lemma leaveRoom_missing w s key :
  required (room (conn w s)) = Some key →
  rooms_get key s = Missing →
  leaveRoom w s = Ok tt (tag_room w None s) [].
Proof.
  intros H Hk. unfold leaveRoom. rewrite bind_gets, H, bind_gets, Hk. reflexivity.
Qed.

Lemma leaveRoom_inherited w s key :
  required (room (conn w s)) = Some key →
  rooms_get key s = Inherited →
  leaveRoom w s = Thrown [].
Proof.
  intros H Hk. unfold leaveRoom. rewrite bind_gets, H, bind_gets, Hk. reflexivity.
Qed.

Lemma rooms_get_Own key s r : rooms s !! key = Some r → rooms_get key s = Own r.
Proof. unfold rooms_get. now intros ->. Qed.

Lemma leaveRoom_member w s key r :
  required (room (conn w s)) = Some key →
  rooms s !! key = Some r →
  ws (owner r) ≠ w →
  leaveRoom w s =
    Ok tt (untag w (store_room key (set_clients (without w (clients r)) r) s)) [].
Proof.
  intros H Hk Hw. unfold leaveRoom.
  rewrite bind_gets, H, bind_gets, (rooms_get_Own _ _ _ Hk).
  rewrite bool_decide_false by done. mrun. reflexivity.
Qed.

Lemma leaveRoom_owner w s key r :
  required (room (conn w s)) = Some key →
  rooms s !! key = Some r →
  ws (owner r) = w →
  leaveRoom w s =
    Ok tt (untag w (close_room key r (clear_tags (clients r) s)))
       (delivered s (clients r) roomClosed).
Proof.
  intros H Hk Hw. unfold leaveRoom.
  rewrite bind_gets, H, bind_gets, (rooms_get_Own _ _ _ Hk).
  rewrite bool_decide_true by done. rewrite !bind_assoc.
  rewrite (bind_Ok _ _ _ _ _ _ (leave_loop _ _)). rewrite bind_assoc.
  rewrite stop_timer_eq. mrun. rewrite app_nil_r. reflexivity.
Qed.

(** What [leaveRoom] can have done when it returns. *)
Lemma leaveRoom_cases w s s1 o :
  leaveRoom w s = Ok tt s1 o →
  (required (room (conn w s)) = None ∧ s1 = s ∧ o = []) ∨
  (∃ key, required (room (conn w s)) = Some key ∧
     rooms_get key s = Missing ∧ s1 = tag_room w None s ∧ o = []) ∨
  (∃ key r, required (room (conn w s)) = Some key ∧
     rooms s !! key = Some r ∧ ws (owner r) ≠ w ∧
     s1 = untag w (store_room key (set_clients (without w (clients r)) r) s) ∧
     o = []) ∨
  (∃ key r, required (room (conn w s)) = Some key ∧
     rooms s !! key = Some r ∧ ws (owner r) = w ∧
     s1 = untag w (close_room key r (clear_tags (clients r) s)) ∧
     o = delivered s (clients r) roomClosed).
Proof.
  intros H. destruct (required (room (conn w s))) as [key|] eqn:Hreq.
  - destruct (rooms s !! key) as [r|] eqn:Hk.
    + destruct (decide (ws (owner r) = w)) as [Hw|Hw].
      * rewrite (leaveRoom_owner _ _ _ _ Hreq Hk Hw) in H. inversion H; subst.
        right; right; right. eauto 10.
      * rewrite (leaveRoom_member _ _ _ _ Hreq Hk Hw) in H. inversion H; subst.
        right; right; left. eauto 10.
    + destruct (inherited key) eqn:Hi.
      * rewrite (leaveRoom_inherited _ _ key Hreq) in H; [discriminate|].
        unfold rooms_get. now rewrite Hk, Hi.
      * assert (Hm : rooms_get key s = Missing)
          by (unfold rooms_get; now rewrite Hk, Hi).
        rewrite (leaveRoom_missing _ _ _ Hreq Hm) in H. inversion H; subst.
        right; left. eauto.
  - rewrite (leaveRoom_none _ _ Hreq) in H. inversion H; subst. now left.
Qed.

(** ** [create] and the room code (C8) *)

Lemma all_codes_ok :
  forallb (λ k, code_ok (toString (1000 + N.of_nat k))) (seq 0 (N.to_nat 9000)) = true.
Proof. vm_compute. reflexivity. Qed.

Lemma valid_draw_code_ok n : valid_draw n → code_ok (toString n) = true.
Proof.
  intros [Hlo Hhi].
  pose proof (proj1 (forallb_forall _ _) all_codes_ok (N.to_nat (n - 1000))) as H.
  cbv beta in H. replace (1000 + N.of_nat (N.to_nat (n - 1000)))%N with n in H by lia.
  apply H. apply in_seq. lia.
Qed.

Lemma code_ok_four_digits key : code_ok key = true → four_digits key = true.
Proof. unfold code_ok. rewrite !andb_true_iff. tauto. Qed.

Lemma code_ok_not_inherited key : code_ok key = true → inherited key = false.
Proof. unfold code_ok. rewrite !andb_true_iff, !negb_true_iff. tauto. Qed.

Lemma code_ok_truthy key : code_ok key = true → str_truthy key = true.
Proof. unfold code_ok. rewrite !andb_true_iff. tauto. Qed.

Lemma code_ok_required key : code_ok key = true → required (Some key) = Some key.
Proof. intros H. cbn. now rewrite (code_ok_truthy _ H). Qed.

(** The generation loop returns a code only if a draw gave it and the table
    held nothing under it, and changes nothing. *)
Lemma gen_roomCode_Ok rnd s c s' o :
  gen_roomCode rnd s = Ok c s' o →
  s' = s ∧ o = [] ∧ rooms_get c s = Missing ∧ ∃ n, n ∈ rnd ∧ c = toString n.
Proof.
  induction rnd as [|n rnd IH]; cbn [gen_roomCode]; [discriminate|].
  rewrite bind_gets. destruct (rooms_get (toString n) s) eqn:Hg.
  - intros H. destruct (IH H) as (-> & -> & ? & m & ? & ->).
    repeat split; try done. exists m. split; [now right|done].
  - intros H. destruct (IH H) as (-> & -> & ? & m & ? & ->).
    repeat split; try done. exists m. split; [now right|done].
  - intros H. inversion H; subst. repeat split; try done.
    exists n. split; [now left|done].
Qed.

(** The loop returns as soon as one draw is free. *)
Lemma gen_roomCode_returns rnd s n :
  n ∈ rnd → rooms_get (toString n) s = Missing →
  ∃ c, gen_roomCode rnd s = Ok c s [].
Proof.
  induction rnd as [|m rnd IH]; intros Hin Hfree; [by apply elem_of_nil in Hin|].
  cbn [gen_roomCode]. rewrite bind_gets.
  destruct (rooms_get (toString m) s) eqn:Hg; try (now eexists).
  all: apply elem_of_cons in Hin as [->|Hin]; [congruence|now apply IH].
Qed.

Lemma rooms_get_Missing key s : rooms_get key s = Missing → rooms s !! key = None.
Proof. unfold rooms_get. destruct (rooms s !! key); [discriminate|done]. Qed.

Lemma dispatch_create w body rnd :
  dispatch w "create" body rnd = on_create w body rnd.
Proof. reflexivity. Qed.

(** A handler that starts with [leaveRoom(ws)] continues from the state the
    leave left, after whatever the leave transmitted. *)
Lemma after_leave_Ok (k : M unit) w s s' out :
  bind (leaveRoom w) (λ _, k) s = Ok tt s' out →
  ∃ s1 out1 out2, leaveRoom w s = Ok tt s1 out1 ∧ k s1 = Ok tt s' out2 ∧
    out = out1 ++ out2.
Proof.
  unfold bind. destruct (leaveRoom w s) as [[] s1 out1| |]; [|discriminate..].
  destruct (k s1) as [[] s2 out2| |] eqn:Hk; [|discriminate..].
  intros H; inversion H; subst. exists s1, out1, out2. done.
Qed.

Lemma create_body_refused w body rnd s :
  required (b_userEmail body) = None →
  create_body w body rnd s =
    Ok tt s (reply s w (error "userEmail required to create room")).
Proof. intros H. unfold create_body. rewrite H. apply safeSend_eq. Qed.

Lemma create_body_Ok w body rnd userEmail s s' out :
  required (b_userEmail body) = Some userEmail →
  create_body w body rnd s = Ok tt s' out →
  ∃ n, n ∈ rnd ∧ rooms_get (toString n) s = Missing ∧
    s' = after_create w userEmail (toString n) (b_quizData body) s ∧
    out = reply s w (created (toString n) (or_null (b_quizData body))).
Proof.
  intros He. unfold create_body. rewrite He. mrun.
  destruct (gen_roomCode rnd (tag_userEmail w (Some userEmail) s))
    as [c s2 o2| |] eqn:Hg; [|unfold bind; rewrite Hg; discriminate..].
  rewrite (bind_Ok _ _ _ _ _ _ Hg). mrun.
  destruct (gen_roomCode_Ok _ _ _ _ _ Hg) as (-> & -> & Hm & n & Hn & ->).
  ready. intros H. inversion H; subst. exists n. repeat split; done.
Qed.

(** C8: a create call that succeeds (the caller gave an identity and the
    handler returned) answers with a room code of exactly four decimal
    digits under which no room was stored when the code was generated, that
    is, after the caller's implicit leave; the new room is stored under
    that code and every other room keeps its own, different code.  The
    draws are values of [Math.floor(1000 + Math.random() * 9000)]. *)
Theorem C8_room_code_four_digits_and_fresh (s : Server) (w : nat) (body : Body)
    (rnd : list N) (userEmail : string) (s' : Server) (out : list Sent) :
  Forall valid_draw rnd →
  required (b_userEmail body) = Some userEmail →
  handle (inbound w (parsed "create" body) rnd) s = Ok tt s' out →
  ∃ s1 out1 roomCode,
    leaveRoom w s = Ok tt s1 out1 ∧
    four_digits roomCode = true ∧
    rooms s1 !! roomCode = None ∧
    rooms s' = <[roomCode := new_room w userEmail (b_quizData body)]> (rooms s1) ∧
    (∀ key r, rooms s' !! key = Some r → key ≠ roomCode → rooms s1 !! key = Some r) ∧
    room (conn w s') = Some roomCode ∧
    out = out1 ++ reply s1 w (created roomCode (or_null (b_quizData body))).
Proof.
  intros Hrnd Hemail H. cbn [handle] in H. rewrite dispatch_create in H.
  destruct (after_leave_Ok _ _ _ _ _ H) as (s1 & out1 & out2 & Hl & Hb & ->).
  destruct (create_body_Ok _ _ _ _ _ _ _ Hemail Hb) as (n & Hn & Hm & -> & ->).
  exists s1, out1, (toString n). split; [done|].
  assert (Hv : valid_draw n) by (rewrite Forall_forall in Hrnd; auto).
  split; [apply code_ok_four_digits, valid_draw_code_ok, Hv|].
  split; [now apply rooms_get_Missing|].
  split; [reflexivity|]. split.
  - intros key r Hr Hne. unfold after_create in Hr. revert Hr. fields.
    now rewrite lookup_insert_ne.
  - split; [|reflexivity]. unfold after_create, store_room, with_rooms, conn.
    cbn [conns]. unfold tag_room, with_conns. cbn [conns].
    now rewrite lookup_insert_eq.
Qed.

Lemma C8_room_code_four_digits_and_fresh_witness :
  let s' := after_create 2 "b@x" "1001" JUndefined
              (untag 2 (store_room "1000" ex_room ex_joined)) in
  ∃ s1 out1 roomCode,
    leaveRoom 2 ex_joined = Ok tt s1 out1 ∧
    four_digits roomCode = true ∧
    rooms s1 !! roomCode = None ∧
    rooms s' = <[roomCode := new_room 2 "b@x" JUndefined]> (rooms s1) ∧
    (∀ key r, rooms s' !! key = Some r → key ≠ roomCode → rooms s1 !! key = Some r) ∧
    room (conn 2 s') = Some roomCode ∧
    [(2, created "1001" JNull)] =
      out1 ++ reply s1 2 (created roomCode (or_null JUndefined)).
Proof.
  apply (C8_room_code_four_digits_and_fresh ex_joined 2
           (request None (Some "b@x") JUndefined JUndefined) [1000%N; 1001%N] "b@x").
  - repeat constructor; vm_compute; congruence.
  - reflexivity.
  - vm_compute. reflexivity.
Defined.

(** ** The actions, branch by branch *)

Lemma forEach_others w m l s :
  forEach l (λ client,
    if bool_decide (ws client ≠ w) then safeSend (ws client) m else ret tt) s =
  Ok tt s (delivered s (without w l) m).
Proof.
  induction l as [|c l IH]; [reflexivity|]. cbn [forEach].
  unfold without. rewrite filter_cons. fold (without w l).
  destruct (decide (ws c ≠ w)) as [Hc|Hc].
  - rewrite bool_decide_true by done.
    rewrite (bind_Ok _ _ _ _ _ _ (safeSend_eq _ _ _)), IH.
    unfold delivered, delivered_by, reply. rewrite filter_cons.
    destruct (readyOpen (conn (ws c) s)) eqn:E.
    + rewrite decide_True by done. reflexivity.
    + rewrite decide_False by (intros ?; congruence). reflexivity.
  - rewrite bool_decide_false by done. rewrite bind_ret_l. apply IH.
Qed.

(** *** join *)

Lemma join_body_required w body s :
  required (b_roomCode body) = None ∨ required (b_userEmail body) = None →
  join_body w body s =
    Ok tt s (reply s w (error "roomCode and userEmail required to join")).
Proof.
  intros H. unfold join_body.
  destruct (required (b_roomCode body)), (required (b_userEmail body));
    try apply safeSend_eq; now destruct H.
Qed.

Lemma join_body_absent w body s key userEmail :
  required (b_roomCode body) = Some key →
  required (b_userEmail body) = Some userEmail →
  rooms_get key s = Missing →
  join_body w body s = Ok tt s (reply s w (error "Room does not exist")).
Proof.
  intros Hk He Hm. unfold join_body. rewrite Hk, He, bind_gets, Hm.
  apply safeSend_eq.
Qed.

Lemma join_body_inherited w body s key userEmail :
  required (b_roomCode body) = Some key →
  required (b_userEmail body) = Some userEmail →
  rooms_get key s = Inherited →
  join_body w body s = Thrown [].
Proof.
  intros Hk He Hm. unfold join_body. rewrite Hk, He, bind_gets, Hm.
  mrun. reflexivity.
Qed.

Lemma join_body_started w body s key userEmail r :
  required (b_roomCode body) = Some key →
  required (b_userEmail body) = Some userEmail →
  rooms s !! key = Some r →
  state r = started →
  join_body w body s =
    Ok tt s (reply s w (error "Session already started, cannot join")).
Proof.
  intros Hk He Hr Hst. unfold join_body.
  rewrite Hk, He, bind_gets, (rooms_get_Own _ _ _ Hr).
  rewrite bool_decide_true by done. apply safeSend_eq.
Qed.

Lemma join_body_joins w body s key userEmail r :
  required (b_roomCode body) = Some key →
  required (b_userEmail body) = Some userEmail →
  rooms s !! key = Some r →
  state r ≠ started →
  join_body w body s =
    Ok tt (after_join w userEmail key r s)
       (reply s w (joined key (quiz r)) ++
        delivered s (without w (owner r :: rebind_or_push w userEmail (clients r)))
          (userJoined userEmail (b_username body))).
Proof.
  intros Hk He Hr Hst. unfold join_body.
  rewrite Hk, He, bind_gets, (rooms_get_Own _ _ _ Hr).
  rewrite bool_decide_false by done. cbv zeta. mrun.
  rewrite forEach_others. cbv iota. ready. unfold delivered. ready.
  reflexivity.
Qed.

(** *** startSession *)

Lemma on_startSession_absent w body s :
  rooms_get (key_of (b_roomCode body)) s = Missing →
  on_startSession w body s = Ok tt s (reply s w (error "Room does not exist")).
Proof.
  intros Hm. unfold on_startSession. cbv zeta. rewrite bind_gets, Hm.
  apply safeSend_eq.
Qed.

Lemma on_startSession_inherited w body s :
  rooms_get (key_of (b_roomCode body)) s = Inherited →
  on_startSession w body s =
    Ok tt s (reply s w (error "Only the owner can start the session")).
Proof.
  intros Hm. unfold on_startSession. cbv zeta. rewrite bind_gets, Hm.
  apply safeSend_eq.
Qed.

Lemma on_startSession_not_owner w body s r :
  rooms s !! key_of (b_roomCode body) = Some r →
  ws (owner r) ≠ w →
  on_startSession w body s =
    Ok tt s (reply s w (error "Only the owner can start the session")).
Proof.
  intros Hr Hw. unfold on_startSession. cbv zeta.
  rewrite bind_gets, (rooms_get_Own _ _ _ Hr).
  rewrite bool_decide_true by done. apply safeSend_eq.
Qed.

(** *** reconnect *)

Lemma on_reconnect_required w body s :
  required (b_roomCode body) = None ∨ required (b_userEmail body) = None →
  on_reconnect w body s =
    Ok tt s (reply s w (error "roomCode and userEmail required to reconnect")).
Proof.
  intros H. unfold on_reconnect.
  destruct (required (b_roomCode body)), (required (b_userEmail body));
    try apply safeSend_eq; now destruct H.
Qed.

Lemma on_reconnect_absent w body s key userEmail :
  required (b_roomCode body) = Some key →
  required (b_userEmail body) = Some userEmail →
  rooms_get key s = Missing →
  on_reconnect w body s = Ok tt s (reply s w (error "Room does not exist")).
Proof.
  intros Hk He Hm. unfold on_reconnect. rewrite Hk, He, bind_gets, Hm.
  apply safeSend_eq.
Qed.

Lemma on_reconnect_inherited w body s key userEmail :
  required (b_roomCode body) = Some key →
  required (b_userEmail body) = Some userEmail →
  rooms_get key s = Inherited →
  on_reconnect w body s = Thrown [].
Proof.
  intros Hk He Hm. unfold on_reconnect. rewrite Hk, He, bind_gets, Hm.
  mrun. reflexivity.
Qed.

Lemma on_reconnect_ended w body s key userEmail r :
  required (b_roomCode body) = Some key →
  required (b_userEmail body) = Some userEmail →
  rooms s !! key = Some r →
  state r = ended →
  on_reconnect w body s = Ok tt s (reply s w (error "Room already ended")).
Proof.
  intros Hk He Hr Hst. unfold on_reconnect.
  rewrite Hk, He, bind_gets, (rooms_get_Own _ _ _ Hr).
  rewrite bool_decide_true by done. apply safeSend_eq.
Qed.

Lemma on_reconnect_owner w body s key userEmail r :
  required (b_roomCode body) = Some key →
  required (b_userEmail body) = Some userEmail →
  rooms s !! key = Some r →
  state r ≠ ended →
  email (owner r) = userEmail →
  on_reconnect w body s =
    Ok tt (after_reconnect_owner w userEmail key r s)
       (reply s w (reconnected (quiz r) role_owner (state r) (remaining_or_null r))).
Proof.
  intros Hk He Hr Hst Ho. unfold on_reconnect.
  rewrite Hk, He, bind_gets, (rooms_get_Own _ _ _ Hr).
  rewrite bool_decide_false by done.
  rewrite (proj2 (String.eqb_eq _ _) Ho). mrun. ready. rewrite ?app_nil_r.
  reflexivity.
Qed.

Lemma on_reconnect_client w body s key userEmail r :
  required (b_roomCode body) = Some key →
  required (b_userEmail body) = Some userEmail →
  rooms s !! key = Some r →
  state r ≠ ended →
  email (owner r) ≠ userEmail →
  on_reconnect w body s =
    Ok tt (after_join w userEmail key r s)
       (reply s w (reconnected (quiz r) role_client (state r) (remaining_or_null r))).
Proof.
  intros Hk He Hr Hst Ho. unfold on_reconnect.
  rewrite Hk, He, bind_gets, (rooms_get_Own _ _ _ Hr).
  rewrite bool_decide_false by done.
  rewrite (proj2 (String.eqb_neq _ _) Ho). mrun. ready. rewrite ?app_nil_r.
  reflexivity.
Qed.

(** *** deleteRoom *)

Lemma on_deleteRoom_required w body s :
  required (b_roomCode body) = None →
  on_deleteRoom w body s =
    Ok tt s (reply s w (error "roomCode required to delete room")).
Proof. intros H. unfold on_deleteRoom. rewrite H. apply safeSend_eq. Qed.

Lemma on_deleteRoom_absent w body s key :
  required (b_roomCode body) = Some key →
  rooms_get key s = Missing →
  on_deleteRoom w body s = Ok tt s (reply s w (error "Room does not exist")).
Proof.
  intros Hk Hm. unfold on_deleteRoom. rewrite Hk, bind_gets, Hm.
  apply safeSend_eq.
Qed.

Lemma on_deleteRoom_inherited w body s key :
  required (b_roomCode body) = Some key →
  rooms_get key s = Inherited →
  on_deleteRoom w body s = Thrown [].
Proof.
  intros Hk Hm. unfold on_deleteRoom. rewrite Hk, bind_gets, Hm. reflexivity.
Qed.

Lemma on_deleteRoom_not_owner w body s key r :
  required (b_roomCode body) = Some key →
  rooms s !! key = Some r →
  ws (owner r) ≠ w →
  on_deleteRoom w body s =
    Ok tt s (reply s w (error "Only the owner can delete the room")).
Proof.
  intros Hk Hr Hw. unfold on_deleteRoom.
  rewrite Hk, bind_gets, (rooms_get_Own _ _ _ Hr).
  rewrite bool_decide_true by done. apply safeSend_eq.
Qed.

Lemma deleteRoom_Own key r s :
  rooms s !! key = Some r → deleteRoom key s = Ok tt (close_room key r s) [].
Proof.
  intros Hr. unfold deleteRoom. rewrite bind_gets, (rooms_get_Own _ _ _ Hr).
  rewrite stop_timer_eq. reflexivity.
Qed.

Lemma on_deleteRoom_owner w body s key r :
  required (b_roomCode body) = Some key →
  rooms s !! key = Some r →
  ws (owner r) = w →
  on_deleteRoom w body s =
    Ok tt (close_room key r s)
       (delivered_by s (owner r :: clients r) (roomDeleted_for key r)).
Proof.
  intros Hk Hr Hw. unfold on_deleteRoom.
  rewrite Hk, bind_gets, (rooms_get_Own _ _ _ Hr).
  rewrite bool_decide_false by (intros ?; congruence).
  rewrite (bind_Ok _ _ _ _ _ _ (forEach_safeSend _ (roomDeleted_for key r) _)).
  rewrite (deleteRoom_Own _ _ _ Hr), ?app_nil_r. reflexivity.
Qed.

(** *** leaveRoom (the request) *)

Lemma on_leaveRoom_untagged w s :
  required (room (conn w s)) = None →
  on_leaveRoom w s = Ok tt s (reply s w (error "You are not in a room")).
Proof.
  intros H. unfold on_leaveRoom. rewrite bind_gets, H. apply safeSend_eq.
Qed.

Lemma on_leaveRoom_gone w s key :
  required (room (conn w s)) = Some key →
  rooms_get key s = Missing →
  on_leaveRoom w s =
    Ok tt (tag_room w None s) (reply s w (error "Room no longer exists")).
Proof.
  intros H Hm. unfold on_leaveRoom. rewrite bind_gets, H, bind_gets, Hm.
  mrun. ready. reflexivity.
Qed.

Lemma on_leaveRoom_inherited w s key :
  required (room (conn w s)) = Some key →
  rooms_get key s = Inherited →
  on_leaveRoom w s = Thrown [].
Proof.
  intros H Hm. unfold on_leaveRoom. rewrite bind_gets, H, bind_gets, Hm.
  reflexivity.
Qed.

Lemma on_leaveRoom_owner w s key r :
  required (room (conn w s)) = Some key →
  rooms s !! key = Some r →
  ws (owner r) = w →
  on_leaveRoom w s =
    Ok tt s (reply s w (error "Owner cannot leave. Use deleteRoom instead.")).
Proof.
  intros H Hr Hw. unfold on_leaveRoom.
  rewrite bind_gets, H, bind_gets, (rooms_get_Own _ _ _ Hr).
  rewrite bool_decide_true by done. apply safeSend_eq.
Qed.

Lemma on_leaveRoom_member w s key r :
  required (room (conn w s)) = Some key →
  rooms s !! key = Some r →
  ws (owner r) ≠ w →
  on_leaveRoom w s =
    Ok tt (after_leave w key r s)
       (delivered s (owner r :: without w (clients r)) (userLeft (without w (clients r)))
        ++ reply s w (leftRoom key)).
Proof.
  intros H Hr Hw. unfold on_leaveRoom.
  rewrite bind_gets, H, bind_gets, (rooms_get_Own _ _ _ Hr).
  rewrite bool_decide_false by done. cbv zeta. fold (without w (clients r)).
  mrun. ready. rewrite ?app_nil_r. reflexivity.
Qed.

(** *** finishQuiz *)

Lemma on_finishQuiz_required w body s :
  required (b_roomCode body) = None ∨ required (b_userEmail body) = None ∨
  is_number (b_score body) = false →
  on_finishQuiz w body s =
    Ok tt s (reply s w (error "roomCode, userEmail, and numeric score required")).
Proof.
  intros H. unfold on_finishQuiz.
  destruct (required (b_roomCode body)), (required (b_userEmail body)),
    (b_score body); try apply safeSend_eq.
  exfalso. cbn in H. destruct H as [H|[H|H]]; discriminate.
Qed.

Lemma on_finishQuiz_absent w body s key userEmail score :
  required (b_roomCode body) = Some key →
  required (b_userEmail body) = Some userEmail →
  b_score body = JNum score →
  rooms_get key s = Missing →
  on_finishQuiz w body s = Ok tt s (reply s w (error "Room does not exist")).
Proof.
  intros Hk He Hs Hm. unfold on_finishQuiz. rewrite Hk, He, Hs, bind_gets, Hm.
  apply safeSend_eq.
Qed.

Lemma on_finishQuiz_inherited w body s key userEmail score :
  required (b_roomCode body) = Some key →
  required (b_userEmail body) = Some userEmail →
  b_score body = JNum score →
  rooms_get key s = Inherited →
  on_finishQuiz w body s = Thrown [].
Proof.
  intros Hk He Hs Hm. unfold on_finishQuiz. rewrite Hk, He, Hs, bind_gets, Hm.
  reflexivity.
Qed.

Lemma on_finishQuiz_records w body s key userEmail score r :
  required (b_roomCode body) = Some key →
  required (b_userEmail body) = Some userEmail →
  b_score body = JNum score →
  rooms s !! key = Some r →
  on_finishQuiz w body s =
    Ok tt (after_finish key userEmail score r s)
       (reply s (ws (owner r)) (userFinished userEmail score (remaining_or_zero r))).
Proof.
  intros Hk He Hs Hr. unfold on_finishQuiz.
  rewrite Hk, He, Hs, bind_gets, (rooms_get_Own _ _ _ Hr).
  mrun. ready. reflexivity.
Qed.

(** *** message *)

Lemma on_message_untagged w body s :
  required (room (conn w s)) = None →
  on_message w body s = Ok tt s (reply s w (error "You are not in a room")).
Proof.
  intros H. unfold on_message. rewrite bind_gets, H. apply safeSend_eq.
Qed.

Lemma on_message_gone w body s key :
  required (room (conn w s)) = Some key →
  rooms_get key s = Missing →
  on_message w body s = Ok tt s (reply s w (error "You are not in a room")).
Proof.
  intros H Hm. unfold on_message. rewrite bind_gets, H, bind_gets, Hm.
  apply safeSend_eq.
Qed.

Lemma on_message_inherited w body s key :
  required (room (conn w s)) = Some key →
  rooms_get key s = Inherited →
  on_message w body s = Thrown [].
Proof.
  intros H Hm. unfold on_message. rewrite bind_gets, H, bind_gets, Hm.
  reflexivity.
Qed.

Lemma on_message_relays w body s key r :
  required (room (conn w s)) = Some key →
  rooms s !! key = Some r →
  on_message w body s =
    Ok tt s (delivered s (owner r :: clients r) (message body)).
Proof.
  intros H Hr. unfold on_message.
  rewrite bind_gets, H, bind_gets, (rooms_get_Own _ _ _ Hr).
  apply broadcast_eq.
Qed.

(** ** Every handler is a step of a known shape *)

Lemma same_core_refl s : same_core s s.
Proof. now repeat split. Qed.

Lemma same_core_trans s1 s2 s3 : same_core s1 s2 → same_core s2 s3 → same_core s1 s3.
Proof. intros (?&?&?) (?&?&?). repeat split; congruence. Qed.

Lemma same_core_clear_tags cs : ∀ s, same_core s (clear_tags cs s).
Proof.
  induction cs as [|c cs IH]; intros s; [apply same_core_refl|].
  cbn [clear_tags foldl]. eapply same_core_trans; [|apply IH]. now repeat split.
Qed.

Lemma same_core_close_room key r s s' :
  same_core s s' → same_core (close_room key r s) (close_room key r s').
Proof.
  intros (Hr & Hi & Hn). unfold close_room. destruct (timer r); fields;
    repeat split; cbn [rooms intervals next_interval]; congruence.
Qed.

(** *** Room tags *)

Lemma room_tag_room w w' v s :
  room (conn w' (tag_room w v s)) = if decide (w = w') then v else room (conn w' s).
Proof. rewrite conn_tag_room. now destruct (decide (w = w')). Qed.

Lemma room_tag_userEmail w w' v s :
  room (conn w' (tag_userEmail w v s)) = room (conn w' s).
Proof. rewrite conn_tag_userEmail. now destruct (decide (w = w')). Qed.

Lemma room_tag_ready w w' b s :
  room (conn w' (tag_ready w b s)) = room (conn w' s).
Proof.
  unfold conn, tag_ready, with_conns; cbn [conns]. rewrite lookup_insert.
  destruct (decide (w = w')); subst; reflexivity.
Qed.

Lemma room_untag w w' s :
  room (conn w' (untag w s)) = if decide (w = w') then None else room (conn w' s).
Proof. unfold untag. now rewrite room_tag_userEmail, room_tag_room. Qed.

Lemma tags_cleared_refl s : tags_cleared s s.
Proof. now intros w key. Qed.

Lemma tags_cleared_trans s1 s2 s3 :
  tags_cleared s1 s2 → tags_cleared s2 s3 → tags_cleared s1 s3.
Proof. intros H1 H2 w key H. auto. Qed.

Lemma tags_cleared_tag_room w s : tags_cleared s (tag_room w None s).
Proof. intros w' key. rewrite room_tag_room. now case_decide. Qed.

Lemma tags_cleared_untag w s : tags_cleared s (untag w s).
Proof. intros w' key. rewrite room_untag. now case_decide. Qed.

Lemma tags_cleared_clear_tags cs : ∀ s, tags_cleared s (clear_tags cs s).
Proof.
  induction cs as [|c cs IH]; intros s; [apply tags_cleared_refl|].
  cbn [clear_tags foldl]. eapply tags_cleared_trans; [|apply IH].
  apply tags_cleared_tag_room.
Qed.

Lemma tags_cleared_from s s' : tags_cleared s s' → tags_from s s'.
Proof. intros H w key Hk. left. auto. Qed.

Lemma tags_from_refl s : tags_from s s.
Proof. apply tags_cleared_from, tags_cleared_refl. Qed.

Lemma tags_cleared_then_from s s1 s' :
  tags_cleared s s1 → tags_from s1 s' → tags_from s s'.
Proof. intros H1 H2 w key Hk. destruct (H2 _ _ Hk); auto. Qed.

(** Tags after an entry: the caller's tag is the code just stored. *)
Lemma tags_from_entry w key e r' s :
  tags_from s (store_room key r' (tag_room w (Some key) (tag_userEmail w e s))).
Proof.
  intros w' key'. change (conn w' (store_room key r' ?x)) with (conn w' x).
  rewrite room_tag_room, room_tag_userEmail. case_decide; [|auto].
  intros [= <-]. right. fields. rewrite lookup_insert_eq. eauto.
Qed.

(** *** In-place changes of a room *)

Lemma emails_without w cs : emails (without w cs) `sublist_of` emails cs.
Proof. unfold emails, without. apply fmap_sublist, sublist_filter. Qed.

Lemma static_without w r : static r (set_clients (without w (clients r)) r).
Proof.
  split; try reflexivity. intros [Ho Hm Hd]. split; cbn.
  - done.
  - apply Forall_forall. intros c Hc. rewrite Forall_forall in Hm.
    apply Hm. unfold without in Hc. now apply list_elem_of_filter in Hc as [_ ?].
  - eapply sublist_NoDup; [exact Hd|apply emails_without].
Qed.

Lemma static_set_owner w r : static r (set_owner {| ws := w; email := email (owner r) |} r).
Proof. split; try reflexivity. intros [Ho Hm Hd]. now split. Qed.

Lemma static_set_finished f r : static r (set_finished f r).
Proof. split; try reflexivity. intros [Ho Hm Hd]. now split. Qed.

(** Rebinding keeps every email where it was; pushing adds an email that no
    member had. *)
Lemma emails_rebind_or_push w e cs :
  emails (rebind_or_push w e cs) =
    if bool_decide (e ∈ emails cs) then emails cs else emails cs ++ [e].
Proof.
  unfold rebind_or_push, emails.
  destruct (list_find (λ c, email c = e) cs) as [[i c]|] eqn:Hf.
  - apply list_find_Some in Hf as (Hi & He & _).
    rewrite bool_decide_true
      by (apply list_elem_of_fmap; exists c; split; [done|];
          eapply list_elem_of_lookup_2; eauto).
    rewrite list_fmap_insert. cbn. apply list_insert_id.
    rewrite list_lookup_fmap, Hi. reflexivity.
  - rewrite list_find_None in Hf. rewrite bool_decide_false.
    + now rewrite fmap_app.
    + intros (c & -> & Hc)%list_elem_of_fmap. rewrite Forall_forall in Hf.
      now apply (Hf c).
Qed.

Lemma members_named_rebind_or_push w e cs :
  str_truthy e = true →
  Forall (λ c, str_truthy (email c) = true) cs →
  Forall (λ c, str_truthy (email c) = true) (rebind_or_push w e cs).
Proof.
  intros He Hcs. unfold rebind_or_push.
  destruct (list_find (λ c, email c = e) cs) as [[i c]|] eqn:Hf.
  - apply list_find_Some in Hf as (Hi & Hce & _).
    apply Forall_insert; [done|]. cbn. congruence.
  - apply Forall_app. split; [done|]. now repeat constructor.
Qed.

Lemma static_rebind_or_push w e r :
  str_truthy e = true →
  static r (set_clients (rebind_or_push w e (clients r)) r).
Proof.
  intros He. split; try reflexivity. intros [Ho Hm Hd]. split; cbn.
  - done.
  - now apply members_named_rebind_or_push.
  - rewrite emails_rebind_or_push. case_bool_decide as Hin; [done|].
    apply NoDup_app. split; [done|]. split; [|apply NoDup_singleton].
    intros x Hx Hx'. apply list_elem_of_singleton in Hx' as ->. done.
Qed.

Lemma required_truthy f v : required f = Some v → str_truthy v = true.
Proof.
  destruct f as [x|]; cbn; [|discriminate].
  destruct (str_truthy x) eqn:E; [|discriminate]. now intros [= <-].
Qed.

(** *** The handlers *)

Lemma leaveRoom_step w s s1 o :
  leaveRoom w s = Ok tt s1 o →
  ∃ l, core_step l s s1 ∧ tags_cleared s s1 ∧ leave_like l ∧
       explains (close w) l ∧ ∀ data rnd, explains (inbound w data rnd) l.
Proof.
  intros H. apply leaveRoom_cases in H
    as [(_ & -> & _)|[(key & _ & _ & -> & _)|[(key & r & _ & Hr & Hw & -> & _)
       |(key & r & _ & Hr & Hw & -> & _)]]].
  - exists quiet. split; [constructor; apply same_core_refl|].
    split; [apply tags_cleared_refl|]. now repeat split.
  - exists quiet. split; [constructor; now repeat split|].
    split; [apply tags_cleared_tag_room|]. now repeat split.
  - exists (roster key).
    split; [eapply cs_roster; [done|apply static_without|now repeat split]|].
    split; [|now repeat split].
    eapply tags_cleared_trans; [|apply tags_cleared_untag]. now intros ? ?.
  - exists (closed key (ws (owner r))). subst w. split.
    { eapply cs_closed; [done|].
      eapply same_core_trans;
        [apply same_core_close_room, (same_core_clear_tags (clients r))|].
      now repeat split. }
    split; [|cbn; eauto 10].
    eapply tags_cleared_trans; [|apply tags_cleared_untag].
    eapply tags_cleared_trans; [apply (tags_cleared_clear_tags (clients r))|].
    intros w' key'. unfold close_room. now destruct (timer r).
Qed.

Lemma quiet_step s : core_step quiet s s.
Proof. constructor. apply same_core_refl. Qed.

Ltac quiet_case H :=
  inversion H; subst; exists quiet;
  split; [apply quiet_step|split; [apply tags_from_refl|exact I]].

Lemma plain_explains ev l : plain l → explains ev l.
Proof. now destruct l. Qed.

Lemma plain_entry_like l : plain l → entry_like l.
Proof. now destruct l. Qed.

Lemma create_body_step w body rnd s s' out :
  Forall valid_draw rnd →
  create_body w body rnd s = Ok tt s' out →
  ∃ l, core_step l s s' ∧ tags_from s s' ∧ entry_like l ∧
       explains (inbound w (parsed "create" body) rnd) l.
Proof.
  intros Hrnd H. destruct (required (b_userEmail body)) as [e|] eqn:He.
  - destruct (create_body_Ok _ _ _ _ _ _ _ He H) as (n & Hn & Hm & -> & _).
    exists (opened (toString n) w e (b_quizData body)).
    split; [|split; [apply tags_from_entry|cbn; eauto 10]].
    rewrite Forall_forall in Hrnd.
    eapply cs_opened;
      [now apply rooms_get_Missing|apply valid_draw_code_ok; auto
      |eapply required_truthy; eauto|now repeat split].
  - rewrite (create_body_refused _ _ _ _ He) in H. inversion H; subst.
    exists quiet. split; [apply quiet_step|].
    split; [apply tags_from_refl|now split].
Qed.

Lemma join_body_step w body s s' out :
  join_body w body s = Ok tt s' out →
  ∃ l, core_step l s s' ∧ tags_from s s' ∧ plain l.
Proof.
  intros H.
  destruct (required (b_roomCode body)) as [key|] eqn:Hk;
    [|rewrite join_body_required in H by auto; quiet_case H].
  destruct (required (b_userEmail body)) as [e|] eqn:He;
    [|rewrite join_body_required in H by auto; quiet_case H].
  destruct (rooms s !! key) as [r|] eqn:Hr.
  - destruct (decide (state r = started)) as [Hst|Hst].
    + rewrite (join_body_started _ _ _ _ _ _ Hk He Hr Hst) in H. quiet_case H.
    + rewrite (join_body_joins _ _ _ _ _ _ Hk He Hr Hst) in H.
      inversion H; subst. exists (roster key).
      split; [|split; [apply tags_from_entry|done]].
      eapply cs_roster; [done| |now repeat split].
      apply static_rebind_or_push. eapply required_truthy; eauto.
  - destruct (inherited key) eqn:Hi.
    + rewrite (join_body_inherited _ _ _ _ _ Hk He) in H; [discriminate|].
      unfold rooms_get. now rewrite Hr, Hi.
    + rewrite (join_body_absent _ _ _ _ _ Hk He) in H
        by (unfold rooms_get; now rewrite Hr, Hi). quiet_case H.
Qed.

Lemma on_startSession_step w body rnd s s' out :
  on_startSession w body s = Ok tt s' out →
  ∃ l, core_step l s s' ∧ tags_from s s' ∧
       explains (inbound w (parsed "startSession" body) rnd) l.
Proof.
  intros H. destruct (rooms s !! key_of (b_roomCode body)) as [r|] eqn:Hr.
  - destruct (decide (ws (owner r) = w)) as [Hw|Hw].
    + rewrite (on_startSession_owner _ _ _ _ Hr Hw) in H. inversion H; subst.
      exists (begun (key_of (b_roomCode body)) (ws (owner r))).
      split; [eapply cs_begun; [done|apply same_core_refl]|].
      split; [|cbn; eauto]. apply tags_cleared_from. now intros ? ?.
    + rewrite (on_startSession_not_owner _ _ _ _ Hr Hw) in H. quiet_case H.
  - destruct (inherited (key_of (b_roomCode body))) eqn:Hi.
    + rewrite on_startSession_inherited in H
        by (unfold rooms_get; now rewrite Hr, Hi). quiet_case H.
    + rewrite on_startSession_absent in H
        by (unfold rooms_get; now rewrite Hr, Hi). quiet_case H.
Qed.

Lemma on_reconnect_step w body s s' out :
  on_reconnect w body s = Ok tt s' out →
  ∃ l, core_step l s s' ∧ tags_from s s' ∧ plain l.
Proof.
  intros H.
  destruct (required (b_roomCode body)) as [key|] eqn:Hk;
    [|rewrite on_reconnect_required in H by auto; quiet_case H].
  destruct (required (b_userEmail body)) as [e|] eqn:He;
    [|rewrite on_reconnect_required in H by auto; quiet_case H].
  destruct (rooms s !! key) as [r|] eqn:Hr.
  - destruct (decide (state r = ended)) as [Hst|Hst];
      [rewrite (on_reconnect_ended _ _ _ _ _ _ Hk He Hr Hst) in H; quiet_case H|].
    destruct (decide (email (owner r) = e)) as [Ho|Ho].
    + rewrite (on_reconnect_owner _ _ _ _ _ _ Hk He Hr Hst Ho) in H.
      inversion H; subst. exists (roster key).
      split; [|split; [apply tags_from_entry|done]].
      eapply cs_roster; [done|apply static_set_owner|now repeat split].
    + rewrite (on_reconnect_client _ _ _ _ _ _ Hk He Hr Hst Ho) in H.
      inversion H; subst. exists (roster key).
      split; [|split; [apply tags_from_entry|done]].
      eapply cs_roster; [done| |now repeat split].
      apply static_rebind_or_push. eapply required_truthy; eauto.
  - destruct (inherited key) eqn:Hi.
    + rewrite (on_reconnect_inherited _ _ _ _ _ Hk He) in H; [discriminate|].
      unfold rooms_get. now rewrite Hr, Hi.
    + rewrite (on_reconnect_absent _ _ _ _ _ Hk He) in H
        by (unfold rooms_get; now rewrite Hr, Hi). quiet_case H.
Qed.

Lemma on_deleteRoom_step w body rnd action s s' out :
  on_deleteRoom w body s = Ok tt s' out →
  ∃ l, core_step l s s' ∧ tags_from s s' ∧
       explains (inbound w (parsed action body) rnd) l.
Proof.
  intros H.
  destruct (required (b_roomCode body)) as [key|] eqn:Hk;
    [|rewrite on_deleteRoom_required in H by auto; quiet_case H].
  destruct (rooms s !! key) as [r|] eqn:Hr.
  - destruct (decide (ws (owner r) = w)) as [Hw|Hw].
    + rewrite (on_deleteRoom_owner _ _ _ _ _ Hk Hr Hw) in H.
      inversion H; subst. exists (closed key (ws (owner r))).
      split; [eapply cs_closed; [done|apply same_core_refl]|].
      split; [|cbn; eauto 10]. apply tags_cleared_from.
      intros w' key'. unfold close_room. now destruct (timer r).
    + rewrite (on_deleteRoom_not_owner _ _ _ _ _ Hk Hr Hw) in H. quiet_case H.
  - destruct (inherited key) eqn:Hi.
    + rewrite (on_deleteRoom_inherited _ _ _ _ Hk) in H; [discriminate|].
      unfold rooms_get. now rewrite Hr, Hi.
    + rewrite (on_deleteRoom_absent _ _ _ _ Hk) in H
        by (unfold rooms_get; now rewrite Hr, Hi). quiet_case H.
Qed.

Lemma on_leaveRoom_step w s s' out :
  on_leaveRoom w s = Ok tt s' out →
  ∃ l, core_step l s s' ∧ tags_from s s' ∧ plain l.
Proof.
  intros H.
  destruct (required (room (conn w s))) as [key|] eqn:Hk;
    [|rewrite on_leaveRoom_untagged in H by auto; quiet_case H].
  destruct (rooms s !! key) as [r|] eqn:Hr.
  - destruct (decide (ws (owner r) = w)) as [Hw|Hw].
    + rewrite (on_leaveRoom_owner _ _ _ _ Hk Hr Hw) in H. quiet_case H.
    + rewrite (on_leaveRoom_member _ _ _ _ Hk Hr Hw) in H.
      inversion H; subst. exists (roster key).
      split; [eapply cs_roster; [done|apply static_without|now repeat split]|].
      split; [|done]. apply tags_cleared_from.
      eapply tags_cleared_trans; [|apply tags_cleared_untag]. now intros ? ?.
  - destruct (inherited key) eqn:Hi.
    + rewrite (on_leaveRoom_inherited _ _ _ Hk) in H; [discriminate|].
      unfold rooms_get. now rewrite Hr, Hi.
    + rewrite (on_leaveRoom_gone _ _ _ Hk) in H
        by (unfold rooms_get; now rewrite Hr, Hi).
      inversion H; subst. exists quiet.
      split; [constructor; now repeat split|].
      split; [|done]. apply tags_cleared_from, tags_cleared_tag_room.
Qed.

Lemma on_finishQuiz_step w body s s' out :
  on_finishQuiz w body s = Ok tt s' out →
  ∃ l, core_step l s s' ∧ tags_from s s' ∧ plain l.
Proof.
  intros H.
  destruct (required (b_roomCode body)) as [key|] eqn:Hk;
    [|rewrite on_finishQuiz_required in H by auto; quiet_case H].
  destruct (required (b_userEmail body)) as [e|] eqn:He;
    [|rewrite on_finishQuiz_required in H by auto; quiet_case H].
  destruct (b_score body) as [| | |score| |] eqn:Hs;
    try (rewrite on_finishQuiz_required in H by (rewrite Hs; auto); quiet_case H).
  destruct (rooms s !! key) as [r|] eqn:Hr.
  - rewrite (on_finishQuiz_records _ _ _ _ _ _ _ Hk He Hs Hr) in H.
    inversion H; subst. exists (roster key).
    split; [eapply cs_roster; [done|apply static_set_finished|apply same_core_refl]|].
    split; [|done]. apply tags_cleared_from. now intros ? ?.
  - destruct (inherited key) eqn:Hi.
    + rewrite (on_finishQuiz_inherited _ _ _ _ _ _ Hk He Hs) in H; [discriminate|].
      unfold rooms_get. now rewrite Hr, Hi.
    + rewrite (on_finishQuiz_absent _ _ _ _ _ _ Hk He Hs) in H
        by (unfold rooms_get; now rewrite Hr, Hi). quiet_case H.
Qed.

Lemma on_message_step w body s s' out :
  on_message w body s = Ok tt s' out → s' = s.
Proof.
  intros H.
  destruct (required (room (conn w s))) as [key|] eqn:Hk;
    [|rewrite on_message_untagged in H by auto; now inversion H].
  destruct (rooms s !! key) as [r|] eqn:Hr.
  - rewrite (on_message_relays _ _ _ _ _ Hk Hr) in H. now inversion H.
  - destruct (inherited key) eqn:Hi.
    + rewrite (on_message_inherited _ _ _ _ Hk) in H; [discriminate|].
      unfold rooms_get. now rewrite Hr, Hi.
    + rewrite (on_message_gone _ _ _ _ Hk) in H
        by (unfold rooms_get; now rewrite Hr, Hi). now inversion H.
Qed.

(** The timer callback in terms of [after_tick]. *)
Lemma tick_after s i key r t :
  intervals s !! i = Some key →
  rooms s !! key = Some r →
  timer r = Some t →
  let left := PrimFloat.sub (timeRemaining t) 1%float in
  let everyone := owner r :: clients r in
  handle (tick i) s =
    Ok tt (after_tick key r t s)
       (delivered s everyone (timerTick left) ++
        if PrimFloat.leb left 0%float then delivered s everyone sessionEnded else []).
Proof.
  intros Hi Hr Ht left everyone. rewrite (tick_eq s i key r t Hi Hr Ht).
  cbv zeta. unfold after_tick. fold left.
  destruct (PrimFloat.leb left 0%float); [reflexivity|].
  now rewrite app_nil_r.
Qed.

Lemma tags_cleared_after_tick key r t s : tags_cleared s (after_tick key r t s).
Proof.
  intros w k. unfold after_tick. cbv zeta. now destruct (PrimFloat.leb _ _).
Qed.

Lemma tick_step i s s' out :
  handle (tick i) s = Ok tt s' out →
  ∃ l, core_step l s s' ∧ tags_from s s' ∧ explains (tick i) l.
Proof.
  intros H. destruct (intervals s !! i) as [key|] eqn:Hi.
  - destruct (rooms s !! key) as [r|] eqn:Hr.
    + destruct (timer r) as [t|] eqn:Ht.
      * rewrite (tick_after _ _ _ _ _ Hi Hr Ht) in H. inversion H; subst.
        destruct (PrimFloat.leb (PrimFloat.sub (timeRemaining t) 1%float) 0%float) eqn:Hz.
        -- exists (expired key i).
           split; [eapply cs_expired; eauto using same_core_refl|].
           split; [apply tags_cleared_from, tags_cleared_after_tick|done].
        -- exists (ticked key i).
           split; [eapply cs_ticked; eauto using same_core_refl|].
           split; [apply tags_cleared_from, tags_cleared_after_tick|done].
      * cbn [handle] in H. rewrite bind_gets, Hi in H.
        unfold interval_callback in H.
        rewrite bind_gets, (rooms_get_Own _ _ _ Hr), Ht in H. discriminate.
    + cbn [handle] in H. rewrite bind_gets, Hi in H.
      unfold interval_callback in H. rewrite bind_gets in H. unfold rooms_get in H.
      rewrite Hr in H. destruct (inherited key); [discriminate|]. quiet_case H.
  - cbn [handle] in H. rewrite bind_gets, Hi in H. quiet_case H.
Qed.

Lemma set_ready_leave_Ok w b s s' out :
  bind (set_ws_ready w b) (λ _, leaveRoom w) s = Ok tt s' out →
  leaveRoom w (tag_ready w b s) = Ok tt s' out.
Proof. unfold set_ws_ready. now rewrite bind_modify. Qed.

Lemma explains_socket_error w l :
  explains (close w) l → leave_like l → explains (socket_error w) l.
Proof.
  destruct l; cbn; try done.
  intros [[= ->]|[?|(?&?&?)]] _; try discriminate. now right; left.
Qed.

Lemma same_core_store_room key r s s' :
  same_core s s' → same_core (store_room key r s) (store_room key r s').
Proof. intros (Hr & Hi & Hn). fields. repeat split; cbn [rooms intervals next_interval]; congruence. Qed.

Lemma same_core_after_start key r d s s' :
  same_core s s' → same_core (after_start key r d s) (after_start key r d s').
Proof.
  intros (Hr & Hi & Hn). unfold after_start.
  repeat split; cbn [rooms intervals next_interval]; rewrite ?Hr, ?Hi, ?Hn; reflexivity.
Qed.

Lemma same_core_after_tick key r t s s' :
  same_core s s' → same_core (after_tick key r t s) (after_tick key r t s').
Proof.
  intros (Hr & Hi & Hn). unfold after_tick. cbv zeta.
  destruct (PrimFloat.leb _ _); fields; repeat split; cbn [rooms intervals next_interval]; congruence.
Qed.

Lemma core_step_source l s0 s s' :
  same_core s0 s → core_step l s s' → core_step l s0 s'.
Proof.
  intros Hs H. pose proof Hs as (Hr & Hi & Hn).
  destruct H; rewrite ?Hr, ?Hi in *.
  - constructor. eauto using same_core_trans.
  - eapply cs_roster; eauto.
    eapply same_core_trans; [apply same_core_store_room, Hs|done].
  - eapply cs_closed; eauto.
    eapply same_core_trans; [apply same_core_close_room, Hs|done].
  - eapply cs_opened; eauto.
    eapply same_core_trans; [apply same_core_store_room, Hs|done].
  - eapply cs_begun; eauto.
    eapply same_core_trans; [apply same_core_after_start, Hs|done].
  - eapply cs_ticked; eauto.
    eapply same_core_trans; [apply same_core_after_tick, Hs|done].
  - eapply cs_expired; eauto.
    eapply same_core_trans; [apply same_core_after_tick, Hs|done].
Qed.

Ltac one_step l s' :=
  exists l, s', quiet;
  split; [eassumption || apply quiet_step|];
  split; [apply quiet_step|];
  split; [first [eassumption | apply tags_from_refl]|];
  split; [first [eassumption | exact I | idtac]|];
  split; [exact I|now left].

Ltac two_steps l1 s1 l2 He1 :=
  exists l1, s1, l2;
  split; [eassumption|]; split; [eassumption|];
  split; [eapply tags_cleared_then_from; eassumption|];
  split; [apply He1|];
  split; [first [eassumption | now destruct l2]|];
  right; now split.

(** Every event that a handler survives changes rooms and intervals by at
    most two steps of the known shapes; only [create] and [join] take two
    (their implicit leave, then the entry). *)
Lemma handle_steps ev s s' out :
  deliverable s ev →
  handle ev s = Ok tt s' out →
  ∃ l1 s1 l2,
    core_step l1 s s1 ∧ core_step l2 s1 s' ∧ tags_from s s' ∧
    explains ev l1 ∧ explains ev l2 ∧
    (l2 = quiet ∨ (leave_like l1 ∧ entry_like l2)).
Proof.
  intros Hd H. destruct ev as [w|w [| |action body] rnd|w|w|i].
  - cbn [handle] in H. inversion H; subst.
    exists quiet, s, quiet. split; [apply quiet_step|].
    split; [constructor; now repeat split|].
    split; [|now repeat split; try left].
    intros w' key. unfold conn, with_conns; cbn [conns].
    rewrite lookup_insert. case_decide; [discriminate|auto].
  - cbn [handle] in H. inversion H; subst. one_step quiet s'.
  - discriminate.
  - cbn [handle] in H. unfold dispatch in H.
    destruct Hd as [_ Hrnd].
    destruct (String.eqb action "create") eqn:E1.
    { apply String.eqb_eq in E1 as ->.
      destruct (after_leave_Ok _ _ _ _ _ H) as (s1 & out1 & out2 & Hl & Hb & ->).
      destruct (leaveRoom_step _ _ _ _ Hl) as (l1 & H1 & Ht1 & Hl1 & _ & He1).
      destruct (create_body_step _ _ _ _ _ _ Hrnd Hb) as (l2 & H2 & Ht2 & Hl2 & He2).
      two_steps l1 s1 l2 He1. }
    destruct (String.eqb action "join") eqn:E2.
    { destruct (after_leave_Ok _ _ _ _ _ H) as (s1 & out1 & out2 & Hl & Hb & ->).
      destruct (leaveRoom_step _ _ _ _ Hl) as (l1 & H1 & Ht1 & Hl1 & _ & He1).
      destruct (join_body_step _ _ _ _ _ Hb) as (l2 & H2 & Ht2 & Hp2).
      pose proof (plain_entry_like _ Hp2) as Hl2.
      pose proof (plain_explains (inbound w (parsed action body) rnd) _ Hp2) as He2.
      two_steps l1 s1 l2 He1. }
    destruct (String.eqb action "startSession") eqn:E3.
    { apply String.eqb_eq in E3 as ->.
      destruct (on_startSession_step _ _ rnd _ _ _ H) as (l & Hl & Ht & He).
      one_step l s'. }
    destruct (String.eqb action "reconnect") eqn:E4.
    { destruct (on_reconnect_step _ _ _ _ _ H) as (l & Hl & Ht & He).
      pose proof (plain_explains (inbound w (parsed action body) rnd) _ He).
      one_step l s'. }
    destruct (String.eqb action "deleteRoom") eqn:E5.
    { destruct (on_deleteRoom_step _ _ rnd action _ _ _ H) as (l & Hl & Ht & He).
      one_step l s'. }
    destruct (String.eqb action "leaveRoom") eqn:E6.
    { destruct (on_leaveRoom_step _ _ _ _ H) as (l & Hl & Ht & He).
      pose proof (plain_explains (inbound w (parsed action body) rnd) _ He).
      one_step l s'. }
    destruct (String.eqb action "finishQuiz") eqn:E7.
    { destruct (on_finishQuiz_step _ _ _ _ _ H) as (l & Hl & Ht & He).
      pose proof (plain_explains (inbound w (parsed action body) rnd) _ He).
      one_step l s'. }
    destruct (String.eqb action "message") eqn:E8.
    { apply on_message_step in H as ->. one_step quiet s. }
    rewrite safeSend_eq in H. inversion H; subst. one_step quiet s'.
  - cbn [handle] in H. apply set_ready_leave_Ok in H.
    destruct (leaveRoom_step _ _ _ _ H) as (l1 & H1 & Ht1 & Hl1 & He1 & _).
    assert (H1' : core_step l1 s s')
      by (eapply core_step_source; [|exact H1]; now repeat split).
    assert (Ht : tags_from s s').
    { apply tags_cleared_from. intros w' key Hk. apply Ht1 in Hk.
      now rewrite room_tag_ready in Hk. }
    one_step l1 s'.
  - cbn [handle] in H. apply set_ready_leave_Ok in H.
    destruct (leaveRoom_step _ _ _ _ H) as (l1 & H1 & Ht1 & Hl1 & He1 & _).
    assert (H1' : core_step l1 s s')
      by (eapply core_step_source; [|exact H1]; now repeat split).
    assert (Ht : tags_from s s').
    { apply tags_cleared_from. intros w' key Hk. apply Ht1 in Hk.
      now rewrite room_tag_ready in Hk. }
    pose proof (explains_socket_error _ _ He1 Hl1).
    one_step l1 s'.
  - destruct (tick_step _ _ _ _ H) as (l & Hl & Ht & He).
    one_step l s'.
Qed.

(** ** The invariant holds in every reachable state *)

Lemma Inv_initial : Inv initial.
Proof.
  split; cbn [initial rooms intervals next_interval]; intros *;
    rewrite lookup_empty; discriminate.
Qed.

Lemma room_ok_same_intervals s s' key r :
  intervals s' = intervals s → room_ok s key r → room_ok s' key r.
Proof. intros Hi [? ? ? ?]. split; try done. now rewrite Hi. Qed.

Lemma Inv_same_core s s' : same_core s s' → Inv s → Inv s'.
Proof.
  intros (Hr & Hi & Hn) [H1 H2 H3]. split; rewrite ?Hr, ?Hi, ?Hn; try done.
  intros key r Hk. eapply room_ok_same_intervals; eauto.
Qed.

(** Two rooms never share an interval. *)
Lemma interval_owner_unique s k1 k2 r1 r2 t1 t2 :
  Inv s →
  rooms s !! k1 = Some r1 → rooms s !! k2 = Some r2 →
  timer r1 = Some t1 → timer r2 = Some t2 →
  interval t1 = interval t2 → k1 = k2.
Proof.
  intros HI H1 H2 Ht1 Ht2 Heq.
  pose proof (room_interval _ _ _ (inv_rooms _ HI _ _ H1) _ Ht1) as Ha.
  pose proof (room_interval _ _ _ (inv_rooms _ HI _ _ H2) _ Ht2) as Hb.
  rewrite Heq in Ha. congruence.
Qed.

Lemma rooms_close_room key r s : rooms (close_room key r s) = delete key (rooms s).
Proof.
  unfold close_room. destruct (timer r); fields; [|reflexivity].
  apply delete_insert_eq.
Qed.

Lemma intervals_close_room key r s :
  intervals (close_room key r s) =
    match timer r with
    | Some t => delete (interval t) (intervals s)
    | None => intervals s
    end.
Proof. unfold close_room. now destruct (timer r). Qed.

Lemma next_close_room key r s :
  next_interval (close_room key r s) = next_interval s.
Proof. unfold close_room. now destruct (timer r). Qed.

Lemma Inv_roster s key r r' :
  Inv s → rooms s !! key = Some r → static r r' → Inv (store_room key r' s).
Proof.
  intros HI Hr [Hst Htm Hem Hro]. pose proof HI as [H1 H2 H3].
  split; fields.
  - intros k x. rewrite lookup_insert. case_decide as Hk.
    + subst k. intros [= <-]. destruct (H1 _ _ Hr) as [Hc Hx Ht Hi].
      split; [done|auto| |].
      * now rewrite Htm, Hst.
      * intros t. rewrite Htm. apply Hi.
    + intros Hx. eapply room_ok_same_intervals; [|apply (H1 _ _ Hx)]. reflexivity.
  - intros i k Hi. destruct (H2 _ _ Hi) as (x & t & Hx & Ht & Hit).
    destruct (decide (key = k)) as [->|Hk].
    + exists r', t. rewrite lookup_insert_eq. rewrite Hr in Hx.
      injection Hx as <-. now rewrite Htm.
    + exists x, t. now rewrite lookup_insert_ne.
  - done.
Qed.

Lemma Inv_closed s key r :
  Inv s → rooms s !! key = Some r → Inv (close_room key r s).
Proof.
  intros HI Hr. pose proof HI as [H1 H2 H3].
  split; rewrite ?rooms_close_room, ?intervals_close_room, ?next_close_room.
  - intros k x. rewrite lookup_delete. case_decide as Hk; [discriminate|].
    intros Hx. destruct (H1 _ _ Hx) as [Hc Hro Ht Hi].
    split; [done..|]. intros t Hxt. rewrite intervals_close_room.
    destruct (timer r) as [tr|] eqn:Htr; [|auto].
    rewrite lookup_delete_ne; [auto|]. intros Heq.
    apply Hk. eapply (interval_owner_unique s key k); eauto.
  - intros i k Hi.
    assert (Hi' : intervals s !! i = Some k ∧
                  ∀ t, timer r = Some t → interval t ≠ i).
    { destruct (timer r) as [tr|]; [|split; [done|discriminate]].
      revert Hi. rewrite lookup_delete. case_decide; [discriminate|].
      intros ?. split; [done|]. now intros t [= <-]. }
    destruct Hi' as [Hi' Hne].
    destruct (H2 _ _ Hi') as (x & t & Hx & Ht & Hit).
    exists x, t. split; [|done]. rewrite lookup_delete_ne; [done|].
    intros <-. rewrite Hr in Hx. injection Hx as <-. now apply (Hne t).
  - intros i k Hi. apply (H3 i k).
    destruct (timer r); [|done]. revert Hi. rewrite lookup_delete.
    now case_decide.
Qed.

Lemma Inv_opened s key w e q :
  Inv s → rooms s !! key = None → code_ok key = true → str_truthy e = true →
  Inv (store_room key (new_room w e q) s).
Proof.
  intros HI Hr Hc He. pose proof HI as [H1 H2 H3]. split; fields.
  - intros k x. rewrite lookup_insert. case_decide as Hk.
    + subst k. intros [= <-]. split; [done| | |discriminate].
      * split; cbn; [done|constructor|constructor].
      * cbn. split; [intros [? [=]]|discriminate].
    + intros Hx. eapply room_ok_same_intervals; [|apply (H1 _ _ Hx)]. reflexivity.
  - intros i k Hi. destruct (H2 _ _ Hi) as (x & t & Hx & Ht & Hit).
    exists x, t. rewrite lookup_insert_ne; [done|]. congruence.
  - done.
Qed.

Lemma Inv_begun s key r d :
  Inv s → rooms s !! key = Some r → Inv (after_start key r d s).
Proof.
  intros HI Hr. pose proof HI as [H1 H2 H3].
  destruct (H1 _ _ Hr) as [Hc Hro Ht Hiv].
  assert (Hold : ∀ i k, k ≠ key → intervals s !! i = Some k →
    <[next_interval s := key]>
      (match timer r with
       | Some t => delete (interval t) (intervals s)
       | None => intervals s
       end) !! i = Some k).
  { intros i k Hk Hi. rewrite lookup_insert_ne
      by (intros <-; apply H3 in Hi; lia).
    destruct (timer r) as [tr|] eqn:Htr; [|done].
    rewrite lookup_delete_ne; [done|]. intros <-.
    rewrite (Hiv _ eq_refl) in Hi. congruence. }
  split; unfold after_start; cbn [rooms intervals next_interval].
  - intros k x. rewrite lookup_insert. case_decide as Hk.
    + subst k. intros [= <-]. split; [done| | |].
      * destruct Hro. now split.
      * cbn. split; [done|eauto].
      * cbn. intros t [= <-]. cbn. apply lookup_insert_eq.
    + intros Hx. destruct (H1 _ _ Hx) as [? ? ? Hxi]. split; [done..|].
      intros t Hxt. apply Hold; [congruence|auto].
  - intros i k. rewrite lookup_insert. case_decide as Hi.
    + subst i. intros [= <-]. eexists _, _. rewrite lookup_insert_eq.
      split; [reflexivity|]. now split.
    + intros Hik.
      assert (Hik' : intervals s !! i = Some k ∧
                     ∀ t, timer r = Some t → interval t ≠ i).
      { destruct (timer r) as [tr|]; [|split; [done|discriminate]].
        revert Hik. rewrite lookup_delete. case_decide; [discriminate|].
        intros ?. split; [done|]. now intros t [= <-]. }
      destruct Hik' as [Hik' Hne].
      destruct (H2 _ _ Hik') as (x & t & Hx & Hxt & Hit).
      exists x, t. split; [|done]. rewrite lookup_insert_ne; [done|].
      intros <-. rewrite Hr in Hx. injection Hx as <-. now apply (Hne t).
  - intros i k. rewrite lookup_insert. case_decide as Hi; [lia|].
    intros Hik. enough (i < next_interval s) by lia. apply (H3 i k).
    destruct (timer r); [|done]. revert Hik. rewrite lookup_delete.
    now case_decide.
Qed.

Lemma Inv_ticked s key r t :
  Inv s → rooms s !! key = Some r → timer r = Some t →
  PrimFloat.leb (PrimFloat.sub (timeRemaining t) 1%float) 0%float = false →
  Inv (after_tick key r t s).
Proof.
  intros HI Hr Ht Hz. unfold after_tick. cbv zeta. rewrite Hz.
  pose proof HI as [H1 H2 H3]. destruct (H1 _ _ Hr) as [Hc Hro Hts Hiv].
  split; fields.
  - intros k x. rewrite lookup_insert. case_decide as Hk.
    + subst k. intros [= <-]. split; [done| | |].
      * destruct Hro. now split.
      * cbn. rewrite <- Hts, Ht. split; eauto.
      * cbn. intros t' [= <-]. cbn. auto.
    + intros Hx. eapply room_ok_same_intervals; [|apply (H1 _ _ Hx)]. reflexivity.
  - intros i k Hi. destruct (H2 _ _ Hi) as (x & t' & Hx & Hxt & Hit).
    destruct (decide (key = k)) as [->|Hk].
    + eexists _, _. rewrite lookup_insert_eq. split; [reflexivity|].
      split; [reflexivity|]. cbn. congruence.
    + exists x, t'. now rewrite lookup_insert_ne.
  - done.
Qed.

Lemma Inv_expired s key r t :
  Inv s → rooms s !! key = Some r → timer r = Some t →
  PrimFloat.leb (PrimFloat.sub (timeRemaining t) 1%float) 0%float = true →
  Inv (after_tick key r t s).
Proof.
  intros HI Hr Ht Hz. unfold after_tick. cbv zeta. rewrite Hz.
  pose proof HI as [H1 H2 H3]. destruct (H1 _ _ Hr) as [Hc Hro Hts Hiv].
  split; fields.
  - intros k x. rewrite lookup_insert. case_decide as Hk.
    + subst k. intros [= <-]. split; [done| | |discriminate].
      * destruct Hro. now split.
      * cbn. split; [intros [? [=]]|discriminate].
    + intros Hx. destruct (H1 _ _ Hx) as [? ? ? Hxi]. split; [done..|].
      intros t' Hxt. fields. rewrite lookup_delete_ne; [auto|]. intros Heq.
      apply Hk. eapply (interval_owner_unique s key k); eauto.
  - intros i k. rewrite lookup_delete. case_decide as Hi; [discriminate|].
    intros Hik. destruct (H2 _ _ Hik) as (x & t' & Hx & Hxt & Hit).
    exists x, t'. split; [|done]. rewrite lookup_insert_ne; [done|].
    intros <-. rewrite Hr in Hx. injection Hx as <-. congruence.
  - intros i k. rewrite lookup_delete. case_decide; [discriminate|]. apply H3.
Qed.

Lemma Inv_core_step l s s' : Inv s → core_step l s s' → Inv s'.
Proof.
  intros HI H. destruct H as
    [s s' Hs|s s' key r r' Hr Hst Hs|s s' key r Hr Hs
    |s s' key w e q Hr Hc He Hs|s s' key r d Hr Hs
    |s s' key i r t Hi Hr Ht Hz Hs|s s' key i r t Hi Hr Ht Hz Hs];
    (eapply Inv_same_core; [exact Hs|]);
    eauto using Inv_roster, Inv_closed, Inv_opened, Inv_begun, Inv_ticked,
      Inv_expired.
Qed.

(** The full invariant: rooms, intervals and tags. *)
Lemma tags_ok_initial : tags_ok initial.
Proof. intros w key. unfold conn. cbn. rewrite lookup_empty. discriminate. Qed.

Lemma Inv_handle ev s s' out :
  Inv s → tags_ok s → deliverable s ev → handle ev s = Ok tt s' out →
  Inv s' ∧ tags_ok s'.
Proof.
  intros HI HT Hd H.
  destruct (handle_steps _ _ _ _ Hd H) as (l1 & s1 & l2 & H1 & H2 & Ht & _).
  assert (HI' : Inv s') by eauto using Inv_core_step.
  split; [done|]. intros w key Hk. destruct (Ht _ _ Hk) as [Hold|[r Hr]].
  - eauto.
  - exact (room_code _ _ _ (inv_rooms _ HI' _ _ Hr)).
Qed.

Lemma reachable_invariants s : reachable s → Inv s ∧ tags_ok s.
Proof.
  induction 1 as [|s ev s' out _ [IH1 IH2] Hd H];
    [split; [apply Inv_initial|apply tags_ok_initial]|].
  eapply Inv_handle; eauto.
Qed.

Lemma reachable_Inv s : reachable s → Inv s.
Proof. intros H. apply reachable_invariants, H. Qed.

Lemma reachable_tags_ok s : reachable s → tags_ok s.
Proof. intros H. apply reachable_invariants, H. Qed.

(** In a reachable state [leaveRoom] never throws. *)
Lemma leaveRoom_returns w s :
  reachable s → ∃ s1 out1, leaveRoom w s = Ok tt s1 out1.
Proof.
  intros Hs. destruct (required (room (conn w s))) as [key|] eqn:Hreq.
  - assert (Hc : code_ok key = true).
    { destruct (room (conn w s)) as [k|] eqn:Hk; [|discriminate].
      cbn in Hreq. destruct (str_truthy k); [|discriminate].
      injection Hreq as <-. eapply reachable_tags_ok; eauto. }
    destruct (rooms s !! key) as [r|] eqn:Hr.
    + destruct (decide (ws (owner r) = w)) as [Hw|Hw].
      * rewrite (leaveRoom_owner _ _ _ _ Hreq Hr Hw). eauto.
      * rewrite (leaveRoom_member _ _ _ _ Hreq Hr Hw). eauto.
    + rewrite (leaveRoom_missing _ _ _ Hreq); [eauto|].
      unfold rooms_get. now rewrite Hr, (code_ok_not_inherited _ Hc).
  - rewrite (leaveRoom_none _ _ Hreq). eauto.
Qed.

(** ** Timer expiry (C6) *)

Lemma ex_started_trace :
  trace ex_start initial =
    Some (ex_started,
          [(1, created "1000" JNull); (2, joined "1000" JNull);
           (1, userJoined "member@x" JUndefined);
           (1, sessionStarted true JNull 1%float);
           (2, sessionStarted false JNull 1%float)]).
Proof. vm_compute. reflexivity. Qed.

Lemma ex_started_reachable : reachable ex_started.
Proof. eapply trace_reachable; [apply reachable_initial|apply ex_started_trace]. Qed.

Lemma ex_ended_trace :
  trace ex_end initial =
    Some (ex_ended,
          [(1, created "1000" JNull); (2, joined "1000" JNull);
           (1, userJoined "member@x" JUndefined);
           (1, sessionStarted true JNull 1%float);
           (2, sessionStarted false JNull 1%float);
           (1, timerTick 0%float); (2, timerTick 0%float);
           (1, sessionEnded); (2, sessionEnded)]).
Proof. vm_compute. reflexivity. Qed.

Lemma ex_ended_reachable : reachable ex_ended.
Proof. eapply trace_reachable; [apply reachable_initial|apply ex_ended_trace]. Qed.

Lemma filter_sessionEnded_delivered s cs :
  List.filter is_sessionEnded (delivered s cs sessionEnded) =
  delivered s cs sessionEnded.
Proof.
  unfold delivered, delivered_by.
  induction (filter (λ c, readyOpen (conn (ws c) s) = true) cs) as [|c l IH];
    [reflexivity|]. cbn. now rewrite IH.
Qed.

Lemma filter_sessionEnded_timerTick s cs x :
  List.filter is_sessionEnded (delivered s cs (timerTick x)) = [].
Proof.
  unfold delivered, delivered_by.
  induction (filter (λ c, readyOpen (conn (ws c) s) = true) cs) as [|c l IH];
    [reflexivity|]. cbn. exact IH.
Qed.

(** In a reachable state a live interval belongs to the timer of a started
    room, so its callback never throws. *)
Lemma live_interval_room s i key :
  reachable s → intervals s !! i = Some key →
  ∃ r t, rooms s !! key = Some r ∧ timer r = Some t ∧ interval t = i ∧
         state r = started.
Proof.
  intros Hs Hi. pose proof (reachable_Inv _ Hs) as HI.
  destruct (inv_live _ HI _ _ Hi) as (r & t & Hr & Ht & Hit).
  exists r, t. repeat split; try done.
  apply (room_timer _ _ _ (inv_rooms _ HI _ _ Hr)). eauto.
Qed.

(** C6: when the interval of a room's timer fires and the decremented
    remaining time is no longer positive, that same tick sets the room's
    state to [ended] and its timer to null, cancels the interval (a later
    firing of it does nothing), and after the [timerTick] broadcast
    transmits [sessionEnded] exactly once for the owner and for every
    member whose connection is open, and to nobody else. *)
Theorem C6_expiry_ends_session (s : Server) (i : nat) (key : string)
    (r : Room) (t : Timer) :
  reachable s →
  intervals s !! i = Some key →
  rooms s !! key = Some r →
  timer r = Some t →
  PrimFloat.leb (PrimFloat.sub (timeRemaining t) 1%float) 0%float = true →
  let left := PrimFloat.sub (timeRemaining t) 1%float in
  let everyone := owner r :: clients r in
  let s' := after_tick key r t s in
  let out := delivered s everyone (timerTick left) ++ delivered s everyone sessionEnded in
  handle (tick i) s = Ok tt s' out ∧
  rooms s' = <[key := set_state ended (set_timer None r)]> (rooms s) ∧
  (∃ r', rooms s' !! key = Some r' ∧ state r' = ended ∧ timer r' = None ∧
         owner r' = owner r ∧ clients r' = clients r) ∧
  intervals s' = delete i (intervals s) ∧
  handle (tick i) s' = Ok tt s' [] ∧
  List.filter is_sessionEnded out =
    (λ c, (ws c, sessionEnded)) <$>
      filter (λ c, readyOpen (conn (ws c) s) = true) everyone.
Proof.
  intros Hs Hi Hr Ht Hz left everyone s' out.
  destruct (live_interval_room _ _ _ Hs Hi) as (r0 & t0 & Hr0 & Ht0 & Hit & Hst).
  rewrite Hr in Hr0. injection Hr0 as <-. rewrite Ht in Ht0. injection Ht0 as <-.
  assert (Hs' : s' = drop_interval i
            (store_room key (set_state ended (set_timer None r)) s)).
  { unfold s', after_tick. cbv zeta. now rewrite Hz, Hit. }
  split; [|split; [|split; [|split; [|split]]]].
  - rewrite (tick_after _ _ _ _ _ Hi Hr Ht). cbv zeta. fold left. unfold left.
    now rewrite Hz.
  - now rewrite Hs'.
  - rewrite Hs'. fields. eexists. rewrite lookup_insert_eq. now repeat split.
  - now rewrite Hs'.
  - rewrite Hs'. cbn [handle]. rewrite bind_gets. fields.
    now rewrite lookup_delete_eq.
  - unfold out. rewrite List.filter_app, filter_sessionEnded_timerTick,
      filter_sessionEnded_delivered. reflexivity.
Qed.

Lemma C6_expiry_ends_session_witness :
  handle (tick 0) ex_started =
    Ok tt ex_ended
       [(1, timerTick 0%float); (2, timerTick 0%float);
        (1, sessionEnded); (2, sessionEnded)] ∧
  (∃ r', rooms ex_ended !! "1000" = Some r' ∧ state r' = ended ∧ timer r' = None ∧
         owner r' = owner ex_room3 ∧ clients r' = clients ex_room3) ∧
  handle (tick 0) ex_ended = Ok tt ex_ended [] ∧
  List.filter is_sessionEnded
    [(1, timerTick 0%float); (2, timerTick 0%float);
     (1, sessionEnded); (2, sessionEnded)] =
  [(1, sessionEnded); (2, sessionEnded)].
Proof.
  destruct (C6_expiry_ends_session ex_started 0 "1000" ex_room3 ex_timer
              ex_started_reachable)
    as (H1 & _ & H2 & _ & H3 & H4); [vm_compute; reflexivity..|].
  split; [exact H1|]. split; [exact H2|]. split; [exact H3|exact H4].
Defined.

(** ** How a room's state changes (C1) *)

(** What one step does to the room stored under [key]. *)
Lemma core_step_room l s s' key r :
  Inv s → core_step l s s' → rooms s !! key = Some r →
  match rooms s' !! key with
  | None => l = closed key (ws (owner r))
  | Some r' =>
      state r' = state r
      ∨ (state r' = started ∧ l = begun key (ws (owner r)))
      ∨ (state r = started ∧ state r' = ended ∧
         ∃ i, l = expired key i ∧ intervals s !! i = Some key)
  end.
Proof.
  intros HI H Hk. destruct H as
    [s s' Hs|s s' k x x' Hx Hst Hs|s s' k x Hx Hs
    |s s' k w e q Hx Hc He Hs|s s' k x d Hx Hs
    |s s' k i x t Hi Hx Ht Hz Hs|s s' k i x t Hi Hx Ht Hz Hs];
    destruct Hs as (-> & _ & _).
  - rewrite Hk. now left.
  - fields. rewrite lookup_insert. case_decide as E.
    + subst k. rewrite Hx in Hk. injection Hk as <-. left. apply Hst.
    + rewrite Hk. now left.
  - rewrite rooms_close_room, lookup_delete. case_decide as E.
    + subst k. rewrite Hx in Hk. now injection Hk as <-.
    + rewrite Hk. now left.
  - fields. rewrite lookup_insert_ne by congruence. rewrite Hk. now left.
  - unfold after_start. cbn [rooms]. rewrite lookup_insert. case_decide as E.
    + subst k. rewrite Hx in Hk. injection Hk as <-. right; left. now split.
    + rewrite Hk. now left.
  - unfold after_tick. cbv zeta. rewrite Hz. fields.
    rewrite lookup_insert. case_decide as E; [|rewrite Hk; now left].
    subst k. rewrite Hx in Hk. injection Hk as <-. now left.
  - unfold after_tick. cbv zeta. rewrite Hz. fields.
    rewrite lookup_insert. case_decide as E.
    + subst k. rewrite Hx in Hk. injection Hk as <-. right; right.
      split; [|split; [done|eauto]].
      apply (room_timer _ _ _ (inv_rooms _ HI _ _ Hx)). eauto.
    + rewrite Hk. now left.
Qed.

(** A room appears under a free key only by [create]. *)
Lemma core_step_new l s s' key r' :
  core_step l s s' → rooms s !! key = None → rooms s' !! key = Some r' →
  ∃ w e q, l = opened key w e q ∧ r' = new_room w e q.
Proof.
  intros H Hk. destruct H as
    [s s' Hs|s s' k x x' Hx Hst Hs|s s' k x Hx Hs
    |s s' k w e q Hx Hc He Hs|s s' k x d Hx Hs
    |s s' k i x t Hi Hx Ht Hz Hs|s s' k i x t Hi Hx Ht Hz Hs];
    destruct Hs as (-> & _ & _).
  - congruence.
  - fields. rewrite lookup_insert_ne by congruence. congruence.
  - rewrite rooms_close_room, lookup_delete. case_decide; congruence.
  - fields. rewrite lookup_insert. case_decide as E; [|congruence].
    subst k. intros [= <-]. eauto.
  - unfold after_start. cbn [rooms]. rewrite lookup_insert_ne by congruence.
    congruence.
  - unfold after_tick. cbv zeta. rewrite Hz. fields.
    rewrite lookup_insert_ne by congruence. congruence.
  - unfold after_tick. cbv zeta. rewrite Hz. fields.
    rewrite lookup_insert_ne by congruence. congruence.
Qed.

Lemma quiet_rooms s s' : core_step quiet s s' → rooms s' = rooms s.
Proof. inversion 1 as [? ? (? & _ & _)| | | | | |]; subst. done. Qed.

(** C1 (as amended): across any event a reachable server handles, the room
    stored under a code either keeps its state, or becomes [started]
    because the connection of its owner sent [startSession] for it
    (whatever the state was, [ended] included), or goes from [started] to
    [ended] because its interval fired, or is a new room that the [create]
    of the old room's owner connection stored under the same code after
    closing the old one.  So no room ever returns to [waiting], and
    [ended] is left only by the owner's [startSession]. *)
Theorem C1_state_changes (s : Server) (ev : Event) (s' : Server)
    (out : list Sent) (key : string) (r r' : Room) :
  reachable s → deliverable s ev → handle ev s = Ok tt s' out →
  rooms s !! key = Some r → rooms s' !! key = Some r' →
  state r' = state r
  ∨ (state r' = started ∧
     ∃ body rnd, ev = inbound (ws (owner r)) (parsed "startSession" body) rnd ∧
                 key_of (b_roomCode body) = key)
  ∨ (state r = started ∧ state r' = ended ∧
     ∃ i, ev = tick i ∧ intervals s !! i = Some key)
  ∨ (∃ body rnd userEmail,
       ev = inbound (ws (owner r)) (parsed "create" body) rnd ∧
       required (b_userEmail body) = Some userEmail ∧
       r' = new_room (ws (owner r)) userEmail (b_quizData body)).
Proof.
  intros Hs Hd H Hr Hr'. pose proof (reachable_Inv _ Hs) as HI.
  destruct (handle_steps _ _ _ _ Hd H)
    as (l1 & s1 & l2 & H1 & H2 & _ & He1 & He2 & Hshape).
  pose proof (core_step_room _ _ _ _ _ HI H1 Hr) as Hroom1.
  assert (HI1 : Inv s1) by eauto using Inv_core_step.
  destruct (rooms s1 !! key) as [r1|] eqn:Hr1.
  - pose proof (core_step_room _ _ _ _ _ HI1 H2 Hr1) as Hroom2.
    rewrite Hr' in Hroom2.
    destruct Hshape as [->|[Hl1 Hl2]].
    + destruct Hroom2 as [E2|[[_ [=]]|(_ & _ & ? & [=] & _)]].
      rewrite E2.
      destruct Hroom1 as [E1|[[E1 ->]|(E0 & E1 & i & -> & Hi)]].
      * now left.
      * right; left. split; [done|]. cbn in He1.
        destruct He1 as (body & rnd & -> & <-). eauto.
      * right; right; left. cbn in He1. subst ev. eauto.
    + left.
      destruct Hroom1 as [E1|[[_ ->]|(_ & _ & ? & -> & _)]]; try done.
      destruct Hroom2 as [E2|[[_ ->]|(_ & _ & ? & -> & _)]]; try done.
      congruence.
  - subst l1. destruct Hshape as [->|[_ Hl2]].
    + apply quiet_rooms in H2. congruence.
    + destruct (core_step_new _ _ _ _ _ H2 Hr1 Hr') as (w & e & q & -> & ->).
      right; right; right. cbn in He1, He2.
      destruct He2 as (body & rnd & -> & Hreq & <-).
      destruct He1 as [[=]|[[=]|(? & ? & [= <- _ _])]]. eauto 10.
Qed.

Lemma C1_state_changes_witness :
  state ex_room3 = state ex_room2
  ∨ (state ex_room3 = started ∧
     ∃ body rnd,
       msg 1 "startSession" (request (Some "1000") None (JNum 1%float) JUndefined) =
         inbound (ws (owner ex_room2)) (parsed "startSession" body) rnd ∧
       key_of (b_roomCode body) = "1000")
  ∨ (state ex_room2 = started ∧ state ex_room3 = ended ∧
     ∃ i, msg 1 "startSession" (request (Some "1000") None (JNum 1%float) JUndefined) = tick i ∧
          intervals ex_joined !! i = Some "1000")
  ∨ (∃ body rnd userEmail,
       msg 1 "startSession" (request (Some "1000") None (JNum 1%float) JUndefined) =
         inbound (ws (owner ex_room2)) (parsed "create" body) rnd ∧
       required (b_userEmail body) = Some userEmail ∧
       ex_room3 = new_room (ws (owner ex_room2)) userEmail (b_quizData body)).
Proof.
  apply (C1_state_changes ex_joined
           (msg 1 "startSession" (request (Some "1000") None (JNum 1%float) JUndefined))
           ex_started
           [(1, sessionStarted true JNull 1%float);
            (2, sessionStarted false JNull 1%float)]
           "1000" ex_room2 ex_room3).
  - apply ex_joined_reachable.
  - vm_compute. split; [eauto|constructor].
  - vm_compute. reflexivity.
  - vm_compute. reflexivity.
  - vm_compute. reflexivity.
Defined.

(** C1 (counterexample): the owner starts a one-second session in room
    "1000", the timer runs out and the room is [ended]; the owner's next
    [startSession] puts the same room back to [started]. *)
Lemma C1_ended_room_restarted :
  reachable ex_ended ∧
  state <$> rooms ex_ended !! "1000" = Some ended ∧
  ∃ s' out,
    handle (msg 1 "startSession" (request (Some "1000") None JUndefined JUndefined))
      ex_ended = Ok tt s' out ∧
    state <$> rooms s' !! "1000" = Some started.
Proof.
  split; [apply ex_ended_reachable|]. split; [vm_compute; reflexivity|].
  eexists _, _. split; vm_compute; reflexivity.
Qed.

(** ** Requests answered with an error (C3, C4) *)

Lemma elem_reply x s w m : x ∈ reply s w m → x = (w, m).
Proof.
  unfold reply. destruct (readyOpen (conn w s)).
  - now intros ->%list_elem_of_singleton.
  - now intros ?%elem_of_nil.
Qed.

Lemma elem_reply_eq x s w m : x ∈ reply s w m → reply s w m = [x].
Proof.
  unfold reply. destruct (readyOpen (conn w s)).
  - now intros ->%list_elem_of_singleton.
  - now intros ?%elem_of_nil.
Qed.

Lemma elem_delivered_by x s cs f :
  x ∈ delivered_by s cs f → ∃ c, c ∈ cs ∧ x = (ws c, f c).
Proof.
  unfold delivered_by. intros (c & -> & Hc)%list_elem_of_fmap.
  apply list_elem_of_filter in Hc as [_ Hc]. eauto.
Qed.

(** Closes a branch in which the handler did not answer with an error. *)
Ltac no_error Hin :=
  repeat (apply elem_of_app in Hin as [Hin|Hin]);
  first
    [ apply elem_reply in Hin; discriminate Hin
    | apply elem_delivered_by in Hin as (? & _ & Hin);
      unfold sessionStarted_for, roomDeleted_for in Hin; discriminate Hin
    | apply elem_of_nil in Hin; contradiction ].

(** Closes a branch in which the handler only answered with an error. *)
Ltac only_error H Hin :=
  inversion H; subst; clear H;
  pose proof (elem_reply _ _ _ _ Hin) as [= ->];
  split; [reflexivity|exact (elem_reply_eq _ _ _ _ Hin)].

Lemma leaveRoom_no_error w s s1 out1 w' e :
  leaveRoom w s = Ok tt s1 out1 → (w', error e) ∉ out1.
Proof.
  intros H Hin. apply leaveRoom_cases in H
    as [(_ & _ & ->)|[(key & _ & _ & _ & ->)|[(key & r & _ & _ & _ & _ & ->)
       |(key & r & _ & _ & _ & _ & ->)]]]; no_error Hin.
Qed.

Lemma create_body_error w body rnd s s' out e :
  create_body w body rnd s = Ok tt s' out → (w, error e) ∈ out →
  s' = s ∧ out = [(w, error e)].
Proof.
  intros H Hin. destruct (required (b_userEmail body)) as [x|] eqn:He.
  - destruct (create_body_Ok _ _ _ _ _ _ _ He H) as (n & _ & _ & _ & ->).
    no_error Hin.
  - rewrite (create_body_refused _ _ _ _ He) in H. only_error H Hin.
Qed.

Lemma join_body_error w body s s' out e :
  join_body w body s = Ok tt s' out → (w, error e) ∈ out →
  s' = s ∧ out = [(w, error e)].
Proof.
  intros H Hin.
  destruct (required (b_roomCode body)) as [key|] eqn:Hk;
    [|rewrite join_body_required in H by auto; only_error H Hin].
  destruct (required (b_userEmail body)) as [x|] eqn:He;
    [|rewrite join_body_required in H by auto; only_error H Hin].
  destruct (rooms s !! key) as [r|] eqn:Hr.
  - destruct (decide (state r = started)) as [Hst|Hst].
    + rewrite (join_body_started _ _ _ _ _ _ Hk He Hr Hst) in H.
      only_error H Hin.
    + rewrite (join_body_joins _ _ _ _ _ _ Hk He Hr Hst) in H.
      inversion H; subst. no_error Hin.
  - destruct (inherited key) eqn:Hi.
    + rewrite (join_body_inherited _ _ _ _ _ Hk He) in H; [discriminate|].
      unfold rooms_get. now rewrite Hr, Hi.
    + rewrite (join_body_absent _ _ _ _ _ Hk He) in H
        by (unfold rooms_get; now rewrite Hr, Hi). only_error H Hin.
Qed.

Lemma on_startSession_error w body s s' out e :
  on_startSession w body s = Ok tt s' out → (w, error e) ∈ out →
  s' = s ∧ out = [(w, error e)].
Proof.
  intros H Hin. destruct (rooms s !! key_of (b_roomCode body)) as [r|] eqn:Hr.
  - destruct (decide (ws (owner r) = w)) as [Hw|Hw].
    + rewrite (on_startSession_owner _ _ _ _ Hr Hw) in H. inversion H; subst.
      no_error Hin.
    + rewrite (on_startSession_not_owner _ _ _ _ Hr Hw) in H. only_error H Hin.
  - destruct (inherited (key_of (b_roomCode body))) eqn:Hi.
    + rewrite on_startSession_inherited in H
        by (unfold rooms_get; now rewrite Hr, Hi). only_error H Hin.
    + rewrite on_startSession_absent in H
        by (unfold rooms_get; now rewrite Hr, Hi). only_error H Hin.
Qed.

Lemma on_reconnect_error w body s s' out e :
  on_reconnect w body s = Ok tt s' out → (w, error e) ∈ out →
  s' = s ∧ out = [(w, error e)].
Proof.
  intros H Hin.
  destruct (required (b_roomCode body)) as [key|] eqn:Hk;
    [|rewrite on_reconnect_required in H by auto; only_error H Hin].
  destruct (required (b_userEmail body)) as [x|] eqn:He;
    [|rewrite on_reconnect_required in H by auto; only_error H Hin].
  destruct (rooms s !! key) as [r|] eqn:Hr.
  - destruct (decide (state r = ended)) as [Hst|Hst];
      [rewrite (on_reconnect_ended _ _ _ _ _ _ Hk He Hr Hst) in H;
       only_error H Hin|].
    destruct (decide (email (owner r) = x)) as [Ho|Ho].
    + rewrite (on_reconnect_owner _ _ _ _ _ _ Hk He Hr Hst Ho) in H.
      inversion H; subst. no_error Hin.
    + rewrite (on_reconnect_client _ _ _ _ _ _ Hk He Hr Hst Ho) in H.
      inversion H; subst. no_error Hin.
  - destruct (inherited key) eqn:Hi.
    + rewrite (on_reconnect_inherited _ _ _ _ _ Hk He) in H; [discriminate|].
      unfold rooms_get. now rewrite Hr, Hi.
    + rewrite (on_reconnect_absent _ _ _ _ _ Hk He) in H
        by (unfold rooms_get; now rewrite Hr, Hi). only_error H Hin.
Qed.

Lemma on_deleteRoom_error w body s s' out e :
  on_deleteRoom w body s = Ok tt s' out → (w, error e) ∈ out →
  s' = s ∧ out = [(w, error e)].
Proof.
  intros H Hin.
  destruct (required (b_roomCode body)) as [key|] eqn:Hk;
    [|rewrite on_deleteRoom_required in H by auto; only_error H Hin].
  destruct (rooms s !! key) as [r|] eqn:Hr.
  - destruct (decide (ws (owner r) = w)) as [Hw|Hw].
    + rewrite (on_deleteRoom_owner _ _ _ _ _ Hk Hr Hw) in H.
      inversion H; subst. no_error Hin.
    + rewrite (on_deleteRoom_not_owner _ _ _ _ _ Hk Hr Hw) in H.
      only_error H Hin.
  - destruct (inherited key) eqn:Hi.
    + rewrite (on_deleteRoom_inherited _ _ _ _ Hk) in H; [discriminate|].
      unfold rooms_get. now rewrite Hr, Hi.
    + rewrite (on_deleteRoom_absent _ _ _ _ Hk) in H
        by (unfold rooms_get; now rewrite Hr, Hi). only_error H Hin.
Qed.

Lemma on_leaveRoom_error w s s' out e :
  on_leaveRoom w s = Ok tt s' out → (w, error e) ∈ out →
  (s' = s ∨ (e = "Room no longer exists" ∧ s' = tag_room w None s)) ∧
  out = [(w, error e)].
Proof.
  intros H Hin.
  destruct (required (room (conn w s))) as [key|] eqn:Hk;
    [|rewrite on_leaveRoom_untagged in H by auto; inversion H; subst; clear H;
      pose proof (elem_reply _ _ _ _ Hin) as [= ->];
      split; [now left|exact (elem_reply_eq _ _ _ _ Hin)]].
  destruct (rooms s !! key) as [r|] eqn:Hr.
  - destruct (decide (ws (owner r) = w)) as [Hw|Hw].
    + rewrite (on_leaveRoom_owner _ _ _ _ Hk Hr Hw) in H.
      inversion H; subst; clear H.
      pose proof (elem_reply _ _ _ _ Hin) as [= ->].
      split; [now left|exact (elem_reply_eq _ _ _ _ Hin)].
    + rewrite (on_leaveRoom_member _ _ _ _ Hk Hr Hw) in H.
      inversion H; subst. no_error Hin.
  - destruct (inherited key) eqn:Hi.
    + rewrite (on_leaveRoom_inherited _ _ _ Hk) in H; [discriminate|].
      unfold rooms_get. now rewrite Hr, Hi.
    + rewrite (on_leaveRoom_gone _ _ _ Hk) in H
        by (unfold rooms_get; now rewrite Hr, Hi).
      inversion H; subst; clear H.
      pose proof (elem_reply _ _ _ _ Hin) as [= ->].
      split; [now right|exact (elem_reply_eq _ _ _ _ Hin)].
Qed.

Lemma on_finishQuiz_error w body s s' out e :
  on_finishQuiz w body s = Ok tt s' out → (w, error e) ∈ out →
  s' = s ∧ out = [(w, error e)].
Proof.
  intros H Hin.
  destruct (required (b_roomCode body)) as [key|] eqn:Hk;
    [|rewrite on_finishQuiz_required in H by auto; only_error H Hin].
  destruct (required (b_userEmail body)) as [x|] eqn:He;
    [|rewrite on_finishQuiz_required in H by auto; only_error H Hin].
  destruct (b_score body) as [| | |score| |] eqn:Hs;
    try (rewrite on_finishQuiz_required in H by (rewrite Hs; auto);
         only_error H Hin).
  destruct (rooms s !! key) as [r|] eqn:Hr.
  - rewrite (on_finishQuiz_records _ _ _ _ _ _ _ Hk He Hs Hr) in H.
    inversion H; subst. no_error Hin.
  - destruct (inherited key) eqn:Hi.
    + rewrite (on_finishQuiz_inherited _ _ _ _ _ _ Hk He Hs) in H; [discriminate|].
      unfold rooms_get. now rewrite Hr, Hi.
    + rewrite (on_finishQuiz_absent _ _ _ _ _ _ Hk He Hs) in H
        by (unfold rooms_get; now rewrite Hr, Hi). only_error H Hin.
Qed.

Lemma on_message_error w body s s' out e :
  on_message w body s = Ok tt s' out → (w, error e) ∈ out →
  s' = s ∧ out = [(w, error e)].
Proof.
  intros H Hin.
  destruct (required (room (conn w s))) as [key|] eqn:Hk;
    [|rewrite on_message_untagged in H by auto; only_error H Hin].
  destruct (rooms s !! key) as [r|] eqn:Hr.
  - rewrite (on_message_relays _ _ _ _ _ Hk Hr) in H. inversion H; subst.
    no_error Hin.
  - destruct (inherited key) eqn:Hi.
    + rewrite (on_message_inherited _ _ _ _ Hk) in H; [discriminate|].
      unfold rooms_get. now rewrite Hr, Hi.
    + rewrite (on_message_gone _ _ _ _ Hk) in H
        by (unfold rooms_get; now rewrite Hr, Hi). only_error H Hin.
Qed.

Lemma dispatch_join w body rnd : dispatch w "join" body rnd = on_join w body.
Proof. reflexivity. Qed.

(** C3 (as amended): whenever a request is answered with an error, that
    error is all the handler itself transmits, and it changes no state,
    with two exceptions.  A refused [create] or [join] has already run the
    caller's implicit [leaveRoom]: the state is the one that leave
    produced (the caller removed from its room, or that room closed if the
    caller owned it), and the leave's notifications precede the error; if
    the caller was tagged with no room, nothing changed at all.  And a
    [leaveRoom] request for a room that no longer exists clears the
    caller's room tag. *)
Theorem C3_refused_request (s : Server) (w : nat) (action : string)
    (body : Body) (rnd : list N) (s' : Server) (out : list Sent) (e : string) :
  handle (inbound w (parsed action body) rnd) s = Ok tt s' out →
  (w, error e) ∈ out →
  if bool_decide (action = "create" ∨ action = "join") then
    ∃ out1, leaveRoom w s = Ok tt s' out1 ∧ out = out1 ++ [(w, error e)] ∧
            (required (room (conn w s)) = None → s' = s ∧ out1 = [])
  else
    out = [(w, error e)] ∧
    (s' = s ∨
     (action = "leaveRoom" ∧ e = "Room no longer exists" ∧ s' = tag_room w None s)).
Proof.
  intros H Hin. cbn [handle] in H. unfold dispatch in H.
  assert (Hleave : ∀ k : M unit,
    (∀ s1 s2 o, k s1 = Ok tt s2 o → (w, error e) ∈ o → s2 = s1 ∧ o = [(w, error e)]) →
    bind (leaveRoom w) (λ _, k) s = Ok tt s' out →
    ∃ out1, leaveRoom w s = Ok tt s' out1 ∧ out = out1 ++ [(w, error e)] ∧
            (required (room (conn w s)) = None → s' = s ∧ out1 = [])).
  { intros k Hk Hb.
    destruct (after_leave_Ok _ _ _ _ _ Hb) as (s1 & out1 & out2 & Hl & Hb2 & ->).
    apply elem_of_app in Hin as [Hin|Hin];
      [now apply (leaveRoom_no_error _ _ _ _ _ _ Hl) in Hin|].
    destruct (Hk _ _ _ Hb2 Hin) as [-> ->]. exists out1.
    split; [done|]. split; [done|]. intros Hnone.
    rewrite (leaveRoom_none _ _ Hnone) in Hl. now inversion Hl. }
  destruct (String.eqb action "create") eqn:E1.
  { apply String.eqb_eq in E1 as ->. rewrite bool_decide_true by auto.
    eapply Hleave; [|exact H]. intros; eapply create_body_error; eauto. }
  destruct (String.eqb action "join") eqn:E2.
  { apply String.eqb_eq in E2 as ->. rewrite bool_decide_true by auto.
    eapply Hleave; [|exact H]. intros; eapply join_body_error; eauto. }
  apply String.eqb_neq in E1, E2.
  rewrite bool_decide_false by (intros [?|?]; done).
  destruct (String.eqb action "startSession") eqn:E3;
    [destruct (on_startSession_error _ _ _ _ _ _ H Hin); auto|].
  destruct (String.eqb action "reconnect") eqn:E4;
    [destruct (on_reconnect_error _ _ _ _ _ _ H Hin); auto|].
  destruct (String.eqb action "deleteRoom") eqn:E5;
    [destruct (on_deleteRoom_error _ _ _ _ _ _ H Hin); auto|].
  destruct (String.eqb action "leaveRoom") eqn:E6.
  { apply String.eqb_eq in E6 as ->.
    destruct (on_leaveRoom_error _ _ _ _ _ H Hin) as [[->|[-> ->]] ->]; auto. }
  destruct (String.eqb action "finishQuiz") eqn:E7;
    [destruct (on_finishQuiz_error _ _ _ _ _ _ H Hin); auto|].
  destruct (String.eqb action "message") eqn:E8;
    [destruct (on_message_error _ _ _ _ _ _ H Hin); auto|].
  rewrite safeSend_eq in H. inversion H; subst.
  split; [exact (elem_reply_eq _ _ _ _ Hin)|now left].
Qed.

Lemma C3_refused_request_witness :
  ∃ out1,
    leaveRoom 2 ex_joined =
      Ok tt (untag 2 (store_room "1000" ex_room ex_joined)) out1 ∧
    [(2, error "userEmail required to create room")] =
      out1 ++ [(2, error "userEmail required to create room")] ∧
    (required (room (conn 2 ex_joined)) = None →
     untag 2 (store_room "1000" ex_room ex_joined) = ex_joined ∧ out1 = []).
Proof.
  apply (C3_refused_request ex_joined 2 "create"
           (request None None JUndefined JUndefined) []
           (untag 2 (store_room "1000" ex_room ex_joined))
           [(2, error "userEmail required to create room")]
           "userEmail required to create room").
  - vm_compute. reflexivity.
  - apply list_elem_of_singleton. reflexivity.
Defined.

(** C3 (counterexample): connection 2, a member of room "1000", sends
    [create] without [userEmail]; it gets the error, and it has been
    removed from the room's roster and lost both its tags. *)
Lemma C3_refused_create_leaves_room :
  ∃ s',
    handle (msg 2 "create" (request None None JUndefined JUndefined)) ex_joined =
      Ok tt s' [(2, error "userEmail required to create room")] ∧
    clients <$> rooms ex_joined !! "1000" = Some [{| ws := 2; email := "member@x" |}] ∧
    clients <$> rooms s' !! "1000" = Some [] ∧
    room (conn 2 ex_joined) = Some "1000" ∧ room (conn 2 s') = None ∧
    userEmail (conn 2 ex_joined) = Some "member@x" ∧ userEmail (conn 2 s') = None.
Proof. eexists. repeat split; vm_compute; reflexivity. Qed.

(** After the implicit leave, a room other connections own is still there
    in the same state; the caller's own room is gone. *)
Lemma leaveRoom_room w s s1 out1 key r :
  reachable s → leaveRoom w s = Ok tt s1 out1 → rooms s !! key = Some r →
  match rooms s1 !! key with
  | Some r1 => state r1 = state r
  | None => ws (owner r) = w
  end.
Proof.
  intros Hs Hl Hr.
  destruct (leaveRoom_step _ _ _ _ Hl) as (l & Hstep & _ & Hll & Hex & _).
  pose proof (core_step_room _ _ _ _ _ (reachable_Inv _ Hs) Hstep Hr) as Hroom.
  destruct (rooms s1 !! key) as [r1|].
  - destruct Hroom as [E|[[_ ->]|(_ & _ & ? & -> & _)]]; done.
  - subst l. cbn in Hex. destruct Hex as [[=]|[[=]|(? & ? & [=])]]. done.
Qed.

(** C4 (as amended): a [join] naming a started room is always answered
    with a validation error, and the join itself changes nothing: the
    resulting state is exactly the one the caller's implicit [leaveRoom]
    produced, so a caller tagged with no room leaves every roster, owner
    and tag as they were.  (The error is "Room does not exist" when the
    caller owned the room, which its implicit leave has just closed.) *)
Theorem C4_join_started_room (s : Server) (w : nat) (body : Body)
    (rnd : list N) (key : string) (r : Room) :
  reachable s →
  rooms s !! key = Some r →
  state r = started →
  b_roomCode body = Some key →
  ∃ s1 out1 e,
    leaveRoom w s = Ok tt s1 out1 ∧
    handle (inbound w (parsed "join" body) rnd) s =
      Ok tt s1 (out1 ++ reply s1 w (error e)) ∧
    (e = "roomCode and userEmail required to join"
     ∨ e = "Session already started, cannot join"
     ∨ (e = "Room does not exist" ∧ ws (owner r) = w)) ∧
    (required (room (conn w s)) = None → s1 = s ∧ out1 = []).
Proof.
  intros Hs Hr Hst Hb.
  destruct (leaveRoom_returns w s Hs) as (s1 & out1 & Hl).
  assert (Hc : code_ok key = true)
    by exact (room_code _ _ _ (inv_rooms _ (reachable_Inv _ Hs) _ _ Hr)).
  assert (Hnone : required (room (conn w s)) = None → s1 = s ∧ out1 = []).
  { intros Hn. rewrite (leaveRoom_none _ _ Hn) in Hl. now inversion Hl. }
  assert (Hk : required (b_roomCode body) = Some key)
    by (rewrite Hb; now apply code_ok_required).
  cbn [handle]. rewrite dispatch_join. unfold on_join.
  rewrite (bind_Ok _ _ _ _ _ _ Hl).
  destruct (required (b_userEmail body)) as [x|] eqn:He.
  - pose proof (leaveRoom_room _ _ _ _ _ _ Hs Hl Hr) as Hroom.
    destruct (rooms s1 !! key) as [r1|] eqn:Hr1.
    + rewrite (join_body_started _ _ _ _ _ _ Hk He Hr1) by congruence.
      exists s1, out1, "Session already started, cannot join".
      split; [done|]. split; [reflexivity|]. split; [auto|done].
    + rewrite (join_body_absent _ _ _ _ _ Hk He)
        by (unfold rooms_get; now rewrite Hr1, (code_ok_not_inherited _ Hc)).
      exists s1, out1, "Room does not exist".
      split; [done|]. split; [reflexivity|]. split; [auto|done].
  - rewrite join_body_required by auto.
    exists s1, out1, "roomCode and userEmail required to join".
    split; [done|]. split; [reflexivity|]. split; [auto|done].
Qed.

Lemma C4_join_started_room_witness :
  ∃ s1 out1 e,
    leaveRoom 2 ex_started = Ok tt s1 out1 ∧
    handle (inbound 2 (parsed "join" (request (Some "1000") (Some "member@x") JUndefined JUndefined)) [])
      ex_started = Ok tt s1 (out1 ++ reply s1 2 (error e)) ∧
    (e = "roomCode and userEmail required to join"
     ∨ e = "Session already started, cannot join"
     ∨ (e = "Room does not exist" ∧ ws (owner ex_room3) = 2)) ∧
    (required (room (conn 2 ex_started)) = None → s1 = ex_started ∧ out1 = []).
Proof.
  apply (C4_join_started_room ex_started 2
           (request (Some "1000") (Some "member@x") JUndefined JUndefined) []
           "1000" ex_room3 ex_started_reachable); vm_compute; reflexivity.
Defined.

(** C4 (counterexample): room "1000" is started with connection 2 on its
    roster; connection 2 sends [join] for that room, gets the error, and
    is no longer on the roster, its tags cleared. *)
Lemma C4_refused_join_leaves_room :
  state <$> rooms ex_started !! "1000" = Some started ∧
  ∃ s',
    handle (msg 2 "join" (request (Some "1000") (Some "member@x") JUndefined JUndefined))
      ex_started =
      Ok tt s' [(2, error "Session already started, cannot join")] ∧
    clients <$> rooms ex_started !! "1000" = Some [{| ws := 2; email := "member@x" |}] ∧
    clients <$> rooms s' !! "1000" = Some [] ∧
    room (conn 2 ex_started) = Some "1000" ∧ room (conn 2 s') = None ∧
    userEmail (conn 2 ex_started) = Some "member@x" ∧ userEmail (conn 2 s') = None.
Proof.
  split; [vm_compute; reflexivity|].
  eexists. repeat split; vm_compute; reflexivity.
Qed.

(** ** Rosters and roles (C5, C7) *)

Lemma ex_connected2_trace :
  trace ex_connect2 initial = Some (ex_connected2, [(1, created "1000" JNull)]).
Proof. vm_compute. reflexivity. Qed.

Lemma ex_connected2_reachable : reachable ex_connected2.
Proof. eapply trace_reachable; [apply reachable_initial|apply ex_connected2_trace]. Qed.

(** C5 (failing input): connection 2 joins room "1000" giving the owner's
    own email; [join] has no owner check (unlike [reconnect]), so the email
    is pushed onto the roster and a member now carries the owner's email. *)
Lemma C5_join_with_owner_email :
  reachable ex_connected2 ∧
  ∃ s' r,
    handle (msg 2 "join" (request (Some "1000") (Some "owner@x") JUndefined JUndefined))
      ex_connected2 =
      Ok tt s' [(2, joined "1000" JNull); (1, userJoined "owner@x" JUndefined)] ∧
    rooms s' !! "1000" = Some r ∧
    email (owner r) = "owner@x" ∧
    clients r = [{| ws := 2; email := "owner@x" |}] ∧
    email (owner r) ∈ emails (clients r).
Proof.
  split; [apply ex_connected2_reachable|].
  eexists _, _. split; [vm_compute; reflexivity|].
  split; [vm_compute; reflexivity|]. split; [reflexivity|].
  split; [reflexivity|]. apply list_elem_of_singleton. reflexivity.
Qed.

(** In every reachable room the members' emails are pairwise distinct, and
    the owner and all members have non-empty emails. *)
Lemma reachable_roster_ok (s : Server) (key : string) (r : Room) :
  reachable s → rooms s !! key = Some r → roster_ok r.
Proof.
  intros Hs Hr. exact (room_roster _ _ _ (inv_rooms _ (reachable_Inv _ Hs) _ _ Hr)).
Qed.

(** In every reachable room a timer exists exactly when the state is
    [started]. *)
Lemma reachable_timer_iff_started (s : Server) (key : string) (r : Room) :
  reachable s → rooms s !! key = Some r → (is_Some (timer r) ↔ state r = started).
Proof.
  intros Hs Hr. exact (room_timer _ _ _ (inv_rooms _ (reachable_Inv _ Hs) _ _ Hr)).
Qed.

(** Every code of a reachable room has exactly four digits. *)
Lemma reachable_room_code (s : Server) (key : string) (r : Room) :
  reachable s → rooms s !! key = Some r → four_digits key = true.
Proof.
  intros Hs Hr. apply code_ok_four_digits.
  exact (room_code _ _ _ (inv_rooms _ (reachable_Inv _ Hs) _ _ Hr)).
Qed.

Lemma truthy_required v : str_truthy v = true → required (Some v) = Some v.
Proof. intros H. cbn. now rewrite H. Qed.

Lemma str_truthy_ne v : v ≠ "" → str_truthy v = true.
Proof. intros H. unfold str_truthy. now rewrite (proj2 (String.eqb_neq _ _) H). Qed.

(** With distinct emails, the member found by email is the one at the
    given position. *)
Lemma rebind_at cs i c w :
  NoDup (emails cs) → cs !! i = Some c →
  rebind_or_push w (email c) cs = <[i := {| ws := w; email := email c |}]> cs.
Proof.
  intros Hd Hi. unfold rebind_or_push.
  destruct (list_find (λ x, email x = email c) cs) as [[j x]|] eqn:Hf.
  - apply list_find_Some in Hf as (Hj & Hx & _).
    assert (j = i) as ->.
    { eapply NoDup_lookup; [exact Hd| |]; unfold emails;
        rewrite list_lookup_fmap; [rewrite Hj|rewrite Hi]; cbn;
        [rewrite Hx|]; reflexivity. }
    rewrite Hi in Hj. now injection Hj as <-.
  - rewrite list_find_None, Forall_forall in Hf. exfalso.
    apply (Hf c); [eapply list_elem_of_lookup_2; eauto|done].
Qed.

Lemma push_unknown cs w e :
  e ∉ emails cs →
  rebind_or_push w e cs = cs ++ [{| ws := w; email := e |}].
Proof.
  intros Hn. unfold rebind_or_push.
  destruct (list_find (λ x, email x = e) cs) as [[j x]|] eqn:Hf; [|done].
  apply list_find_Some in Hf as (Hj & Hx & _). exfalso. apply Hn.
  apply list_elem_of_fmap. exists x. split; [done|].
  eapply list_elem_of_lookup_2; eauto.
Qed.

Lemma dispatch_reconnect w body rnd :
  dispatch w "reconnect" body rnd = on_reconnect w body.
Proof. reflexivity. Qed.

(** C7 (failing input): connection 2 sends [reconnect] for the code
    "constructor".  No room is stored under it, yet [rooms["constructor"]]
    is the function every object inherits, so the [!room] test passes and
    reading [room.owner.email] throws: the caller gets no error reply and
    the handler ends with an uncaught exception. *)
Lemma C7_reconnect_absent_code_throws :
  reachable ex_joined ∧
  rooms ex_joined !! "constructor" = None ∧
  readyOpen (conn 2 ex_joined) = true ∧
  handle (msg 2 "reconnect" (request (Some "constructor") (Some "member@x") JUndefined JUndefined))
    ex_joined = Thrown [].
Proof.
  split; [apply ex_joined_reachable|].
  split; [reflexivity|]. split; [reflexivity|]. vm_compute. reflexivity.
Qed.

(** X9: in a reachable server, for a room that is not [ended], a
    [reconnect] naming it (1) with the owner's email binds the owner to the
    caller's connection, roster untouched, and replies with role [owner];
    (2) with the email of a member binds that member, in place, to the
    caller's connection and replies with role [client]; (3) with a
    non-empty email that is neither the owner's nor a member's appends a
    new member bound to the caller's connection and replies with role
    [client].  A [reconnect] naming an [ended] room, or a code under which
    the room table yields nothing, changes nothing and is answered with an
    error. *)
Theorem reconnect_roles (s : Server) (w : nat) (body : Body) (rnd : list N)
    (key userEmail : string) :
  reachable s →
  b_roomCode body = Some key →
  b_userEmail body = Some userEmail →
  let res := handle (inbound w (parsed "reconnect" body) rnd) s in
  let tagged := tag_room w (Some key) (tag_userEmail w (Some userEmail) s) in
  let answer r role :=
    reply s w (reconnected (quiz r) role (state r) (remaining_or_null r)) in
  (∀ r, rooms s !! key = Some r → state r ≠ ended →
     email (owner r) = userEmail →
     res = Ok tt (store_room key (set_owner {| ws := w; email := userEmail |} r) tagged)
             (answer r role_owner)) ∧
  (∀ r i c, rooms s !! key = Some r → state r ≠ ended →
     email (owner r) ≠ userEmail →
     clients r !! i = Some c → email c = userEmail →
     res = Ok tt (store_room key
                    (set_clients (<[i := {| ws := w; email := userEmail |}]> (clients r)) r)
                    tagged)
             (answer r role_client)) ∧
  (∀ r, rooms s !! key = Some r → state r ≠ ended →
     email (owner r) ≠ userEmail →
     userEmail ∉ emails (clients r) → userEmail ≠ "" →
     res = Ok tt (store_room key
                    (set_clients (clients r ++ [{| ws := w; email := userEmail |}]) r)
                    tagged)
             (answer r role_client)) ∧
  (∀ r, rooms s !! key = Some r → state r = ended →
     ∃ e, res = Ok tt s (reply s w (error e))) ∧
  (rooms_get key s = Missing →
     ∃ e, res = Ok tt s (reply s w (error e))).
Proof.
  intros Hs Hb He res tagged answer. unfold res. cbn [handle].
  rewrite dispatch_reconnect. pose proof (reachable_Inv _ Hs) as HI.
  assert (Hkey : ∀ r, rooms s !! key = Some r → required (b_roomCode body) = Some key).
  { intros r Hr. rewrite Hb. apply code_ok_required.
    exact (room_code _ _ _ (inv_rooms _ HI _ _ Hr)). }
  split; [|split; [|split; [|split]]].
  - intros r Hr Hst Ho.
    destruct (reachable_roster_ok _ _ _ Hs Hr) as [Hon _ _].
    assert (Hue : required (b_userEmail body) = Some userEmail)
      by (rewrite He; apply truthy_required; congruence).
    rewrite (on_reconnect_owner _ _ _ _ _ _ (Hkey _ Hr) Hue Hr Hst Ho).
    unfold after_reconnect_owner. now rewrite Ho.
  - intros r i c Hr Hst Ho Hi Hc.
    destruct (reachable_roster_ok _ _ _ Hs Hr) as [_ Hmn Hmd].
    assert (Hue : required (b_userEmail body) = Some userEmail).
    { rewrite He. apply truthy_required. rewrite <- Hc.
      rewrite Forall_forall in Hmn. apply Hmn.
      eapply list_elem_of_lookup_2; eauto. }
    rewrite (on_reconnect_client _ _ _ _ _ _ (Hkey _ Hr) Hue Hr Hst Ho).
    unfold after_join. subst userEmail. now rewrite (rebind_at _ _ _ _ Hmd Hi).
  - intros r Hr Hst Ho Hn Hne.
    assert (Hue : required (b_userEmail body) = Some userEmail)
      by (rewrite He; apply truthy_required; now apply str_truthy_ne).
    rewrite (on_reconnect_client _ _ _ _ _ _ (Hkey _ Hr) Hue Hr Hst Ho).
    unfold after_join. now rewrite (push_unknown _ _ _ Hn).
  - intros r Hr Hst.
    destruct (required (b_userEmail body)) as [x|] eqn:Hue.
    + rewrite (on_reconnect_ended _ _ _ _ _ _ (Hkey _ Hr) Hue Hr Hst). eauto.
    + rewrite on_reconnect_required by auto. eauto.
  - intros Hm.
    destruct (required (b_roomCode body)) as [k|] eqn:Hk;
      [|rewrite on_reconnect_required by auto; eauto].
    destruct (required (b_userEmail body)) as [x|] eqn:Hue;
      [|rewrite on_reconnect_required by auto; eauto].
    assert (k = key) as ->.
    { rewrite Hb in Hk. cbn in Hk. destruct (str_truthy key); congruence. }
    rewrite (on_reconnect_absent _ _ _ _ _ Hk Hue Hm). eauto.
Qed.

Lemma reconnect_roles_witness :
  let reconnect s e :=
    handle (inbound 2 (parsed "reconnect" (request (Some "1000") (Some e) JUndefined JUndefined)) []) s in
  let tagged e := tag_room 2 (Some "1000") (tag_userEmail 2 (Some e) ex_joined) in
  reconnect ex_joined "owner@x" =
    Ok tt (store_room "1000" (set_owner {| ws := 2; email := "owner@x" |} ex_room2)
             (tagged "owner@x"))
       [(2, reconnected JNull role_owner waiting JNull)] ∧
  reconnect ex_joined "member@x" =
    Ok tt (store_room "1000"
             (set_clients [{| ws := 2; email := "member@x" |}] ex_room2)
             (tagged "member@x"))
       [(2, reconnected JNull role_client waiting JNull)] ∧
  reconnect ex_joined "new@x" =
    Ok tt (store_room "1000"
             (set_clients [{| ws := 2; email := "member@x" |};
                           {| ws := 2; email := "new@x" |}] ex_room2)
             (tagged "new@x"))
       [(2, reconnected JNull role_client waiting JNull)] ∧
  (∃ e, reconnect ex_ended "member@x" = Ok tt ex_ended (reply ex_ended 2 (error e))).
Proof.
  intros reconnect tagged.
  destruct (reconnect_roles ex_joined 2
              (request (Some "1000") (Some "owner@x") JUndefined JUndefined) []
              "1000" "owner@x" ex_joined_reachable eq_refl eq_refl)
    as (H1 & _).
  destruct (reconnect_roles ex_joined 2
              (request (Some "1000") (Some "member@x") JUndefined JUndefined) []
              "1000" "member@x" ex_joined_reachable eq_refl eq_refl)
    as (_ & H2 & _).
  destruct (reconnect_roles ex_joined 2
              (request (Some "1000") (Some "new@x") JUndefined JUndefined) []
              "1000" "new@x" ex_joined_reachable eq_refl eq_refl)
    as (_ & _ & H3 & _).
  destruct (reconnect_roles ex_ended 2
              (request (Some "1000") (Some "member@x") JUndefined JUndefined) []
              "1000" "member@x" ex_ended_reachable eq_refl eq_refl)
    as (_ & _ & _ & H4 & _).
  split; [|split; [|split]].
  - apply (H1 ex_room2); [reflexivity|discriminate|reflexivity].
  - apply (H2 ex_room2 0 {| ws := 2; email := "member@x" |});
      [reflexivity|discriminate|discriminate|reflexivity|reflexivity].
  - apply (H3 ex_room2); [reflexivity|discriminate|discriminate| |discriminate].
    intros Hin. apply list_elem_of_singleton in Hin. discriminate.
  - apply (H4 (set_state ended (set_timer None ex_room3))); reflexivity.
Defined.

(** ** Scores (C10) *)

Lemma dispatch_finishQuiz w body rnd :
  dispatch w "finishQuiz" body rnd = on_finishQuiz w body.
Proof. reflexivity. Qed.

(** C10 (failing input): connection 2 submits a score for room "1000"
    under the identity "__proto__".  The request succeeds and the owner is
    notified, but [finished["__proto__"] = 7] assigns to the prototype
    accessor, which ignores a number: the score table is created and stays
    empty, so no score is recorded under that email. *)
Lemma C10_proto_score_not_recorded :
  ∃ s' r,
    handle (msg 2 "finishQuiz" (request (Some "1000") (Some "__proto__") JUndefined (JNum 7%float)))
      ex_joined =
      Ok tt s' [(1, userFinished "__proto__" 7%float 0%float)] ∧
    rooms s' !! "1000" = Some r ∧
    finished r = Some ∅ ∧
    (default ∅ (finished r)) !! "__proto__" = None.
Proof.
  eexists _, _. split; [vm_compute; reflexivity|].
  split; [vm_compute; reflexivity|]. split; reflexivity.
Qed.

(** X4: For every other identity, [finishQuiz] records the score whatever the
    room's state and whoever the caller is, and notifies the owner's
    connection only, with remaining time 0 unless a timer with a non-zero
    remaining time is running. *)
Theorem finishQuiz_records (s : Server) (w : nat) (body : Body) (rnd : list N)
    (key userEmail : string) (score : number) (r : Room) :
  rooms s !! key = Some r →
  required (b_roomCode body) = Some key →
  required (b_userEmail body) = Some userEmail →
  b_score body = JNum score →
  userEmail ≠ "__proto__" →
  let r' := set_finished (Some (<[userEmail := score]> (default ∅ (finished r)))) r in
  handle (inbound w (parsed "finishQuiz" body) rnd) s =
    Ok tt (store_room key r' s)
       (reply s (ws (owner r)) (userFinished userEmail score (remaining_or_zero r))) ∧
  default ∅ (finished r') !! userEmail = Some score ∧
  (timer r = None → remaining_or_zero r = 0%float) ∧
  (∀ t, timer r = Some t → num_truthy (timeRemaining t) = false →
        remaining_or_zero r = 0%float).
Proof.
  intros Hr Hk He Hs Hne r'. cbn [handle]. rewrite dispatch_finishQuiz.
  rewrite (on_finishQuiz_records _ _ _ _ _ _ _ Hk He Hs Hr).
  unfold after_finish, obj_set.
  rewrite (proj2 (String.eqb_neq _ _) Hne).
  split; [reflexivity|]. split; [apply lookup_insert_eq|].
  unfold remaining_or_zero. split; [now intros ->|].
  intros t -> Hz. now rewrite Hz.
Qed.

Lemma finishQuiz_records_witness :
  let r' := set_finished (Some (<["stranger@x" := 7%float]> ∅)) ex_room3 in
  handle (inbound 3 (parsed "finishQuiz" (request (Some "1000") (Some "stranger@x") JUndefined (JNum 7%float))) [])
    ex_started =
    Ok tt (store_room "1000" r' ex_started)
       [(1, userFinished "stranger@x" 7%float 1%float)] ∧
  default ∅ (finished r') !! "stranger@x" = Some 7%float.
Proof.
  intros r'.
  destruct (finishQuiz_records ex_started 3
              (request (Some "1000") (Some "stranger@x") JUndefined (JNum 7%float)) []
              "1000" "stranger@x" 7%float ex_room3)
    as (H1 & H2 & _); [reflexivity..|discriminate|].
  split; [exact H1|exact H2].
Defined.

(** ** Inherited property names *)



(** ** Further properties of reachable servers *)



(** X2: In every reachable room a timer exists exactly when the state is
    [started]. *)
Theorem timer_iff_started (s : Server) (key : string) (r : Room) :
  reachable s → rooms s !! key = Some r →
  (timer r ≠ None ↔ state r = started).
Proof.
  intros Hs Hr. rewrite <- (reachable_timer_iff_started _ _ _ Hs Hr).
  destruct (timer r); split; try done; intros [? [=]].
Qed.

Lemma timer_iff_started_witness :
  timer ex_room3 ≠ None ↔ state ex_room3 = started.
Proof.
  apply (timer_iff_started ex_started "1000" ex_room3 ex_started_reachable).
  reflexivity.
Defined.

(** X3: In a reachable server every live interval is the one of the timer of
    the room its callback closed over, that room is [started], and the
    callback returns: it never meets a missing timer. *)
Theorem live_interval_has_timer (s : Server) (i : nat) (key : string) :
  reachable s → intervals s !! i = Some key →
  ∃ r t, rooms s !! key = Some r ∧ timer r = Some t ∧ interval t = i ∧
         state r = started ∧
         handle (tick i) s =
           Ok tt (after_tick key r t s)
              (delivered s (owner r :: clients r)
                 (timerTick (PrimFloat.sub (timeRemaining t) 1%float)) ++
               if PrimFloat.leb (PrimFloat.sub (timeRemaining t) 1%float) 0%float
               then delivered s (owner r :: clients r) sessionEnded else []).
Proof.
  intros Hs Hi.
  destruct (live_interval_room _ _ _ Hs Hi) as (r & t & Hr & Ht & Hit & Hst).
  exists r, t. repeat split; try done. apply (tick_after _ _ _ _ _ Hi Hr Ht).
Qed.

Lemma live_interval_has_timer_witness :
  ∃ r t, rooms ex_started !! "1000" = Some r ∧ timer r = Some t ∧ interval t = 0 ∧
         state r = started ∧
         handle (tick 0) ex_started =
           Ok tt (after_tick "1000" r t ex_started)
              (delivered ex_started (owner r :: clients r)
                 (timerTick (PrimFloat.sub (timeRemaining t) 1%float)) ++
               if PrimFloat.leb (PrimFloat.sub (timeRemaining t) 1%float) 0%float
               then delivered ex_started (owner r :: clients r) sessionEnded else []).
Proof.
  apply (live_interval_has_timer ex_started 0 "1000" ex_started_reachable).
  reflexivity.
Defined.

(** X6: In a reachable server [leaveRoom] never throws, and neither does the
    handler of a close event. *)
Theorem leaveRoom_never_throws (s : Server) (w : nat) :
  reachable s →
  (∃ s1 out1, leaveRoom w s = Ok tt s1 out1) ∧
  (∃ s1 out1, handle (close w) s = Ok tt s1 out1).
Proof.
  intros Hs. split; [now apply leaveRoom_returns|].
  cbn [handle]. unfold set_ws_ready. rewrite bind_modify.
  destruct (required (room (conn w (tag_ready w false s)))) as [key|] eqn:Hreq.
  - assert (Hc : code_ok key = true).
    { destruct (room (conn w (tag_ready w false s))) as [k|] eqn:Hk; [|discriminate].
      cbn in Hreq. destruct (str_truthy k); [|discriminate].
      injection Hreq as <-. rewrite room_tag_ready in Hk.
      eapply reachable_tags_ok; eauto. }
    destruct (rooms s !! key) as [r|] eqn:Hr.
    + destruct (decide (ws (owner r) = w)) as [Hw|Hw].
      * rewrite (leaveRoom_owner _ _ key r Hreq Hr Hw). eauto.
      * rewrite (leaveRoom_member _ _ key r Hreq Hr Hw). eauto.
    + rewrite (leaveRoom_missing _ _ _ Hreq); [eauto|].
      unfold rooms_get. cbn [tag_ready with_conns rooms].
      now rewrite Hr, (code_ok_not_inherited _ Hc).
  - rewrite (leaveRoom_none _ _ Hreq). eauto.
Qed.

Lemma leaveRoom_never_throws_witness :
  (∃ s1 out1, leaveRoom 1 ex_joined = Ok tt s1 out1) ∧
  (∃ s1 out1, handle (close 1) ex_joined = Ok tt s1 out1).
Proof. apply (leaveRoom_never_throws ex_joined 1 ex_joined_reachable). Defined.

(** X7: The code of every room of a reachable server has exactly four decimal
    digits. *)
Theorem room_codes_four_digits (s : Server) (key : string) (r : Room) :
  reachable s → rooms s !! key = Some r → four_digits key = true.
Proof. apply reachable_room_code. Qed.

Lemma room_codes_four_digits_witness : four_digits "1000" = true.
Proof.
  apply (room_codes_four_digits ex_joined "1000" ex_room2 ex_joined_reachable).
  reflexivity.
Defined.

(** X8: The code generation loop of [create] returns, changing no state, as
    soon as one draw gives a code the table holds nothing under. *)
Theorem create_loop_returns (s : Server) (rnd : list N) (n : N) :
  n ∈ rnd → rooms_get (toString n) s = Missing →
  ∃ c, gen_roomCode rnd s = Ok c s [].
Proof. apply gen_roomCode_returns. Qed.

Lemma create_loop_returns_witness :
  ∃ c, gen_roomCode [1000%N; 1001%N] ex_joined = Ok c ex_joined [].
Proof.
  apply (create_loop_returns ex_joined [1000%N; 1001%N] 1001%N).
  - apply list_elem_of_In. right; left. reflexivity.
  - vm_compute. reflexivity.
Defined.

(** ** Deleting and closing rooms *)

Lemma reachable_required_code s key r :
  reachable s → rooms s !! key = Some r → required (Some key) = Some key.
Proof.
  intros Hs Hr. apply code_ok_required.
  exact (room_code _ _ _ (inv_rooms _ (reachable_Inv _ Hs) _ _ Hr)).
Qed.

(** A live interval of a room is the one its timer holds. *)
Lemma live_interval_is_timer s i key r :
  Inv s → intervals s !! i = Some key → rooms s !! key = Some r →
  ∃ t, timer r = Some t ∧ interval t = i.
Proof.
  intros HI Hi Hr. destruct (inv_live _ HI _ _ Hi) as (r' & t & Hr' & Ht & Hit).
  rewrite Hr in Hr'. injection Hr' as <-. eauto.
Qed.

Lemma close_room_no_interval s key r i :
  Inv s → rooms s !! key = Some r →
  intervals (close_room key r s) !! i ≠ Some key.
Proof.
  intros HI Hr. rewrite intervals_close_room. intros Hi.
  destruct (timer r) as [t|] eqn:Ht.
  - rewrite lookup_delete in Hi. case_decide as E; [discriminate|].
    destruct (live_interval_is_timer _ _ _ _ HI Hi Hr) as (t' & Ht' & Hit).
    rewrite Ht in Ht'. injection Ht' as <-. congruence.
  - destruct (live_interval_is_timer _ _ _ _ HI Hi Hr) as (t' & Ht' & _).
    congruence.
Qed.

Lemma close_room_other_interval s key r i key' :
  Inv s → rooms s !! key = Some r → key' ≠ key →
  intervals (close_room key r s) !! i = Some key' ↔ intervals s !! i = Some key'.
Proof.
  intros HI Hr Hne. rewrite intervals_close_room.
  destruct (timer r) as [t|] eqn:Ht; [|done].
  rewrite lookup_delete. case_decide as E; [|done]. subst i.
  rewrite (room_interval _ _ _ (inv_rooms _ HI _ _ Hr) _ Ht).
  split; [discriminate|]. intros [= ->]. done.
Qed.

Lemma conns_close_room key r s : conns (close_room key r s) = conns s.
Proof. unfold close_room. now destruct (timer r). Qed.

(** X10: in a reachable server, [deleteRoom] sent by the connection of the
    room's owner notifies the owner and every member whose connection is
    open with [roomDeleted] (flagged [owner] exactly on the owner's
    connection), removes the room and cancels its interval, so that no live
    interval is left for that code, and touches no other interval and no
    connection: the members keep their room tag. *)
Theorem deleteRoom_by_owner (s : Server) (w : nat) (body : Body) (rnd : list N)
    (key : string) (r : Room) :
  reachable s →
  b_roomCode body = Some key →
  rooms s !! key = Some r →
  ws (owner r) = w →
  ∃ s',
    handle (inbound w (parsed "deleteRoom" body) rnd) s =
      Ok tt s' (delivered_by s (owner r :: clients r) (roomDeleted_for key r)) ∧
    rooms s' = delete key (rooms s) ∧
    conns s' = conns s ∧
    (∀ i, intervals s' !! i ≠ Some key) ∧
    (∀ i key', key' ≠ key →
       intervals s' !! i = Some key' ↔ intervals s !! i = Some key').
Proof.
  intros Hs Hb Hr Hw. exists (close_room key r s).
  pose proof (reachable_Inv _ Hs) as HI.
  split.
  - cbn [handle]. change (dispatch w "deleteRoom" body rnd) with (on_deleteRoom w body).
    apply on_deleteRoom_owner; [|done..].
    rewrite Hb. eapply reachable_required_code; eauto.
  - split; [apply rooms_close_room|]. split; [apply conns_close_room|].
    split; [intros i; now apply close_room_no_interval|].
    intros i key' Hne. now apply close_room_other_interval.
Qed.

Lemma deleteRoom_by_owner_witness :
  ∃ s',
    handle (inbound 1 (parsed "deleteRoom" (request (Some "1000") None JUndefined JUndefined)) []) ex_started =
      Ok tt s' (delivered_by ex_started (owner ex_room3 :: clients ex_room3)
                  (roomDeleted_for "1000" ex_room3)) ∧
    rooms s' = delete "1000" (rooms ex_started) ∧
    conns s' = conns ex_started ∧
    (∀ i, intervals s' !! i ≠ Some "1000") ∧
    (∀ i key', key' ≠ "1000" →
       intervals s' !! i = Some key' ↔ intervals ex_started !! i = Some key').
Proof.
  apply (deleteRoom_by_owner ex_started 1
           (request (Some "1000") None JUndefined JUndefined) [] "1000" ex_room3
           ex_started_reachable); reflexivity.
Defined.

Lemma on_startSession_keeps w body s s' out key r :
  on_startSession w body s = Ok tt s' out →
  rooms s !! key = Some r → is_Some (rooms s' !! key).
Proof.
  intros H Hk. destruct (rooms s !! key_of (b_roomCode body)) as [x|] eqn:Hr.
  - destruct (decide (ws (owner x) = w)) as [Hw|Hw].
    + rewrite (on_startSession_owner _ _ _ _ Hr Hw) in H. inversion H; subst.
      unfold after_start. cbn [rooms]. rewrite lookup_insert. case_decide; eauto.
    + rewrite (on_startSession_not_owner _ _ _ _ Hr Hw) in H.
      inversion H; subst. eauto.
  - destruct (inherited (key_of (b_roomCode body))) eqn:Hi.
    + rewrite on_startSession_inherited in H
        by (unfold rooms_get; now rewrite Hr, Hi). inversion H; subst. eauto.
    + rewrite on_startSession_absent in H
        by (unfold rooms_get; now rewrite Hr, Hi). inversion H; subst. eauto.
Qed.

(** A step that is no [closed] step keeps every room's code in the table. *)
Lemma core_step_keeps l s s' key r :
  Inv s → core_step l s s' → rooms s !! key = Some r →
  (∀ k w, l ≠ closed k w) → is_Some (rooms s' !! key).
Proof.
  intros HI H Hr Hl. pose proof (core_step_room _ _ _ _ _ HI H Hr) as Hc.
  destruct (rooms s' !! key); [eauto|]. now apply Hl in Hc.
Qed.

Lemma plain_not_closed l k w : plain l → l ≠ closed k w.
Proof. now destruct l. Qed.

Lemma entry_not_closed l k w : entry_like l → l ≠ closed k w.
Proof. now destruct l. Qed.

Lemma leave_closes w s s1 o key r :
  Inv s → leaveRoom w s = Ok tt s1 o →
  rooms s !! key = Some r → rooms s1 !! key = None → ws (owner r) = w.
Proof.
  intros HI Hl Hr Hn.
  destruct (leaveRoom_step _ _ _ _ Hl) as (l1 & H1 & _ & _ & He & _).
  pose proof (core_step_room _ _ _ _ _ HI H1 Hr) as Hc. rewrite Hn in Hc.
  subst l1. cbn in He. destruct He as [[= ->]|[?|(?&?&?)]]; done.
Qed.

Lemma leave_Inv w s s1 o : Inv s → leaveRoom w s = Ok tt s1 o → Inv s1.
Proof.
  intros HI Hl. destruct (leaveRoom_step _ _ _ _ Hl) as (l1 & H1 & _).
  eauto using Inv_core_step.
Qed.

(** X11: a room leaves the table only through the connection of its owner:
    when a reachable server handles an event after which the code of a room
    is free, the event is the close or the error of the owner's connection,
    or a [deleteRoom], [create] or [join] request that this connection
    sent. *)
Theorem room_removed_by_owner_connection (s : Server) (ev : Event) (s' : Server)
    (out : list Sent) (key : string) (r : Room) :
  reachable s → deliverable s ev → handle ev s = Ok tt s' out →
  rooms s !! key = Some r → rooms s' !! key = None →
  ev = close (ws (owner r)) ∨ ev = socket_error (ws (owner r)) ∨
  ∃ action body rnd,
    ev = inbound (ws (owner r)) (parsed action body) rnd ∧
    (action = "deleteRoom" ∨ action = "create" ∨ action = "join").
Proof.
  intros Hs Hd H Hr Hn. pose proof (reachable_Inv _ Hs) as HI.
  assert (Hex : ∀ x, rooms s' !! key = Some x → False) by (intros x; congruence).
  destruct ev as [w|w [| |action body] rnd|w|w|i].
  - cbn [handle] in H. inversion H; subst. cbn in Hn. congruence.
  - cbn [handle] in H. inversion H; subst. congruence.
  - discriminate.
  - cbn [handle] in H. unfold dispatch in H. destruct Hd as [_ Hrnd].
    destruct (String.eqb action "create") eqn:E1.
    { apply String.eqb_eq in E1 as ->.
      destruct (after_leave_Ok _ _ _ _ _ H) as (s1 & out1 & out2 & Hl & Hb & ->).
      destruct (rooms s1 !! key) as [r1|] eqn:Hr1.
      - destruct (create_body_step _ _ _ _ _ _ Hrnd Hb) as (l2 & H2 & _ & Hl2 & _).
        destruct (core_step_keeps _ _ _ _ _ (leave_Inv _ _ _ _ HI Hl) H2 Hr1)
          as [x Hx]; [intros; now apply entry_not_closed|]. now apply Hex in Hx.
      - rewrite (leave_closes _ _ _ _ _ _ HI Hl Hr Hr1). right; right. eauto 10. }
    destruct (String.eqb action "join") eqn:E2.
    { apply String.eqb_eq in E2 as ->.
      destruct (after_leave_Ok _ _ _ _ _ H) as (s1 & out1 & out2 & Hl & Hb & ->).
      destruct (rooms s1 !! key) as [r1|] eqn:Hr1.
      - destruct (join_body_step _ _ _ _ _ Hb) as (l2 & H2 & _ & Hl2).
        destruct (core_step_keeps _ _ _ _ _ (leave_Inv _ _ _ _ HI Hl) H2 Hr1)
          as [x Hx]; [intros; now apply plain_not_closed|]. now apply Hex in Hx.
      - rewrite (leave_closes _ _ _ _ _ _ HI Hl Hr Hr1). right; right. eauto 10. }
    destruct (String.eqb action "startSession") eqn:E3.
    { destruct (on_startSession_keeps _ _ _ _ _ _ _ H Hr) as [x Hx].
      now apply Hex in Hx. }
    destruct (String.eqb action "reconnect") eqn:E4.
    { destruct (on_reconnect_step _ _ _ _ _ H) as (l & Hl & _ & Hp).
      destruct (core_step_keeps _ _ _ _ _ HI Hl Hr) as [x Hx];
        [intros; now apply plain_not_closed|]. now apply Hex in Hx. }
    destruct (String.eqb action "deleteRoom") eqn:E5.
    { apply String.eqb_eq in E5 as ->.
      destruct (on_deleteRoom_step _ _ rnd "deleteRoom" _ _ _ H) as (l & Hl & _ & He).
      pose proof (core_step_room _ _ _ _ _ HI Hl Hr) as Hc. rewrite Hn in Hc.
      subst l. cbn in He.
      destruct He as [?|[?|(data & rnd' & [= -> <- <-])]]; try discriminate.
      right; right. eauto 10. }
    destruct (String.eqb action "leaveRoom") eqn:E6.
    { destruct (on_leaveRoom_step _ _ _ _ H) as (l & Hl & _ & Hp).
      destruct (core_step_keeps _ _ _ _ _ HI Hl Hr) as [x Hx];
        [intros; now apply plain_not_closed|]. now apply Hex in Hx. }
    destruct (String.eqb action "finishQuiz") eqn:E7.
    { destruct (on_finishQuiz_step _ _ _ _ _ H) as (l & Hl & _ & Hp).
      destruct (core_step_keeps _ _ _ _ _ HI Hl Hr) as [x Hx];
        [intros; now apply plain_not_closed|]. now apply Hex in Hx. }
    destruct (String.eqb action "message") eqn:E8.
    { apply on_message_step in H as ->. congruence. }
    rewrite safeSend_eq in H. inversion H; subst. congruence.
  - cbn [handle] in H. apply set_ready_leave_Ok in H.
    assert (HI0 : Inv (tag_ready w false s))
      by (eapply Inv_same_core; [|exact HI]; now repeat split).
    left. f_equal. symmetry. eapply (leave_closes w); eauto.
  - cbn [handle] in H. apply set_ready_leave_Ok in H.
    assert (HI0 : Inv (tag_ready w false s))
      by (eapply Inv_same_core; [|exact HI]; now repeat split).
    right; left. f_equal. symmetry. eapply (leave_closes w); eauto.
  - destruct (tick_step _ _ _ _ H) as (l & Hl & _ & He).
    pose proof (core_step_room _ _ _ _ _ HI Hl Hr) as Hc. rewrite Hn in Hc.
    subst l. cbn in He. destruct He as [?|[?|(?&?&?)]]; discriminate.
Qed.

Lemma room_removed_by_owner_connection_witness :
  close 1 = close (ws (owner ex_room2)) ∨
  close 1 = socket_error (ws (owner ex_room2)) ∨
  ∃ action body rnd,
    close 1 = inbound (ws (owner ex_room2)) (parsed action body) rnd ∧
    (action = "deleteRoom" ∨ action = "create" ∨ action = "join").
Proof.
  eapply (room_removed_by_owner_connection ex_joined (close 1) _ _ "1000" ex_room2
            ex_joined_reachable).
  - vm_compute. eauto.
  - vm_compute. reflexivity.
  - reflexivity.
  - vm_compute. reflexivity.
Defined.

(** ** Timers and intervals *)

(** X12: in a reachable server at most one interval is live for a room, so
    a session is never counted down twice per second. *)
Theorem one_interval_per_room (s : Server) (i j : nat) (key : string) :
  reachable s →
  intervals s !! i = Some key → intervals s !! j = Some key → i = j.
Proof.
  intros Hs Hi Hj. pose proof (reachable_Inv _ Hs) as HI.
  destruct (inv_live _ HI _ _ Hi) as (r & t & Hr & Ht & <-).
  destruct (live_interval_is_timer _ _ _ _ HI Hj Hr) as (t' & Ht' & <-).
  congruence.
Qed.

Lemma one_interval_per_room_witness : 0 = 0.
Proof.
  apply (one_interval_per_room ex_started 0 0 "1000" ex_started_reachable);
    reflexivity.
Defined.

(** X13: in a reachable server, [startSession] sent by the owner's
    connection always starts a session, whatever the state of the room:
    the owner and every member whose connection is open are sent
    [sessionStarted] with the duration, the state becomes [started], and a
    fresh interval becomes the only live one of the room, counting down
    from the duration.  If a session was running, its interval is
    cancelled and a later firing of it does nothing.  No connection, no
    other room and no interval of another room changes. *)
Theorem startSession_by_owner (s : Server) (w : nat) (body : Body) (rnd : list N)
    (key : string) (r : Room) :
  reachable s →
  key_of (b_roomCode body) = key →
  rooms s !! key = Some r →
  ws (owner r) = w →
  let d := duration (b_timerSeconds body) in
  let fresh := next_interval s in
  ∃ s',
    handle (inbound w (parsed "startSession" body) rnd) s =
      Ok tt s' (delivered_by s (owner r :: clients r) (sessionStarted_for r d)) ∧
    rooms s' =
      <[key := set_timer (Some {| timeRemaining := d; interval := fresh |})
                         (set_state started r)]> (rooms s) ∧
    conns s' = conns s ∧
    intervals s !! fresh = None ∧
    (∀ i, intervals s' !! i = Some key ↔ i = fresh) ∧
    (∀ i key', key' ≠ key →
       intervals s' !! i = Some key' ↔ intervals s !! i = Some key') ∧
    (∀ t, timer r = Some t →
       intervals s' !! interval t = None ∧
       handle (tick (interval t)) s' = Ok tt s' []).
Proof.
  intros Hs Hk Hr Hw d fresh. subst key.
  set (key := key_of (b_roomCode body)) in *.
  pose proof (reachable_Inv _ Hs) as HI.
  assert (Hfree : intervals s !! fresh = None).
  { destruct (intervals s !! fresh) as [k|] eqn:E; [|done].
    apply (inv_fresh _ HI) in E. unfold fresh in E. lia. }
  assert (Hold : ∀ t, timer r = Some t →
            intervals s !! interval t = Some key ∧ interval t ≠ fresh).
  { intros t Ht.
    pose proof (room_interval _ _ _ (inv_rooms _ HI _ _ Hr) _ Ht) as Hlive.
    split; [done|]. apply (inv_fresh _ HI) in Hlive. unfold fresh. lia. }
  exists (after_start key r d s).
  split; [cbn [handle]; rewrite dispatch_startSession; now apply on_startSession_owner|].
  split; [reflexivity|]. split; [reflexivity|]. split; [done|].
  unfold after_start. cbn [intervals]. subst fresh. split; [|split].
  - intros i. rewrite lookup_insert. case_decide as E; [subst; split; done|].
    split; [|intros ->; done]. intros Hi.
    assert (Hi' : intervals s !! i = Some key).
    { destruct (timer r); [|done]. rewrite lookup_delete in Hi.
      now case_decide. }
    destruct (live_interval_is_timer _ _ _ _ HI Hi' Hr) as (t & Ht & <-).
    rewrite Ht, lookup_delete_eq in Hi. discriminate.
  - intros i key' Hne. rewrite lookup_insert. case_decide as E.
    + subst i. rewrite Hfree. split; [intros [= ?]; congruence|discriminate].
    + destruct (timer r) as [t|] eqn:Ht; [|done].
      rewrite lookup_delete. case_decide as E'; [|done]. subst i.
      rewrite (proj1 (Hold _ eq_refl)). split; [discriminate|congruence].
  - intros t Ht. destruct (Hold _ Ht) as [_ Hne].
    assert (Hgone : <[next_interval s := key]> (match timer r with
                       | Some t0 => delete (interval t0) (intervals s)
                       | None => intervals s
                       end) !! interval t = None).
    { rewrite Ht, lookup_insert_ne by congruence. apply lookup_delete_eq. }
    split; [exact Hgone|]. cbn [handle]. rewrite bind_gets.
    cbn [intervals]. now rewrite Hgone.
Qed.

Lemma startSession_by_owner_witness :
  let body := request (Some "1000") None (JNum 30%float) JUndefined in
  let d := duration (b_timerSeconds body) in
  let fresh := next_interval ex_started in
  ∃ s',
    handle (inbound 1 (parsed "startSession" body) []) ex_started =
      Ok tt s' (delivered_by ex_started (owner ex_room3 :: clients ex_room3)
                  (sessionStarted_for ex_room3 d)) ∧
    rooms s' =
      <[ "1000" := set_timer (Some {| timeRemaining := d; interval := fresh |})
                             (set_state started ex_room3) ]> (rooms ex_started) ∧
    conns s' = conns ex_started ∧
    intervals ex_started !! fresh = None ∧
    (∀ i, intervals s' !! i = Some "1000" ↔ i = fresh) ∧
    (∀ i key', key' ≠ "1000" →
       intervals s' !! i = Some key' ↔ intervals ex_started !! i = Some key') ∧
    (∀ t, timer ex_room3 = Some t →
       intervals s' !! interval t = None ∧
       handle (tick (interval t)) s' = Ok tt s' []).
Proof.
  apply (startSession_by_owner ex_started 1
           (request (Some "1000") None (JNum 30%float) JUndefined) [] "1000"
           ex_room3 ex_started_reachable); reflexivity.
Defined.

(** ** Disconnection *)

Lemma conn_tag_ready w w' b s :
  conn w' (tag_ready w b s) =
    if decide (w = w')
    then {| room := room (conn w' s); userEmail := userEmail (conn w' s);
            readyOpen := b |}
    else conn w' s.
Proof.
  unfold conn, tag_ready, with_conns; cbn [conns].
  rewrite lookup_insert. destruct (decide (w = w')); subst; reflexivity.
Qed.

Lemma conn_untag w w' s :
  conn w' (untag w s) =
    if decide (w = w')
    then {| room := None; userEmail := None; readyOpen := readyOpen (conn w' s) |}
    else conn w' s.
Proof.
  unfold untag. rewrite conn_tag_userEmail, conn_tag_room.
  destruct (decide (w = w')); reflexivity.
Qed.

Lemma conn_close_room key r s w : conn w (close_room key r s) = conn w s.
Proof. unfold conn. now rewrite conns_close_room. Qed.

Lemma conn_clear_tags cs : ∀ s w,
  conn w (clear_tags cs s) =
    if decide (w ∈ ws <$> cs)
    then {| room := None; userEmail := userEmail (conn w s);
            readyOpen := readyOpen (conn w s) |}
    else conn w s.
Proof.
  induction cs as [|c cs IH]; intros s w; [reflexivity|].
  cbn [clear_tags foldl]. fold (clear_tags cs (tag_room (ws c) None s)).
  rewrite IH, fmap_cons, conn_tag_room.
  destruct (decide (w ∈ ws <$> cs)) as [Hin|Hin];
    destruct (decide (ws c = w)) as [E|E];
    destruct (decide (w ∈ ws c :: (ws <$> cs))) as [Hc|Hc]; try reflexivity;
    exfalso.
  - apply Hc, elem_of_cons; auto.
  - apply Hc, elem_of_cons; auto.
  - apply Hc, elem_of_cons; auto.
  - apply elem_of_cons in Hc as [?|?]; congruence.
Qed.

(** What is transmitted once connection [w] has left the open state. *)
Lemma delivered_by_closed w s cs f :
  delivered_by (tag_ready w false s) cs f = delivered_by s (without w cs) f.
Proof.
  unfold delivered_by, without. f_equal.
  induction cs as [|c cs IH]; [reflexivity|].
  rewrite !filter_cons, conn_tag_ready.
  destruct (decide (w = ws c)) as [E|E].
  - rewrite decide_False by (cbn; discriminate).
    rewrite (decide_False (P := ws c ≠ w)) by (intros ?; congruence). exact IH.
  - rewrite (decide_True (P := ws c ≠ w)) by congruence.
    rewrite filter_cons. destruct (decide (readyOpen (conn (ws c) s) = true));
      [f_equal|]; exact IH.
Qed.

Lemma reachable_tag_required s w key :
  reachable s → room (conn w s) = Some key → required (Some key) = Some key.
Proof.
  intros Hs Hk. apply code_ok_required. eapply reachable_tags_ok; eauto.
Qed.

(** X14: in a reachable server, when the connection of a room's owner
    closes (or reports an error) while tagged with that room, the room is
    removed and its interval cancelled, every member whose connection is
    open is sent [roomClosed] and loses its room tag (and nothing else),
    and the owner's connection loses both tags. *)
Theorem owner_disconnect_closes_room (s : Server) (ev : Event) (w : nat)
    (key : string) (r : Room) :
  reachable s →
  ev = close w ∨ ev = socket_error w →
  room (conn w s) = Some key →
  rooms s !! key = Some r →
  ws (owner r) = w →
  ∃ s',
    handle ev s = Ok tt s' (delivered s (without w (clients r)) roomClosed) ∧
    rooms s' = delete key (rooms s) ∧
    (∀ i, intervals s' !! i ≠ Some key) ∧
    conn w s' = {| room := None; userEmail := None; readyOpen := false |} ∧
    ∀ w', w' ≠ w →
      userEmail (conn w' s') = userEmail (conn w' s) ∧
      readyOpen (conn w' s') = readyOpen (conn w' s) ∧
      room (conn w' s') =
        if decide (w' ∈ ws <$> clients r) then None else room (conn w' s).
Proof.
  intros Hs Hev Hk Hr Hw. pose proof (reachable_Inv _ Hs) as HI.
  set (s0 := tag_ready w false s).
  assert (HI0 : Inv s0) by (eapply Inv_same_core; [|exact HI]; now repeat split).
  assert (Hreq : required (room (conn w s0)) = Some key).
  { unfold s0. rewrite room_tag_ready, Hk. eapply reachable_tag_required; eauto. }
  exists (untag w (close_room key r (clear_tags (clients r) s0))).
  split.
  { assert (Hh : handle (close w) s =
        Ok tt (untag w (close_room key r (clear_tags (clients r) s0)))
           (delivered s (without w (clients r)) roomClosed)).
    { cbn [handle]. unfold set_ws_ready. rewrite bind_modify. fold s0.
      rewrite (leaveRoom_owner w s0 key r Hreq Hr Hw).
      unfold delivered, s0. now rewrite delivered_by_closed. }
    destruct Hev as [->| ->]; exact Hh. }
  assert (Hsc : same_core (close_room key r s)
                  (untag w (close_room key r (clear_tags (clients r) s0)))).
  { eapply same_core_trans; [|now repeat split].
    apply same_core_close_room.
    eapply same_core_trans; [|apply same_core_clear_tags]. now repeat split. }
  destruct Hsc as (Hrooms & Hints & _).
  split; [rewrite Hrooms; apply rooms_close_room|].
  split; [intros i; rewrite Hints; now apply close_room_no_interval|].
  split.
  - rewrite conn_untag, decide_True by done.
    rewrite conn_close_room, conn_clear_tags. unfold s0.
    rewrite conn_tag_ready, (decide_True (P := w = w)) by done.
    destruct (decide (w ∈ ws <$> clients r)); reflexivity.
  - intros w' Hne. rewrite conn_untag, decide_False by congruence.
    rewrite conn_close_room, conn_clear_tags. unfold s0.
    rewrite conn_tag_ready, (decide_False (P := w = w')) by congruence.
    destruct (decide (w' ∈ ws <$> clients r)); done.
Qed.

Lemma owner_disconnect_closes_room_witness :
  ∃ s',
    handle (close 1) ex_started =
      Ok tt s' (delivered ex_started (without 1 (clients ex_room3)) roomClosed) ∧
    rooms s' = delete "1000" (rooms ex_started) ∧
    (∀ i, intervals s' !! i ≠ Some "1000") ∧
    conn 1 s' = {| room := None; userEmail := None; readyOpen := false |} ∧
    ∀ w', w' ≠ 1 →
      userEmail (conn w' s') = userEmail (conn w' ex_started) ∧
      readyOpen (conn w' s') = readyOpen (conn w' ex_started) ∧
      room (conn w' s') =
        if decide (w' ∈ ws <$> clients ex_room3) then None
        else room (conn w' ex_started).
Proof.
  apply (owner_disconnect_closes_room ex_started (close 1) 1 "1000" ex_room3
           ex_started_reachable); [now left|reflexivity..].
Defined.

(** X15: in a reachable server, when a connection that does not own the
    room it is tagged with closes (or reports an error), every roster entry
    bound to it is removed from that room and both its tags are cleared;
    nothing is transmitted (no [userLeft], unlike the [leaveRoom] request),
    and no other room, interval or connection changes. *)
Theorem member_disconnect_is_silent (s : Server) (ev : Event) (w : nat)
    (key : string) (r : Room) :
  reachable s →
  ev = close w ∨ ev = socket_error w →
  room (conn w s) = Some key →
  rooms s !! key = Some r →
  ws (owner r) ≠ w →
  ∃ s',
    handle ev s = Ok tt s' [] ∧
    rooms s' = <[key := set_clients (without w (clients r)) r]> (rooms s) ∧
    intervals s' = intervals s ∧
    conn w s' = {| room := None; userEmail := None; readyOpen := false |} ∧
    ∀ w', w' ≠ w → conn w' s' = conn w' s.
Proof.
  intros Hs Hev Hk Hr Hw.
  set (s0 := tag_ready w false s).
  assert (Hreq : required (room (conn w s0)) = Some key).
  { unfold s0. rewrite room_tag_ready, Hk. eapply reachable_tag_required; eauto. }
  exists (untag w (store_room key (set_clients (without w (clients r)) r) s0)).
  split.
  { assert (Hh : handle (close w) s =
        Ok tt (untag w (store_room key (set_clients (without w (clients r)) r) s0)) []).
    { cbn [handle]. unfold set_ws_ready. rewrite bind_modify. fold s0.
      now rewrite (leaveRoom_member w s0 key r Hreq Hr Hw). }
    destruct Hev as [->| ->]; exact Hh. }
  split; [reflexivity|]. split; [reflexivity|]. split.
  - rewrite conn_untag, decide_True by done.
    change (conn w (store_room ?k ?x ?y)) with (conn w y). unfold s0.
    rewrite conn_tag_ready, decide_True by done. reflexivity.
  - intros w' Hne. rewrite conn_untag, decide_False by congruence.
    change (conn w' (store_room ?k ?x ?y)) with (conn w' y). unfold s0.
    now rewrite conn_tag_ready, decide_False by congruence.
Qed.

Lemma member_disconnect_is_silent_witness :
  ∃ s',
    handle (close 2) ex_started = Ok tt s' [] ∧
    rooms s' = <[ "1000" := set_clients (without 2 (clients ex_room3)) ex_room3 ]>
                 (rooms ex_started) ∧
    intervals s' = intervals ex_started ∧
    conn 2 s' = {| room := None; userEmail := None; readyOpen := false |} ∧
    ∀ w', w' ≠ 2 → conn w' s' = conn w' ex_started.
Proof.
  apply (member_disconnect_is_silent ex_started (close 2) 2 "1000" ex_room3
           ex_started_reachable); [now left|reflexivity| reflexivity|discriminate].
Defined.

(** ** The outcomes of each action *)

Lemma rooms_get_cases key s :
  (∃ r, rooms s !! key = Some r ∧ rooms_get key s = Own r) ∨
  (rooms s !! key = None ∧ inherited key = true ∧ rooms_get key s = Inherited) ∨
  (rooms s !! key = None ∧ inherited key = false ∧ rooms_get key s = Missing).
Proof.
  unfold rooms_get. destruct (rooms s !! key); [eauto|].
  destruct (inherited key); auto.
Qed.

Lemma gen_roomCode_cases rnd s :
  (∃ n, n ∈ rnd ∧ rooms_get (toString n) s = Missing ∧
        gen_roomCode rnd s = Ok (toString n) s []) ∨
  ((∀ n, n ∈ rnd → rooms_get (toString n) s ≠ Missing) ∧
   gen_roomCode rnd s = Hung []).
Proof.
  induction rnd as [|n rnd IH].
  - right. split; [intros n Hn; by apply elem_of_nil in Hn|reflexivity].
  - cbn [gen_roomCode]. rewrite bind_gets.
    destruct (rooms_get (toString n) s) eqn:Hg.
    3: { left. exists n. split; [now left|done]. }
    all: destruct IH as [(m & Hm & Hf & ->)|(Hall & ->)];
      [left; exists m; split; [now right|done]
      |right; split; [|done]; intros m [->|Hm]%elem_of_cons; [congruence|auto]].
Qed.

Lemma create_body_cases w body rnd s :
  (required (b_userEmail body) = None ∧
   create_body w body rnd s =
     Ok tt s (reply s w (error "userEmail required to create room"))) ∨
  (∃ e, required (b_userEmail body) = Some e ∧
     (∀ n, n ∈ rnd → rooms_get (toString n) s ≠ Missing) ∧
     create_body w body rnd s = Hung []) ∨
  (∃ e n, required (b_userEmail body) = Some e ∧ n ∈ rnd ∧
     rooms_get (toString n) s = Missing ∧
     create_body w body rnd s =
       Ok tt (after_create w e (toString n) (b_quizData body) s)
          (reply s w (created (toString n) (or_null (b_quizData body))))).
Proof.
  destruct (required (b_userEmail body)) as [e|] eqn:He.
  - right. unfold create_body. rewrite He. mrun.
    destruct (gen_roomCode_cases rnd (tag_userEmail w (Some e) s))
      as [(n & Hn & Hf & Hg)|(Hall & Hg)].
    + right. exists e, n. rewrite (bind_Ok _ _ _ _ _ _ Hg). mrun. ready.
      repeat split; done.
    + left. exists e. split; [done|]. split; [exact Hall|].
      unfold bind. now rewrite Hg.
  - left. split; [done|]. now apply create_body_refused.
Qed.

Lemma join_body_cases w body s :
  (∃ e, join_body w body s = Ok tt s (reply s w (error e))) ∨
  (∃ key, required (b_roomCode body) = Some key ∧ rooms s !! key = None ∧
     inherited key = true ∧ join_body w body s = Thrown []) ∨
  (∃ key e r, required (b_roomCode body) = Some key ∧
     required (b_userEmail body) = Some e ∧
     rooms s !! key = Some r ∧ state r ≠ started ∧
     join_body w body s =
       Ok tt (after_join w e key r s)
          (reply s w (joined key (quiz r)) ++
           delivered s (without w (owner r :: rebind_or_push w e (clients r)))
             (userJoined e (b_username body)))).
Proof.
  destruct (required (b_roomCode body)) as [key|] eqn:Hk;
    [|left; eexists; apply join_body_required; auto].
  destruct (required (b_userEmail body)) as [e|] eqn:He;
    [|left; eexists; apply join_body_required; auto].
  destruct (rooms_get_cases key s) as [(r & Hr & _)|[(Hr & Hi & Hg)|(Hr & Hi & Hg)]].
  - destruct (decide (state r = started)) as [Hst|Hst].
    + left. eexists. eapply join_body_started; eauto.
    + right; right. exists key, e, r. repeat split; try done.
      now apply join_body_joins.
  - right; left. exists key. repeat split; try done.
    eapply join_body_inherited; eauto.
  - left. eexists. eapply join_body_absent; eauto.
Qed.

Lemma on_startSession_cases w body s :
  (∃ e, on_startSession w body s = Ok tt s (reply s w (error e))) ∨
  (∃ r, rooms s !! key_of (b_roomCode body) = Some r ∧ ws (owner r) = w ∧
     on_startSession w body s =
       Ok tt (after_start (key_of (b_roomCode body)) r
                (duration (b_timerSeconds body)) s)
          (delivered_by s (owner r :: clients r)
             (sessionStarted_for r (duration (b_timerSeconds body))))).
Proof.
  destruct (rooms_get_cases (key_of (b_roomCode body)) s)
    as [(r & Hr & _)|[(Hr & Hi & Hg)|(Hr & Hi & Hg)]].
  - destruct (decide (ws (owner r) = w)) as [Hw|Hw].
    + right. exists r. repeat split; try done. now apply on_startSession_owner.
    + left. eexists. now apply (on_startSession_not_owner _ _ _ r).
  - left. eexists. now apply on_startSession_inherited.
  - left. eexists. now apply on_startSession_absent.
Qed.

Lemma on_reconnect_cases w body s :
  (∃ e, on_reconnect w body s = Ok tt s (reply s w (error e))) ∨
  (∃ key, required (b_roomCode body) = Some key ∧ rooms s !! key = None ∧
     inherited key = true ∧ on_reconnect w body s = Thrown []) ∨
  (∃ key e r, required (b_roomCode body) = Some key ∧
     required (b_userEmail body) = Some e ∧
     rooms s !! key = Some r ∧ state r ≠ ended ∧ email (owner r) = e ∧
     on_reconnect w body s =
       Ok tt (after_reconnect_owner w e key r s)
          (reply s w (reconnected (quiz r) role_owner (state r) (remaining_or_null r)))) ∨
  (∃ key e r, required (b_roomCode body) = Some key ∧
     required (b_userEmail body) = Some e ∧
     rooms s !! key = Some r ∧ state r ≠ ended ∧ email (owner r) ≠ e ∧
     on_reconnect w body s =
       Ok tt (after_join w e key r s)
          (reply s w (reconnected (quiz r) role_client (state r) (remaining_or_null r)))).
Proof.
  destruct (required (b_roomCode body)) as [key|] eqn:Hk;
    [|left; eexists; apply on_reconnect_required; auto].
  destruct (required (b_userEmail body)) as [e|] eqn:He;
    [|left; eexists; apply on_reconnect_required; auto].
  destruct (rooms_get_cases key s) as [(r & Hr & _)|[(Hr & Hi & Hg)|(Hr & Hi & Hg)]].
  - destruct (decide (state r = ended)) as [Hst|Hst];
      [left; eexists; eapply on_reconnect_ended; eauto|].
    destruct (decide (email (owner r) = e)) as [Ho|Ho].
    + right; right; left. exists key, e, r. repeat split; try done.
      now apply on_reconnect_owner.
    + right; right; right. exists key, e, r. repeat split; try done.
      now apply on_reconnect_client.
  - right; left. exists key. repeat split; try done.
    eapply on_reconnect_inherited; eauto.
  - left. eexists. eapply on_reconnect_absent; eauto.
Qed.

Lemma on_deleteRoom_cases w body s :
  (∃ e, on_deleteRoom w body s = Ok tt s (reply s w (error e))) ∨
  (∃ key, required (b_roomCode body) = Some key ∧ rooms s !! key = None ∧
     inherited key = true ∧ on_deleteRoom w body s = Thrown []) ∨
  (∃ key r, required (b_roomCode body) = Some key ∧
     rooms s !! key = Some r ∧ ws (owner r) = w ∧
     on_deleteRoom w body s =
       Ok tt (close_room key r s)
          (delivered_by s (owner r :: clients r) (roomDeleted_for key r))).
Proof.
  destruct (required (b_roomCode body)) as [key|] eqn:Hk;
    [|left; eexists; apply on_deleteRoom_required; auto].
  destruct (rooms_get_cases key s) as [(r & Hr & _)|[(Hr & Hi & Hg)|(Hr & Hi & Hg)]].
  - destruct (decide (ws (owner r) = w)) as [Hw|Hw].
    + right; right. exists key, r. repeat split; try done.
      now apply on_deleteRoom_owner.
    + left. eexists. eapply on_deleteRoom_not_owner; eauto.
  - right; left. exists key. repeat split; try done.
    eapply on_deleteRoom_inherited; eauto.
  - left. eexists. eapply on_deleteRoom_absent; eauto.
Qed.

Lemma on_leaveRoom_cases w s :
  (∃ e, on_leaveRoom w s = Ok tt s (reply s w (error e))) ∨
  (∃ key, required (room (conn w s)) = Some key ∧ rooms s !! key = None ∧
     inherited key = false ∧
     on_leaveRoom w s =
       Ok tt (tag_room w None s) (reply s w (error "Room no longer exists"))) ∨
  (∃ key, required (room (conn w s)) = Some key ∧ rooms s !! key = None ∧
     inherited key = true ∧ on_leaveRoom w s = Thrown []) ∨
  (∃ key r, required (room (conn w s)) = Some key ∧
     rooms s !! key = Some r ∧ ws (owner r) ≠ w ∧
     on_leaveRoom w s =
       Ok tt (after_leave w key r s)
          (delivered s (owner r :: without w (clients r))
             (userLeft (without w (clients r))) ++ reply s w (leftRoom key))).
Proof.
  destruct (required (room (conn w s))) as [key|] eqn:Hk;
    [|left; eexists; apply on_leaveRoom_untagged; auto].
  destruct (rooms_get_cases key s) as [(r & Hr & _)|[(Hr & Hi & Hg)|(Hr & Hi & Hg)]].
  - destruct (decide (ws (owner r) = w)) as [Hw|Hw].
    + left. eexists. eapply on_leaveRoom_owner; eauto.
    + right; right; right. exists key, r. repeat split; try done.
      now apply on_leaveRoom_member.
  - right; right; left. exists key. repeat split; try done.
    eapply on_leaveRoom_inherited; eauto.
  - right; left. exists key. repeat split; try done.
    eapply on_leaveRoom_gone; eauto.
Qed.

Lemma on_finishQuiz_cases w body s :
  (∃ e, on_finishQuiz w body s = Ok tt s (reply s w (error e))) ∨
  (∃ key, required (b_roomCode body) = Some key ∧ rooms s !! key = None ∧
     inherited key = true ∧ on_finishQuiz w body s = Thrown []) ∨
  (∃ key e score r, required (b_roomCode body) = Some key ∧
     required (b_userEmail body) = Some e ∧ b_score body = JNum score ∧
     rooms s !! key = Some r ∧
     on_finishQuiz w body s =
       Ok tt (after_finish key e score r s)
          (reply s (ws (owner r)) (userFinished e score (remaining_or_zero r)))).
Proof.
  destruct (required (b_roomCode body)) as [key|] eqn:Hk;
    [|left; eexists; apply on_finishQuiz_required; auto].
  destruct (required (b_userEmail body)) as [e|] eqn:He;
    [|left; eexists; apply on_finishQuiz_required; auto].
  destruct (b_score body) as [| | |score| |] eqn:Hs;
    try solve [left; eexists; apply on_finishQuiz_required; rewrite Hs; auto].
  destruct (rooms_get_cases key s) as [(r & Hr & _)|[(Hr & Hi & Hg)|(Hr & Hi & Hg)]].
  - right; right. exists key, e, score, r. repeat split; try done.
    now apply on_finishQuiz_records.
  - right; left. exists key. repeat split; try done.
    eapply on_finishQuiz_inherited; eauto.
  - left. eexists. eapply on_finishQuiz_absent; eauto.
Qed.

Lemma on_message_cases w body s :
  ((room (conn w s) = None ∨ room (conn w s) = Some "" ∨
      (∃ key, room (conn w s) = Some key ∧ rooms s !! key = None)) ∧
   on_message w body s = Ok tt s (reply s w (error "You are not in a room"))) ∨
  (∃ key, required (room (conn w s)) = Some key ∧ rooms s !! key = None ∧
     inherited key = true ∧ on_message w body s = Thrown []) ∨
  (∃ key r, room (conn w s) = Some key ∧ rooms s !! key = Some r ∧
     on_message w body s = Ok tt s (delivered s (owner r :: clients r) (message body))).
Proof.
  destruct (required (room (conn w s))) as [key|] eqn:Hk.
  - assert (Hroom : room (conn w s) = Some key).
    { destruct (room (conn w s)) as [k|]; [|discriminate]. cbn in Hk.
      destruct (str_truthy k); congruence. }
    destruct (rooms_get_cases key s) as [(r & Hr & _)|[(Hr & Hi & Hg)|(Hr & Hi & Hg)]].
    + right; right. exists key, r. repeat split; try done.
      now apply (on_message_relays _ _ _ key).
    + right; left. exists key. repeat split; try done.
      eapply on_message_inherited; eauto.
    + left. split; [right; right; eauto|]. eapply on_message_gone; eauto.
  - left. split; [|now apply on_message_untagged].
    destruct (room (conn w s)) as [k|]; [|now left]. right; left.
    cbn in Hk. unfold str_truthy in Hk.
    destruct (String.eqb k "") eqn:E; [|discriminate].
    apply String.eqb_eq in E. now subst.
Qed.

Lemma dispatch_cases w action body rnd :
  (action = "create" ∧ dispatch w action body rnd = on_create w body rnd) ∨
  (action = "join" ∧ dispatch w action body rnd = on_join w body) ∨
  (action = "startSession" ∧ dispatch w action body rnd = on_startSession w body) ∨
  (action = "reconnect" ∧ dispatch w action body rnd = on_reconnect w body) ∨
  (action = "deleteRoom" ∧ dispatch w action body rnd = on_deleteRoom w body) ∨
  (action = "leaveRoom" ∧ dispatch w action body rnd = on_leaveRoom w) ∨
  (action = "finishQuiz" ∧ dispatch w action body rnd = on_finishQuiz w body) ∨
  (action = "message" ∧ dispatch w action body rnd = on_message w body) ∨
  ((action ∉ known_actions) ∧
   dispatch w action body rnd = safeSend w (error ("Unknown action: " +:+ action))).
Proof.
  unfold dispatch.
  destruct (String.eqb action "create") eqn:E1;
    [apply String.eqb_eq in E1; auto|apply String.eqb_neq in E1].
  destruct (String.eqb action "join") eqn:E2;
    [apply String.eqb_eq in E2; auto|apply String.eqb_neq in E2].
  destruct (String.eqb action "startSession") eqn:E3;
    [apply String.eqb_eq in E3; auto|apply String.eqb_neq in E3].
  destruct (String.eqb action "reconnect") eqn:E4;
    [apply String.eqb_eq in E4; auto 10|apply String.eqb_neq in E4].
  destruct (String.eqb action "deleteRoom") eqn:E5;
    [apply String.eqb_eq in E5; auto 10|apply String.eqb_neq in E5].
  destruct (String.eqb action "leaveRoom") eqn:E6;
    [apply String.eqb_eq in E6; auto 10|apply String.eqb_neq in E6].
  destruct (String.eqb action "finishQuiz") eqn:E7;
    [apply String.eqb_eq in E7; auto 10|apply String.eqb_neq in E7].
  destruct (String.eqb action "message") eqn:E8;
    [apply String.eqb_eq in E8; auto 10|apply String.eqb_neq in E8].
  do 8 right. split; [|reflexivity]. unfold known_actions.
  rewrite !elem_of_cons, elem_of_nil. tauto.
Qed.

(** ** Requests that change no room *)



(** X17: in a reachable server a [message] request never changes any state
    and never throws.  From a connection tagged with a room that exists it
    is relayed, body unchanged, to the owner and to every member of that
    room whose connection is open, the sender's own roster entries
    included; otherwise the sender is told "You are not in a room". *)
Theorem message_is_relayed (s : Server) (w : nat) (body : Body) (rnd : list N) :
  reachable s →
  ∃ out,
    handle (inbound w (parsed "message" body) rnd) s = Ok tt s out ∧
    (∀ key r, room (conn w s) = Some key → rooms s !! key = Some r →
       out = delivered s (owner r :: clients r) (message body)) ∧
    ((∀ key, room (conn w s) = Some key → rooms s !! key = None) →
       out = reply s w (error "You are not in a room")).
Proof.
  intros Hs. cbn [handle]. change (dispatch w "message" body rnd) with (on_message w body).
  destruct (on_message_cases w body s)
    as [(Hc & ->)|[(key & Hk & Hr & Hi & _)|(key & r & Hk & Hr & ->)]].
  - eexists. split; [reflexivity|]. split; [|done].
    intros key r Hk Hr. destruct Hc as [Hc|[Hc|(k & Hc & Hn)]].
    + congruence.
    + rewrite Hk in Hc. injection Hc as ->.
      pose proof (reachable_required_code _ _ _ Hs Hr). discriminate.
    + congruence.
  - exfalso. assert (Hc : code_ok key = true).
    { destruct (room (conn w s)) as [k|] eqn:E; [|discriminate]. cbn in Hk.
      destruct (str_truthy k); [|discriminate]. injection Hk as <-.
      eapply reachable_tags_ok; eauto. }
    apply code_ok_not_inherited in Hc. congruence.
  - eexists. split; [reflexivity|]. split.
    + intros k x Hk' Hx. congruence.
    + intros Hn. specialize (Hn _ Hk). congruence.
Qed.

Lemma message_is_relayed_witness :
  let body := request None None JUndefined JUndefined in
  ∃ out,
    handle (inbound 2 (parsed "message" body) []) ex_joined = Ok tt ex_joined out ∧
    (∀ key r, room (conn 2 ex_joined) = Some key → rooms ex_joined !! key = Some r →
       out = delivered ex_joined (owner r :: clients r) (message body)) ∧
    ((∀ key, room (conn 2 ex_joined) = Some key → rooms ex_joined !! key = None) →
       out = reply ex_joined 2 (error "You are not in a room")).
Proof. apply (message_is_relayed ex_joined 2 _ [] ex_joined_reachable). Defined.

(** X18: in a reachable server, a [leaveRoom] request from a connection
    tagged with a room it does not own removes every roster entry bound to
    that connection and keeps the others in order; the owner and the
    remaining members whose connection is open are sent [userLeft] with the
    remaining roster, then the caller is sent [leftRoom]; both tags of the
    caller are cleared and nothing else changes.  The request's body is
    not read. *)
Theorem leave_request_by_member (s : Server) (w : nat) (body : Body)
    (rnd : list N) (key : string) (r : Room) :
  reachable s →
  room (conn w s) = Some key →
  rooms s !! key = Some r →
  ws (owner r) ≠ w →
  let rest := without w (clients r) in
  ∃ s',
    handle (inbound w (parsed "leaveRoom" body) rnd) s =
      Ok tt s' (delivered s (owner r :: rest) (userLeft rest) ++
                reply s w (leftRoom key)) ∧
    rooms s' = <[key := set_clients rest r]> (rooms s) ∧
    intervals s' = intervals s ∧
    (∀ c, c ∈ rest ↔ c ∈ clients r ∧ ws c ≠ w) ∧
    rest `sublist_of` clients r ∧
    conn w s' = {| room := None; userEmail := None;
                   readyOpen := readyOpen (conn w s) |} ∧
    ∀ w', w' ≠ w → conn w' s' = conn w' s.
Proof.
  intros Hs Hk Hr Hw rest. exists (after_leave w key r s).
  split.
  { cbn [handle]. change (dispatch w "leaveRoom" body rnd) with (on_leaveRoom w).
    apply on_leaveRoom_member; [|done..]. rewrite Hk.
    eapply reachable_tag_required; eauto. }
  split; [reflexivity|]. split; [reflexivity|]. split.
  { intros c. unfold rest, without. rewrite list_elem_of_filter. tauto. }
  split; [apply sublist_filter|]. unfold after_leave. split.
  - rewrite conn_untag, decide_True by done. reflexivity.
  - intros w' Hne. rewrite conn_untag, decide_False by congruence. reflexivity.
Qed.

Lemma leave_request_by_member_witness :
  let rest := without 2 (clients ex_room2) in
  ∃ s',
    handle (inbound 2 (parsed "leaveRoom" (request None None JUndefined JUndefined)) [])
      ex_joined =
      Ok tt s' (delivered ex_joined (owner ex_room2 :: rest) (userLeft rest) ++
                reply ex_joined 2 (leftRoom "1000")) ∧
    rooms s' = <[ "1000" := set_clients rest ex_room2 ]> (rooms ex_joined) ∧
    intervals s' = intervals ex_joined ∧
    (∀ c, c ∈ rest ↔ c ∈ clients ex_room2 ∧ ws c ≠ 2) ∧
    rest `sublist_of` clients ex_room2 ∧
    conn 2 s' = {| room := None; userEmail := None;
                   readyOpen := readyOpen (conn 2 ex_joined) |} ∧
    ∀ w', w' ≠ 2 → conn w' s' = conn w' ex_joined.
Proof.
  apply (leave_request_by_member ex_joined 2 _ [] "1000" ex_room2 ex_joined_reachable);
    [reflexivity|reflexivity|discriminate].
Defined.

(** ** Handlers that do not return *)

Lemma required_Some f k : required f = Some k → f = Some k.
Proof.
  destruct f as [v|]; [|discriminate]. cbn. destruct (str_truthy v); congruence.
Qed.

Lemma leaveRoom_total w s :
  tags_ok s → ∃ s1 out1, leaveRoom w s = Ok tt s1 out1.
Proof.
  intros HT. destruct (required (room (conn w s))) as [key|] eqn:Hreq.
  - pose proof (HT _ _ (required_Some _ _ Hreq)) as Hc.
    destruct (rooms s !! key) as [r|] eqn:Hr.
    + destruct (decide (ws (owner r) = w)) as [Hw|Hw].
      * rewrite (leaveRoom_owner _ _ key r Hreq Hr Hw). eauto.
      * rewrite (leaveRoom_member _ _ key r Hreq Hr Hw). eauto.
    + rewrite (leaveRoom_missing _ _ _ Hreq); [eauto|].
      unfold rooms_get. now rewrite Hr, (code_ok_not_inherited _ Hc).
  - rewrite (leaveRoom_none _ _ Hreq). eauto.
Qed.

Lemma tags_ok_tag_ready w b s : tags_ok s → tags_ok (tag_ready w b s).
Proof. intros HT w' key. rewrite room_tag_ready. apply HT. Qed.





(** ** Joining *)

Lemma ex_ended_3_trace :
  ∃ out, trace ex_end_3 initial = Some (ex_ended_3, out).
Proof. eexists. vm_compute. reflexivity. Qed.

Lemma ex_ended_3_reachable : reachable ex_ended_3.
Proof.
  destruct ex_ended_3_trace as [out H].
  eapply trace_reachable; [apply reachable_initial|exact H].
Qed.

(** X20: in a reachable server, a [join] from a connection in no room that
    names a room whose state is not [started] succeeds, for a [waiting]
    room and for an [ended] one alike.  A member with the given email is
    bound, in place, to the caller's connection; otherwise a new member is
    appended.  The caller is sent [joined] with the room's quiz and tagged
    with the room and the email; the owner and the other members whose
    connection is open are sent [userJoined]; nothing else changes. *)
Theorem join_unless_started (s : Server) (w : nat) (body : Body) (rnd : list N)
    (key e : string) (r : Room) :
  reachable s →
  b_roomCode body = Some key →
  b_userEmail body = Some e →
  e ≠ "" →
  room (conn w s) = None →
  rooms s !! key = Some r →
  state r ≠ started →
  ∃ s' cs,
    handle (inbound w (parsed "join" body) rnd) s =
      Ok tt s' (reply s w (joined key (quiz r)) ++
                delivered s (without w (owner r :: cs))
                  (userJoined e (b_username body))) ∧
    rooms s' = <[key := set_clients cs r]> (rooms s) ∧
    intervals s' = intervals s ∧
    (∀ i c, clients r !! i = Some c → email c = e →
       cs = <[i := {| ws := w; email := e |}]> (clients r)) ∧
    (e ∉ emails (clients r) → cs = clients r ++ [{| ws := w; email := e |}]) ∧
    conn w s' = {| room := Some key; userEmail := Some e;
                   readyOpen := readyOpen (conn w s) |} ∧
    ∀ w', w' ≠ w → conn w' s' = conn w' s.
Proof.
  intros Hs Hb He Hne Hroom Hr Hst.
  exists (after_join w e key r s), (rebind_or_push w e (clients r)).
  assert (Hk : required (b_roomCode body) = Some key)
    by (rewrite Hb; eapply reachable_required_code; eauto).
  assert (Hu : required (b_userEmail body) = Some e)
    by (rewrite He; apply truthy_required; now apply str_truthy_ne).
  split.
  { cbn [handle]. rewrite dispatch_join. unfold on_join.
    assert (Hl : leaveRoom w s = Ok tt s [])
      by (apply leaveRoom_none; now rewrite Hroom).
    rewrite (bind_Ok _ _ _ _ _ _ Hl).
    now rewrite (join_body_joins _ _ _ _ _ _ Hk Hu Hr Hst). }
  split; [reflexivity|]. split; [reflexivity|]. split.
  { intros i c Hi Hc. subst e.
    rewrite (rebind_at _ _ _ _ (members_distinct _ (reachable_roster_ok _ _ _ Hs Hr)) Hi).
    reflexivity. }
  split; [apply push_unknown|]. unfold after_join.
  change (conn ?x (store_room ?k ?y ?z)) with (conn x z). split.
  - rewrite conn_tag_room, decide_True by done.
    rewrite conn_tag_userEmail, decide_True by done. reflexivity.
  - intros w' Hw. rewrite conn_tag_room, decide_False by congruence.
    now rewrite conn_tag_userEmail, decide_False by congruence.
Qed.

Lemma join_unless_started_witness :
  let body := request (Some "1000") (Some "late@x") JUndefined JUndefined in
  ∃ s' cs,
    handle (inbound 3 (parsed "join" body) []) ex_ended_3 =
      Ok tt s' (reply ex_ended_3 3 (joined "1000" (quiz ex_room4)) ++
                delivered ex_ended_3 (without 3 (owner ex_room4 :: cs))
                  (userJoined "late@x" (b_username body))) ∧
    rooms s' = <[ "1000" := set_clients cs ex_room4 ]> (rooms ex_ended_3) ∧
    intervals s' = intervals ex_ended_3 ∧
    (∀ i c, clients ex_room4 !! i = Some c → email c = "late@x" →
       cs = <[i := {| ws := 3; email := "late@x" |}]> (clients ex_room4)) ∧
    ("late@x" ∉ emails (clients ex_room4) →
       cs = clients ex_room4 ++ [{| ws := 3; email := "late@x" |}]) ∧
    conn 3 s' = {| room := Some "1000"; userEmail := Some "late@x";
                   readyOpen := readyOpen (conn 3 ex_ended_3) |} ∧
    ∀ w', w' ≠ 3 → conn w' s' = conn w' ex_ended_3.
Proof.
  intros body.
  apply (join_unless_started ex_ended_3 3 body [] "1000" "late@x" ex_room4
           ex_ended_3_reachable); try reflexivity; discriminate.
Defined.

(** ** What a request leaves alone *)

Lemma required_key_of f k : required f = Some k → key_of f = k.
Proof. intros H. now rewrite (required_Some _ _ H). Qed.

Lemma conn_after_start key r d s w : conn w (after_start key r d s) = conn w s.
Proof. reflexivity. Qed.

(** X21: a [startSession], [reconnect], [deleteRoom] or [finishQuiz]
    request changes no room other than the one its [roomCode] names and no
    connection other than the caller's.  In particular none of them takes
    the caller out of the room it was in: only [create] and [join] leave
    first. *)
Theorem request_changes_named_room_only (s : Server) (w : nat) (action : string)
    (body : Body) (rnd : list N) (s' : Server) (out : list Sent) :
  action ∈ room_naming_actions →
  handle (inbound w (parsed action body) rnd) s = Ok tt s' out →
  (∀ key, key ≠ key_of (b_roomCode body) → rooms s' !! key = rooms s !! key) ∧
  (∀ w', w' ≠ w → conn w' s' = conn w' s).
Proof.
  intros Ha H. cbn [handle] in H. unfold room_naming_actions in Ha.
  rewrite !elem_of_cons, elem_of_nil in Ha.
  destruct Ha as [->|[->|[->|[->|[]]]]].
  - rewrite dispatch_startSession in H.
    destruct (on_startSession_cases w body s) as [(e & E)|(r & Hr & Hw & E)];
      rewrite E in H; inversion H; subst; [done|].
    split; [|done]. intros key Hne. unfold after_start. cbn [rooms].
    now rewrite lookup_insert_ne.
  - rewrite dispatch_reconnect in H.
    destruct (on_reconnect_cases w body s)
      as [(e & E)|[(key & _ & _ & _ & E)
         |[(key & e & r & Hk & _ & _ & _ & _ & E)
          |(key & e & r & Hk & _ & _ & _ & _ & E)]]];
      rewrite E in H; inversion H; subst; try done;
      rewrite (required_key_of _ _ Hk).
    + unfold after_reconnect_owner. split.
      * intros k Hne. fields. now rewrite lookup_insert_ne.
      * intros w' Hne. change (conn ?x (store_room ?k ?y ?z)) with (conn x z).
        rewrite conn_tag_room, decide_False by congruence.
        now rewrite conn_tag_userEmail, decide_False by congruence.
    + unfold after_join. split.
      * intros k Hne. fields. now rewrite lookup_insert_ne.
      * intros w' Hne. change (conn ?x (store_room ?k ?y ?z)) with (conn x z).
        rewrite conn_tag_room, decide_False by congruence.
        now rewrite conn_tag_userEmail, decide_False by congruence.
  - change (dispatch w "deleteRoom" body rnd) with (on_deleteRoom w body) in H.
    destruct (on_deleteRoom_cases w body s)
      as [(e & E)|[(key & _ & _ & _ & E)|(key & r & Hk & _ & _ & E)]];
      rewrite E in H; inversion H; subst; try done.
    rewrite (required_key_of _ _ Hk). split.
    + intros k Hne. rewrite rooms_close_room. now rewrite lookup_delete_ne.
    + intros w' _. apply conn_close_room.
  - rewrite dispatch_finishQuiz in H.
    destruct (on_finishQuiz_cases w body s)
      as [(e & E)|[(key & _ & _ & _ & E)|(key & e & sc & r & Hk & _ & _ & _ & E)]];
      rewrite E in H; inversion H; subst; try done.
    rewrite (required_key_of _ _ Hk). split; [|done].
    intros k Hne. unfold after_finish. fields. now rewrite lookup_insert_ne.
Qed.

Lemma request_changes_named_room_only_witness :
  let s' := after_start "1000" ex_room3 30%float ex_started in
  (∀ key, key ≠ "1000" → rooms s' !! key = rooms ex_started !! key) ∧
  (∀ w', w' ≠ 1 → conn w' s' = conn w' ex_started).
Proof.
  apply (request_changes_named_room_only ex_started 1 "startSession"
           (request (Some "1000") None (JNum 30%float) JUndefined) []
           _ (delivered_by ex_started (owner ex_room3 :: clients ex_room3)
                (sessionStarted_for ex_room3 30%float))).
  - unfold room_naming_actions. apply elem_of_cons. now left.
  - vm_compute. reflexivity.
Defined.

(** ** The countdown of a session *)

Lemma room_with_its_timer r t :
  timer r = Some t →
  set_timer (Some {| timeRemaining := timeRemaining t; interval := interval t |}) r = r.
Proof. destruct r, t. cbn. now intros ->. Qed.

Lemma count_down_succ k d :
  count_down k (PrimFloat.sub d 1%float) = count_down (S k) d.
Proof. unfold count_down. now rewrite Nat.iter_succ_r. Qed.

Lemma trace_tick_cons i n s key s1 o1 :
  intervals s !! i = Some key →
  handle (tick i) s = Ok tt s1 o1 →
  trace (replicate (S n) (tick i)) s =
    match trace (replicate n (tick i)) s1 with
    | Some (s2, o2) => Some (s2, o1 ++ o2)
    | None => None
    end.
Proof.
  intros Hi Hh. cbn [replicate trace].
  rewrite decide_True by (cbn; eauto). now rewrite Hh.
Qed.

(** The countdown, firing by firing. *)
Lemma countdown_runs fuel : ∀ s i key r t n,
  Inv s →
  intervals s !! i = Some key → rooms s !! key = Some r → timer r = Some t →
  expiry fuel (timeRemaining t) = Some n →
  (∃ s' out,
     trace (replicate n (tick i)) s = Some (s', out) ∧
     rooms s' !! key = Some (set_state ended (set_timer None r)) ∧
     intervals s' !! i = None ∧
     List.filter is_sessionEnded out =
       delivered s (owner r :: clients r) sessionEnded) ∧
  (∀ k, k < n →
     ∃ sk outk,
       trace (replicate k (tick i)) s = Some (sk, outk) ∧
       rooms sk !! key =
         Some (set_timer (Some {| timeRemaining := count_down k (timeRemaining t);
                                  interval := i |}) r) ∧
       intervals sk !! i = Some key ∧
       List.filter is_sessionEnded outk = []).
Proof.
  induction fuel as [|fuel IH]; intros s i key r t n HI Hi Hr Ht Hn;
    [discriminate|].
  destruct (live_interval_is_timer _ _ _ _ HI Hi Hr) as (t' & Ht' & Hit).
  rewrite Ht in Ht'. injection Ht' as <-.
  assert (Hzero : ∃ sk outk,
     trace (replicate 0 (tick i)) s = Some (sk, outk) ∧
     rooms sk !! key =
       Some (set_timer (Some {| timeRemaining := count_down 0 (timeRemaining t);
                                interval := i |}) r) ∧
     intervals sk !! i = Some key ∧ List.filter is_sessionEnded outk = []).
  { exists s, []. split; [reflexivity|]. split; [|done].
    change (count_down 0 (timeRemaining t)) with (timeRemaining t).
    rewrite <- Hit. now rewrite (room_with_its_timer _ _ Ht). }
  pose proof (tick_after _ _ _ _ _ Hi Hr Ht) as Hh. cbv zeta in Hh.
  cbn [expiry] in Hn. cbv zeta in Hn. unfold after_tick in Hh. cbv zeta in Hh.
  destruct (PrimFloat.leb (PrimFloat.sub (timeRemaining t) 1%float) 0%float) eqn:Hz.
  - injection Hn as <-. split.
    + eexists _, _. split; [|split; [|split]].
      * rewrite (trace_tick_cons _ _ _ _ _ _ Hi Hh). reflexivity.
      * fields. apply lookup_insert_eq.
      * fields. rewrite Hit. apply lookup_delete_eq.
      * rewrite app_nil_r, List.filter_app, filter_sessionEnded_timerTick.
        apply filter_sessionEnded_delivered.
    + intros k Hk. assert (k = 0) as -> by lia. exact Hzero.
  - destruct (expiry fuel (PrimFloat.sub (timeRemaining t) 1%float)) as [m|] eqn:Hm;
      [|discriminate].
    injection Hn as <-.
    set (t1 := {| timeRemaining := PrimFloat.sub (timeRemaining t) 1%float;
                  interval := interval t |}) in *.
    set (r1 := set_timer (Some t1) r) in *.
    set (s1 := store_room key r1 s) in *.
    assert (HI1 : Inv s1).
    { destruct (tick_step _ _ _ _ Hh) as (l & Hl & _). eauto using Inv_core_step. }
    assert (Hi1 : intervals s1 !! i = Some key) by exact Hi.
    assert (Hr1 : rooms s1 !! key = Some r1)
      by (unfold s1; fields; apply lookup_insert_eq).
    destruct (IH s1 i key r1 t1 m HI1 Hi1 Hr1 eq_refl Hm) as [Hend Hbefore].
    split.
    + destruct Hend as (s' & out & Htr & Hroom & Hint & Hout).
      eexists _, _. split; [|split; [|split]].
      * rewrite (trace_tick_cons _ _ _ _ _ _ Hi Hh), Htr. reflexivity.
      * exact Hroom.
      * exact Hint.
      * rewrite app_nil_r, List.filter_app, filter_sessionEnded_timerTick.
        exact Hout.
    + intros [|k] Hk; [exact Hzero|].
      destruct (Hbefore k ltac:(lia)) as (sk & outk & Htr & Hroom & Hint & Hout).
      eexists _, _. split; [|split; [|split]].
      * rewrite (trace_tick_cons _ _ _ _ _ _ Hi Hh), Htr. reflexivity.
      * rewrite Hroom. cbn [timeRemaining t1]. now rewrite count_down_succ.
      * exact Hint.
      * rewrite app_nil_r, List.filter_app, filter_sessionEnded_timerTick.
        exact Hout.
Qed.

(** X22: in a reachable server, if nothing else happens to the room, its
    session ends at the first firing of its interval at which the remaining
    time, decremented, is at most 0, and not before: every earlier firing
    only decrements the remaining time, and that firing sets the state to
    [ended], removes the timer, cancels the interval and sends
    [sessionEnded], once, to the owner and to every member whose connection
    is open.  The roster, the quiz and the scores are as before. *)
Theorem session_ends_at_expiry (s : Server) (i : nat) (key : string) (r : Room)
    (t : Timer) (fuel n : nat) :
  reachable s →
  intervals s !! i = Some key →
  rooms s !! key = Some r →
  timer r = Some t →
  expiry fuel (timeRemaining t) = Some n →
  (∃ s' out,
     trace (replicate n (tick i)) s = Some (s', out) ∧
     rooms s' !! key = Some (set_state ended (set_timer None r)) ∧
     intervals s' !! i = None ∧
     List.filter is_sessionEnded out =
       delivered s (owner r :: clients r) sessionEnded) ∧
  (∀ k, k < n →
     ∃ sk outk,
       trace (replicate k (tick i)) s = Some (sk, outk) ∧
       rooms sk !! key =
         Some (set_timer (Some {| timeRemaining := count_down k (timeRemaining t);
                                  interval := i |}) r) ∧
       intervals sk !! i = Some key ∧
       List.filter is_sessionEnded outk = []).
Proof.
  intros Hs Hi Hr Ht Hn.
  exact (countdown_runs fuel s i key r t n (reachable_Inv _ Hs) Hi Hr Ht Hn).
Qed.

Lemma session_ends_at_expiry_witness :
  (∃ s' out,
     trace (replicate 1 (tick 0)) ex_started = Some (s', out) ∧
     rooms s' !! "1000" = Some (set_state ended (set_timer None ex_room3)) ∧
     intervals s' !! 0 = None ∧
     List.filter is_sessionEnded out =
       delivered ex_started (owner ex_room3 :: clients ex_room3) sessionEnded) ∧
  (∀ k, k < 1 →
     ∃ sk outk,
       trace (replicate k (tick 0)) ex_started = Some (sk, outk) ∧
       rooms sk !! "1000" =
         Some (set_timer (Some {| timeRemaining := count_down k (timeRemaining ex_timer);
                                  interval := 0 |}) ex_room3) ∧
       intervals sk !! 0 = Some "1000" ∧
       List.filter is_sessionEnded outk = []).
Proof.
  apply (session_ends_at_expiry ex_started 0 "1000" ex_room3 ex_timer 1 1
           ex_started_reachable); reflexivity.
Defined.

Lemma whole_seconds_checked : whole_seconds_ok one_day 0 = true.
Proof. vm_compute. reflexivity. Qed.

Lemma whole_seconds_ok_spec fuel : ∀ z k,
  whole_seconds_ok fuel z = true → k < fuel →
  whole_second_ok (z + Z.of_nat k) = true.
Proof.
  induction fuel as [|fuel IH]; intros z k H Hk; [lia|].
  cbn [whole_seconds_ok] in H. apply andb_prop in H as [H0 H1].
  destruct k as [|k].
  - now rewrite Z.add_0_r.
  - replace (z + Z.of_nat (S k))%Z with (z + 1 + Z.of_nat k)%Z by lia.
    apply IH; [done|lia].
Qed.

Lemma whole_second_facts n :
  n < one_day →
  PrimFloat.sub (seconds (S n)) 1%float = seconds n ∧
  PrimFloat.leb (seconds (S n)) 0%float = false ∧
  duration (JNum (seconds (S n))) = seconds (S n) ∧
  duration (JNum (PrimFloat.add (seconds (S n)) 0.5%float)) = seconds (S n).
Proof.
  intros Hn.
  pose proof (whole_seconds_ok_spec _ 0 n whole_seconds_checked Hn) as H.
  unfold whole_second_ok in H. cbv zeta in H. rewrite Z.add_0_l in H.
  replace (Z.of_nat n + 1)%Z with (Z.of_nat (S n)) in H by lia.
  fold (seconds n) (seconds (S n)) in H.
  apply andb_prop in H as [H H4]. apply andb_prop in H as [H H3].
  apply andb_prop in H as [H1 H2].
  apply FloatAxioms.Leibniz.eqb_spec in H1, H3, H4. apply negb_true_iff in H2.
  done.
Qed.

(** A countdown from a whole number of seconds is over at that firing. *)
Lemma expiry_seconds n : ∀ fuel,
  n < one_day → n < fuel → expiry fuel (seconds (S n)) = Some (S n).
Proof.
  induction n as [|n IH]; intros [|fuel] Hn Hf; try lia; cbn [expiry]; cbv zeta;
    destruct (whole_second_facts _ Hn) as (-> & _ & _ & _).
  - reflexivity.
  - destruct (whole_second_facts n ltac:(lia)) as (_ & -> & _ & _).
    rewrite IH by lia. reflexivity.
Qed.

(** X23: in a reachable server, a session that the owner's connection
    starts with a whole number [n] of seconds, from 1 to 86400, ends at the
    [n]-th firing of its interval and not before, if nothing else happens
    to the room; so does one started with [n] seconds and a half, the
    fraction being dropped; started without a numeric [timerSeconds], it
    ends at the 60th.  [sessionEnded] is sent once, at that firing. *)
Theorem session_lasts_its_seconds (s : Server) (w : nat) (body : Body)
    (rnd : list N) (key : string) (r : Room) (n : nat) :
  reachable s →
  key_of (b_roomCode body) = key →
  rooms s !! key = Some r →
  ws (owner r) = w →
  (b_timerSeconds body = JNum (seconds n) ∧ (1 ≤ n ≤ one_day)%nat) ∨
  (b_timerSeconds body = JNum (PrimFloat.add (seconds n) 0.5%float) ∧
   (1 ≤ n ≤ one_day)%nat) ∨
  (is_number (b_timerSeconds body) = false ∧ n = 60) →
  ∃ s1 out1,
    handle (inbound w (parsed "startSession" body) rnd) s = Ok tt s1 out1 ∧
    (∃ s' out,
       trace (replicate n (tick (next_interval s))) s1 = Some (s', out) ∧
       rooms s' !! key = Some (set_state ended (set_timer None r)) ∧
       List.filter is_sessionEnded out =
         delivered s (owner r :: clients r) sessionEnded) ∧
    (∀ k, k < n →
       ∃ sk outk rk,
         trace (replicate k (tick (next_interval s))) s1 = Some (sk, outk) ∧
         rooms sk !! key = Some rk ∧ state rk = started ∧
         List.filter is_sessionEnded outk = []).
Proof.
  intros Hs Hk Hr Hw Hd. subst key.
  set (key := key_of (b_roomCode body)) in *.
  set (d := duration (b_timerSeconds body)).
  assert (Hex : expiry n d = Some n).
  { destruct Hd as [[Hb Hn]|[[Hb Hn]|[Hb ->]]].
    - unfold d. rewrite Hb. destruct n as [|n]; [lia|].
      destruct (whole_second_facts n ltac:(lia)) as (_ & _ & -> & _).
      apply expiry_seconds; lia.
    - unfold d. rewrite Hb. destruct n as [|n]; [lia|].
      destruct (whole_second_facts n ltac:(lia)) as (_ & _ & _ & ->).
      apply expiry_seconds; lia.
    - unfold d. destruct (b_timerSeconds body); try discriminate;
        vm_compute; reflexivity. }
  pose proof (on_startSession_owner _ _ _ _ Hr Hw) as Hh.
  fold key d in Hh.
  set (s1 := after_start key r d s) in *.
  set (t1 := {| timeRemaining := d; interval := next_interval s |}).
  set (r1 := set_timer (Some t1) (set_state started r)).
  assert (HI1 : Inv s1).
  { destruct (on_startSession_step _ _ rnd _ _ _ Hh) as (l & Hl & _).
    eauto using Inv_core_step, reachable_Inv. }
  assert (Hi1 : intervals s1 !! next_interval s = Some key)
    by (unfold s1, after_start; cbn [intervals]; apply lookup_insert_eq).
  assert (Hr1 : rooms s1 !! key = Some r1)
    by (unfold s1, after_start; cbn [rooms]; apply lookup_insert_eq).
  destruct (countdown_runs n s1 (next_interval s) key r1 t1 n HI1 Hi1 Hr1 eq_refl Hex)
    as [(s' & out & Htr & Hroom & _ & Hout) Hbefore].
  eexists s1, _. split; [cbn [handle]; rewrite dispatch_startSession; exact Hh|].
  split.
  - exists s', out. split; [exact Htr|]. split; [exact Hroom|exact Hout].
  - intros k Hlt. destruct (Hbefore k Hlt) as (sk & outk & Htk & Hrk & _ & Hok).
    eexists sk, outk, _. split; [exact Htk|]. split; [exact Hrk|]. split; done.
Qed.

Lemma session_lasts_its_seconds_witness :
  let body := request (Some "1000") None (JNum (seconds 2)) JUndefined in
  ∃ s1 out1,
    handle (inbound 1 (parsed "startSession" body) []) ex_joined = Ok tt s1 out1 ∧
    (∃ s' out,
       trace (replicate 2 (tick (next_interval ex_joined))) s1 = Some (s', out) ∧
       rooms s' !! "1000" = Some (set_state ended (set_timer None ex_room2)) ∧
       List.filter is_sessionEnded out =
         delivered ex_joined (owner ex_room2 :: clients ex_room2) sessionEnded) ∧
    (∀ k, k < 2 →
       ∃ sk outk rk,
         trace (replicate k (tick (next_interval ex_joined))) s1 = Some (sk, outk) ∧
         rooms sk !! "1000" = Some rk ∧ state rk = started ∧
         List.filter is_sessionEnded outk = []).
Proof.
  intros body.
  apply (session_lasts_its_seconds ex_joined 1 body [] "1000" ex_room2 2
           ex_joined_reachable); try reflexivity.
  left. split; [reflexivity|]. unfold one_day. split; [lia|].
  apply Nat.leb_le. vm_compute. reflexivity.
Defined.

(** ** The duration of a session *)

Lemma ltb_leb (x y : number) :
  PrimFloat.ltb x y = true → PrimFloat.leb x y = true.
Proof.
  rewrite FloatAxioms.ltb_spec, FloatAxioms.leb_spec.
  unfold SpecFloat.SFltb, SpecFloat.SFleb.
  now destruct (SpecFloat.SFcompare _ _) as [[| |]|].
Qed.

(** X24: whatever [timerSeconds] is, the duration of a session is a number
    that is at least 1, or it is NaN; it is NaN only when [timerSeconds] is
    a number, and it is 60 whenever [timerSeconds] is not one.  So no
    session starts with a remaining time of zero or less. *)
Theorem duration_at_least_one (timerSeconds : JsVal) :
  (PrimFloat.leb 1%float (duration timerSeconds) = true ∨
   PrimFloat.is_nan (duration timerSeconds) = true ∧
   is_number timerSeconds = true) ∧
  (is_number timerSeconds = true ∨ duration timerSeconds = 60%float).
Proof.
  split; [|destruct timerSeconds; auto].
  destruct timerSeconds as [| | |x| |]; try (left; reflexivity).
  cbn [duration is_number]. unfold math_max.
  destruct (PrimFloat.is_nan 1%float || PrimFloat.is_nan (math_floor x)) eqn:Hn.
  - right. split; reflexivity.
  - left. destruct (PrimFloat.ltb 1%float (math_floor x)) eqn:Hl.
    + now apply ltb_leb.
    + reflexivity.
Qed.

(** ** Transmissions go to open connections *)




























(** ** What a room keeps for life *)

Lemma same_identity_refl r : same_identity r r.
Proof. now repeat split. Qed.

Lemma same_identity_trans r1 r2 r3 :
  same_identity r1 r2 → same_identity r2 r3 → same_identity r1 r3.
Proof. intros (?&?&?) (?&?&?). repeat split; congruence. Qed.

Lemma rooms_clear_tags cs s : rooms (clear_tags cs s) = rooms s.
Proof. apply (same_core_clear_tags cs s). Qed.

(** A room rewritten in place under [key0], seen from the code [key]. *)
Lemma stored_identity key0 key r0 r0' r r' (m : gmap string Room) :
  m !! key0 = Some r0 → same_identity r0 r0' →
  m !! key = Some r → <[key0 := r0']> m !! key = Some r' →
  same_identity r r'.
Proof.
  intros H0 Hid Hr. rewrite lookup_insert. case_decide as E.
  - subst key0. intros [= <-]. congruence.
  - intros Hr'. rewrite Hr in Hr'. injection Hr' as <-. apply same_identity_refl.
Qed.

Lemma leave_identity w s s1 o key r r1 :
  leaveRoom w s = Ok tt s1 o →
  rooms s !! key = Some r → rooms s1 !! key = Some r1 → same_identity r r1.
Proof.
  intros Hl Hr. apply leaveRoom_cases in Hl
    as [(_ & -> & _)|[(k & _ & _ & -> & _)|[(k & r0 & _ & Hr0 & _ & -> & _)
       |(k & r0 & _ & Hr0 & _ & -> & _)]]].
  - intros Hr1. rewrite Hr in Hr1. injection Hr1 as <-. apply same_identity_refl.
  - intros Hr1. change (rooms (tag_room w None s)) with (rooms s) in Hr1.
    rewrite Hr in Hr1. injection Hr1 as <-. apply same_identity_refl.
  - change (rooms (untag w ?x)) with (rooms x). fields.
    eapply stored_identity; eauto. now repeat split.
  - change (rooms (untag w ?x)) with (rooms x).
    rewrite rooms_close_room, rooms_clear_tags, lookup_delete.
    case_decide; [discriminate|]. intros Hr1. rewrite Hr in Hr1.
    injection Hr1 as <-. apply same_identity_refl.
Qed.

(** X26: a room keeps its quiz, its owner's email and its scores for as
    long as it is in the table.  Across any event a reachable server
    handles, the room stored under a code has the same quiz and the same
    owner email as before, and every score recorded in it is still recorded
    with the same value, unless the event is a [finishQuiz] that records a
    new value for that very email; the one exception is the [create] of the
    owner's connection, which closes the room and may store a new one under
    the same code. *)
Theorem room_keeps_identity (s : Server) (ev : Event) (s' : Server)
    (out : list Sent) (key : string) (r r' : Room) :
  reachable s → deliverable s ev → handle ev s = Ok tt s' out →
  rooms s !! key = Some r → rooms s' !! key = Some r' →
  (quiz r' = quiz r ∧ email (owner r') = email (owner r) ∧
   ∀ e v, scores r !! e = Some v →
     scores r' !! e = Some v ∨
     ∃ w body rnd v',
       ev = inbound w (parsed "finishQuiz" body) rnd ∧
       b_userEmail body = Some e ∧ b_score body = JNum v' ∧
       scores r' !! e = Some v') ∨
  (∃ body rnd e,
     ev = inbound (ws (owner r)) (parsed "create" body) rnd ∧
     r' = new_room (ws (owner r)) e (b_quizData body)).
Proof.
  intros Hs Hd H Hr Hr'. pose proof (reachable_Inv _ Hs) as HI.
  assert (Hsame : same_identity r r' →
    quiz r' = quiz r ∧ email (owner r') = email (owner r) ∧
    ∀ e v, scores r !! e = Some v →
      scores r' !! e = Some v ∨
      ∃ w body rnd v',
        ev = inbound w (parsed "finishQuiz" body) rnd ∧
        b_userEmail body = Some e ∧ b_score body = JNum v' ∧
        scores r' !! e = Some v').
  { intros (Hq & Ho & Hf). repeat split; try done.
    intros e v Hv. left. unfold scores in *. now rewrite Hf. }
  assert (Hunchanged : s' = s → same_identity r r').
  { intros ->. rewrite Hr in Hr'. injection Hr' as <-. apply same_identity_refl. }
  destruct ev as [w|w [| |action body] rnd|w|w|i]; cbn [handle] in H.
  - left. apply Hsame. inversion H; subst. cbn in Hr'.
    rewrite Hr in Hr'. injection Hr' as <-. apply same_identity_refl.
  - left. apply Hsame, Hunchanged. now inversion H.
  - discriminate.
  - destruct Hd as [_ Hrnd].
    destruct (dispatch_cases w action body rnd)
      as [[-> E]|[[-> E]|[[-> E]|[[-> E]|[[-> E]|[[-> E]|[[-> E]|[[-> E]|[_ E]]]]]]]]];
      rewrite E in H; clear E.
    + destruct (after_leave_Ok _ _ _ _ _ H) as (s1 & out1 & out2 & Hl & Hb & ->).
      destruct (create_body_cases w body rnd s1)
        as [(_ & E)|[(e & _ & _ & E)|(e & n & He & Hn & Hfree & E)]];
        rewrite E in Hb; inversion Hb; subst; clear Hb.
      * left. apply Hsame. eapply leave_identity; eauto.
      * unfold after_create in Hr'. revert Hr'. fields.
        rewrite lookup_insert. case_decide as Ek.
        -- subst key. intros [= <-]. right. exists body, rnd, e.
           apply rooms_get_Missing in Hfree.
           rewrite (leave_closes _ _ _ _ _ _ HI Hl Hr Hfree). done.
        -- intros Hr1. left. apply Hsame. eapply leave_identity; eauto.
    + destruct (after_leave_Ok _ _ _ _ _ H) as (s1 & out1 & out2 & Hl & Hb & ->).
      left. apply Hsame.
      destruct (join_body_cases w body s1)
        as [(e & E)|[(k & _ & _ & _ & E)|(k & e & r0 & _ & _ & Hr0 & _ & E)]];
        rewrite E in Hb; inversion Hb; subst; clear Hb.
      * eapply leave_identity; eauto.
      * unfold after_join in Hr'. revert Hr'. fields. intros Hr'.
        destruct (rooms s1 !! key) as [r1|] eqn:Hr1.
        -- eapply same_identity_trans; [eapply leave_identity; eauto|].
           eapply stored_identity; [exact Hr0| |exact Hr1|exact Hr'].
           now repeat split.
        -- rewrite lookup_insert in Hr'. case_decide; congruence.
    + left. apply Hsame.
      destruct (on_startSession_cases w body s) as [(e & E)|(r0 & Hr0 & _ & E)];
        rewrite E in H; inversion H; subst; [now apply Hunchanged|].
      unfold after_start in Hr'. cbn [rooms] in Hr'.
      eapply stored_identity; [exact Hr0| |exact Hr|exact Hr']. now repeat split.
    + left. apply Hsame.
      destruct (on_reconnect_cases w body s)
        as [(e & E)|[(k & _ & _ & _ & E)
           |[(k & e & r0 & _ & _ & Hr0 & _ & _ & E)
            |(k & e & r0 & _ & _ & Hr0 & _ & _ & E)]]];
        rewrite E in H; inversion H; subst; try (now apply Hunchanged).
      * unfold after_reconnect_owner in Hr'. revert Hr'. fields. intros Hr'.
        eapply stored_identity; [exact Hr0| |exact Hr|exact Hr']. now repeat split.
      * unfold after_join in Hr'. revert Hr'. fields. intros Hr'.
        eapply stored_identity; [exact Hr0| |exact Hr|exact Hr']. now repeat split.
    + left. apply Hsame.
      destruct (on_deleteRoom_cases w body s)
        as [(e & E)|[(k & _ & _ & _ & E)|(k & r0 & _ & Hr0 & _ & E)]];
        rewrite E in H; inversion H; subst; try (now apply Hunchanged).
      rewrite rooms_close_room, lookup_delete in Hr'.
      case_decide; [discriminate|]. rewrite Hr in Hr'. injection Hr' as <-.
      apply same_identity_refl.
    + left. apply Hsame.
      destruct (on_leaveRoom_cases w s)
        as [(e & E)|[(k & _ & _ & _ & E)|[(k & _ & _ & _ & E)
           |(k & r0 & _ & Hr0 & _ & E)]]];
        rewrite E in H; inversion H; subst; try (now apply Hunchanged).
      * change (rooms (tag_room w None s)) with (rooms s) in Hr'.
        rewrite Hr in Hr'. injection Hr' as <-. apply same_identity_refl.
      * unfold after_leave in Hr'.
        change (rooms (untag w ?x)) with (rooms x) in Hr'. revert Hr'. fields.
        intros Hr'. eapply stored_identity; [exact Hr0| |exact Hr|exact Hr'].
        now repeat split.
    + destruct (on_finishQuiz_cases w body s)
        as [(e & E)|[(k & _ & _ & _ & E)|(k & e & sc & r0 & _ & He & Hsc & Hr0 & E)]];
        rewrite E in H; inversion H; subst;
        try (left; now apply Hsame, Hunchanged).
      unfold after_finish in Hr'. revert Hr'. fields.
      rewrite lookup_insert. case_decide as Ek.
      * subst k. intros [= <-]. rewrite Hr in Hr0. injection Hr0 as <-.
        left. repeat split; try done. intros e' v Hv.
        change (scores (set_finished (Some (obj_set e sc (default ∅ (finished r)))) r))
          with (obj_set e sc (scores r)).
        unfold obj_set.
        destruct (String.eqb e "__proto__") eqn:Ep; [now left|].
        rewrite lookup_insert. case_decide as Ee; [|now left].
        subst e'. right. exists w, body, rnd, sc.
        repeat split; try done. now apply required_Some.
      * intros Hr1. rewrite Hr in Hr1. injection Hr1 as <-.
        left. apply Hsame, same_identity_refl.
    + left. apply Hsame, Hunchanged. now apply on_message_step in H.
    + rewrite safeSend_eq in H. left. apply Hsame, Hunchanged. now inversion H.
  - left. apply Hsame. apply set_ready_leave_Ok in H.
    eapply leave_identity; eauto.
  - left. apply Hsame. apply set_ready_leave_Ok in H.
    eapply leave_identity; eauto.
  - left. apply Hsame. destruct Hd as [k Hi].
    destruct (live_interval_room _ _ _ Hs Hi) as (r0 & t & Hr0 & Ht & _ & _).
    pose proof (tick_after _ _ _ _ _ Hi Hr0 Ht) as Hh. cbn [handle] in Hh.
    cbv zeta in Hh. rewrite Hh in H. inversion H; subst.
    unfold after_tick in Hr'. cbv zeta in Hr'.
    destruct (PrimFloat.leb _ _); revert Hr'; fields; intros Hr';
      (eapply stored_identity; [exact Hr0| |exact Hr|exact Hr']; now repeat split).
Qed.

Lemma room_keeps_identity_witness :
  let body := request (Some "1000") (Some "member@x") JUndefined (JNum 7%float) in
  let ev := inbound 2 (parsed "finishQuiz" body) [] in
  let r' := set_finished (Some (obj_set "member@x" 7%float ∅)) ex_room2 in
  (quiz r' = quiz ex_room2 ∧ email (owner r') = email (owner ex_room2) ∧
   ∀ e v, scores ex_room2 !! e = Some v →
     scores r' !! e = Some v ∨
     ∃ w body rnd v',
       ev = inbound w (parsed "finishQuiz" body) rnd ∧
       b_userEmail body = Some e ∧ b_score body = JNum v' ∧
       scores r' !! e = Some v') ∨
  (∃ body rnd e,
     ev = inbound (ws (owner ex_room2)) (parsed "create" body) rnd ∧
     r' = new_room (ws (owner ex_room2)) e (b_quizData body)).
Proof.
  intros body ev r'.
  apply (room_keeps_identity ex_joined ev
           (after_finish "1000" "member@x" 7%float ex_room2 ex_joined)
           [(1, userFinished "member@x" 7%float 0%float)] "1000" ex_room2 r'
           ex_joined_reachable).
  - split; [vm_compute; eauto|constructor].
  - vm_compute. reflexivity.
  - reflexivity.
  - vm_compute. reflexivity.
Defined.

(** ** Taking a room over *)

(** What [leaveRoom] leaves of a room that the leaving connection does not
    own: everything but roster entries. *)
Lemma leave_keeps_foreign_room w s s1 o key r :
  leaveRoom w s = Ok tt s1 o →
  rooms s !! key = Some r → ws (owner r) ≠ w →
  ∃ r1, rooms s1 !! key = Some r1 ∧ owner r1 = owner r ∧ state r1 = state r ∧
        timer r1 = timer r ∧ quiz r1 = quiz r ∧ finished r1 = finished r ∧
        clients r1 `sublist_of` clients r.
Proof.
  intros Hl Hr Hw. apply leaveRoom_cases in Hl
    as [(_ & -> & _)|[(k & _ & _ & -> & _)|[(k & r0 & _ & Hr0 & _ & -> & _)
       |(k & r0 & _ & Hr0 & Hw0 & -> & _)]]].
  - exists r. now repeat split.
  - exists r. now repeat split.
  - change (rooms (untag w ?x)) with (rooms x). fields.
    rewrite lookup_insert. case_decide as E.
    + subst k. rewrite Hr in Hr0. injection Hr0 as <-.
      eexists. split; [reflexivity|]. repeat split. apply sublist_filter.
    + exists r. now repeat split.
  - change (rooms (untag w ?x)) with (rooms x).
    rewrite rooms_close_room, rooms_clear_tags, lookup_delete.
    case_decide as E; [subst k; congruence|]. exists r. now repeat split.
Qed.

(** X27: in a reachable server, once a second connection has reconnected
    with the owner's email to a room that has not ended, the room belongs
    to that connection: the close of the connection that owned it before
    is handled to completion and no longer closes the room; it leaves the
    room's owner, state, timer, quiz and scores as they are and removes at
    most roster entries. *)
Theorem owner_reconnect_takes_over (s : Server) (w2 : nat) (body : Body)
    (rnd : list N) (key : string) (r : Room) :
  reachable s →
  deliverable s (inbound w2 (parsed "reconnect" body) rnd) →
  b_roomCode body = Some key →
  b_userEmail body = Some (email (owner r)) →
  rooms s !! key = Some r →
  state r ≠ ended →
  w2 ≠ ws (owner r) →
  ∃ s1 out1 s2 out2 r2,
    handle (inbound w2 (parsed "reconnect" body) rnd) s = Ok tt s1 out1 ∧
    handle (close (ws (owner r))) s1 = Ok tt s2 out2 ∧
    rooms s2 !! key = Some r2 ∧
    owner r2 = {| ws := w2; email := email (owner r) |} ∧
    state r2 = state r ∧ timer r2 = timer r ∧ quiz r2 = quiz r ∧
    finished r2 = finished r ∧ clients r2 `sublist_of` clients r.
Proof.
  intros Hs Hd Hb He Hr Hst Hw.
  assert (Hk : required (b_roomCode body) = Some key)
    by (rewrite Hb; eapply reachable_required_code; eauto).
  assert (Hu : required (b_userEmail body) = Some (email (owner r))).
  { rewrite He. apply truthy_required.
    exact (owner_named _ (reachable_roster_ok _ _ _ Hs Hr)). }
  pose proof (on_reconnect_owner w2 body s key _ r Hk Hu Hr Hst eq_refl) as Hh.
  set (s1 := after_reconnect_owner w2 (email (owner r)) key r s) in *.
  assert (Hh' : handle (inbound w2 (parsed "reconnect" body) rnd) s =
            Ok tt s1 (reply s w2 (reconnected (quiz r) role_owner (state r)
                                    (remaining_or_null r))))
    by (cbn [handle]; rewrite dispatch_reconnect; exact Hh).
  assert (Hs1 : reachable s1) by (eapply reachable_step; eauto).
  set (r1 := set_owner {| ws := w2; email := email (owner r) |} r).
  assert (Hr1 : rooms s1 !! key = Some r1)
    by (unfold s1, after_reconnect_owner; fields; apply lookup_insert_eq).
  set (s1' := tag_ready (ws (owner r)) false s1).
  destruct (leaveRoom_total (ws (owner r)) s1'
              (tags_ok_tag_ready _ _ _ (reachable_tags_ok _ Hs1))) as (s2 & out2 & Hl).
  destruct (leave_keeps_foreign_room _ _ _ _ key r1 Hl Hr1)
    as (r2 & Hr2 & Ho & Hst2 & Ht2 & Hq2 & Hf2 & Hc2); [cbn; congruence|].
  eexists s1, _, s2, out2, r2. split; [exact Hh'|]. split.
  { cbn [handle]. unfold set_ws_ready. rewrite bind_modify. exact Hl. }
  repeat split; done.
Qed.

Lemma owner_reconnect_takes_over_witness :
  let body := request (Some "1000") (Some "owner@x") JUndefined JUndefined in
  ∃ s1 out1 s2 out2 r2,
    handle (inbound 2 (parsed "reconnect" body) []) ex_joined = Ok tt s1 out1 ∧
    handle (close (ws (owner ex_room2))) s1 = Ok tt s2 out2 ∧
    rooms s2 !! "1000" = Some r2 ∧
    owner r2 = {| ws := 2; email := email (owner ex_room2) |} ∧
    state r2 = state ex_room2 ∧ timer r2 = timer ex_room2 ∧
    quiz r2 = quiz ex_room2 ∧ finished r2 = finished ex_room2 ∧
    clients r2 `sublist_of` clients ex_room2.
Proof.
  intros body.
  apply (owner_reconnect_takes_over ex_joined 2 body [] "1000" ex_room2
           ex_joined_reachable); try reflexivity; try discriminate.
  split; [vm_compute; eauto|constructor].
Defined.
